(** * Cookie Skipper AI: scan orchestration, tab state and credential cache

    A shallow embedding of the background service worker of the extension
    (stateManager.ts, scanManager.ts, messageHandler.ts, background.ts,
    geminiService.ts, configService.ts, settingsService.ts and
    analyticsService.ts) together with the properties of its specification.

    JavaScript strings are sequences of UTF-16 code units; they are modelled
    as [list N].  Asynchronous functions are modelled in a state-and-exception
    monad over the service worker's module state, the two chrome.storage
    areas and a trace of the calls made to collaborators; every handler runs
    to completion before the next one starts. *)

From Stdlib Require Import ZArith NArith List String Ascii Bool Lia DecimalString.
From stdpp Require Import base option list gmap.

#[local] Set Warnings "-register-all".

Local Open Scope N_scope.

(** ** Strings *)

Abbreviation jsstring := (list N).

Definition js (s : string) : jsstring :=
  map N_of_ascii (list_ascii_of_string s).

(** Truthiness of a string value: non-empty. *)
Definition nonempty (s : jsstring) : bool :=
  match s with [] => false | _ => true end.

(** Truthiness of a [string | undefined] value. *)
Definition truthy_str (o : option jsstring) : bool :=
  match o with Some s => nonempty s | None => false end.

(** Template-literal rendering of a [string | undefined] value. *)
Definition render_opt (o : option jsstring) : jsstring :=
  match o with Some s => s | None => js "undefined" end.

Definition render_bool (b : bool) : jsstring :=
  if b then js "true" else js "false".

Definition render_number (n : N) : jsstring :=
  js (NilZero.string_of_uint (N.to_uint n)).

(** WhiteSpace and LineTerminator code units: the set removed by
    [String.prototype.trim] and matched by the regular-expression class \s. *)
Definition is_space (c : N) : bool :=
  ((9 <=? c) && (c <=? 13)) || (c =? 32) || (c =? 160) || (c =? 5760)
  || ((8192 <=? c) && (c <=? 8202)) || (c =? 8232) || (c =? 8233)
  || (c =? 8239) || (c =? 8287) || (c =? 12288) || (c =? 65279).

(** The class \w: ASCII letters, digits and the underscore. *)
Definition is_word (c : N) : bool :=
  ((48 <=? c) && (c <=? 57)) || ((65 <=? c) && (c <=? 90))
  || ((97 <=? c) && (c <=? 122)) || (c =? 95).

Fixpoint trim_start (s : jsstring) : jsstring :=
  match s with
  | c :: r => if is_space c then trim_start r else s
  | [] => []
  end.

Definition trim (s : jsstring) : jsstring :=
  rev (trim_start (rev (trim_start s))).

Fixpoint starts_with (p s : jsstring) : bool :=
  match p, s with
  | [], _ => true
  | a :: p', b :: s' => (a =? b) && starts_with p' s'
  | _ :: _, [] => false
  end.

(** [String.prototype.includes]. *)
Fixpoint includes (s needle : jsstring) : bool :=
  starts_with needle s ||
  match s with
  | [] => false
  | _ :: r => includes r needle
  end.

(** [String.prototype.substring(0, n)]. *)
Definition substring0 (n : N) (s : jsstring) : jsstring :=
  firstn (N.to_nat n) s.

(** ** Regular expressions

    A backtracking matcher for the fragment of ECMAScript regular
    expressions used by the fence pattern: character classes, sequencing,
    greedy and lazy stars, the greedy optional, capture groups and the two
    anchors (no m flag).  Alternatives are explored in the priority order of
    the ECMAScript matcher; an iteration of a quantifier that consumes
    nothing is rejected, and the groups of a quantified atom are reset when
    an iteration starts. *)

Inductive regex :=
| RStart
| REnd
| RClass (p : N -> bool)
| RSeq (r1 r2 : regex)
| RStar (greedy : bool) (r : regex)
| ROpt (r : regex)
| RGroup (i : nat) (r : regex).

Definition Caps := nat -> option jsstring.

Definition no_caps : Caps := fun _ => None.

Definition set_cap (i : nat) (v : option jsstring) (c : Caps) : Caps :=
  fun j => if Nat.eqb i j then v else c j.

Fixpoint groups_of (r : regex) : list nat :=
  match r with
  | RStart | REnd | RClass _ => []
  | RSeq a b => groups_of a ++ groups_of b
  | RStar _ a | ROpt a => groups_of a
  | RGroup i a => i :: groups_of a
  end.

Definition reset_caps (gs : list nat) (c : Caps) : Caps :=
  fold_right (fun i acc => set_cap i None acc) c gs.

Definition Cont := jsstring -> Caps -> option Caps.

Definition or_else (a : option Caps) (b : unit -> option Caps) : option Caps :=
  match a with Some c => Some c | None => b tt end.

Fixpoint star_loop (fuel : nat) (gs : list nat)
    (m : jsstring -> Caps -> Cont -> option Caps)
    (greedy : bool) (s : jsstring) (c : Caps) (k : Cont) : option Caps :=
  match fuel with
  | O => k s c
  | S f =>
      let iterate (_ : unit) :=
        m s (reset_caps gs c)
          (fun s' c' =>
             if (length s' <? length s)%nat
             then star_loop f gs m greedy s' c' k
             else None) in
      if greedy then or_else (iterate tt) (fun _ => k s c)
      else or_else (k s c) iterate
  end.

Fixpoint rmatch (r : regex) (input : jsstring)
    (s : jsstring) (c : Caps) (k : Cont) {struct r} : option Caps :=
  match r with
  | RStart => if (length s =? length input)%nat then k s c else None
  | REnd => match s with [] => k s c | _ => None end
  | RClass p =>
      match s with
      | x :: s' => if p x then k s' c else None
      | [] => None
      end
  | RSeq a b => rmatch a input s c (fun s' c' => rmatch b input s' c' k)
  | RStar greedy a =>
      star_loop (S (length s)) (groups_of a) (rmatch a input) greedy s c k
  | ROpt a =>
      or_else
        (rmatch a input s (reset_caps (groups_of a) c)
           (fun s' c' => if (length s' <? length s)%nat then k s' c' else None))
        (fun _ => k s c)
  | RGroup i a =>
      rmatch a input s c
        (fun s' c' =>
           k s' (set_cap i (Some (firstn (length s - length s') s)) c'))
  end.

(** [String.prototype.match] with a non-global pattern: the first start
    position, from the left, at which the pattern matches. *)
Fixpoint match_from (fuel : nat) (r : regex) (input s : jsstring)
  : option Caps :=
  or_else (rmatch r input s no_caps (fun _ c => Some c))
    (fun _ =>
       match fuel, s with
       | S f, _ :: s' => match_from f r input s'
       | _, _ => None
       end).

Definition regex_match (r : regex) (input : jsstring) : option Caps :=
  match_from (length input) r input input.

Definition rlit (c : N) : regex := RClass (N.eqb c).

Definition backtick : N := 96.
Definition newline : N := 10.

Definition any_char (c : N) : bool := true.

(** The pattern of findAcceptButtonSelector, with the s flag: start anchor,
    three backticks, an optional group 1 of word characters, white space,
    an optional newline, group 2 (a lazy run of any characters), an optional
    newline, white space, three backticks, end anchor.  It is built from
    its end: the closing fence, what may stand between the body and the
    closing fence, and what follows the opening fence. *)
Definition fence_close : regex :=
  RSeq (rlit backtick) (RSeq (rlit backtick) (RSeq (rlit backtick) REnd)).

Definition fence_after_body : regex :=
  RSeq (ROpt (rlit newline)) (RSeq (RStar true (RClass is_space)) fence_close).

Definition fence_body : regex :=
  RSeq (RGroup 2 (RStar false (RClass any_char))) fence_after_body.

Definition fence_after_open : regex :=
  RSeq (ROpt (RGroup 1 (RStar true (RClass is_word))))
    (RSeq (RStar true (RClass is_space))
       (RSeq (ROpt (rlit newline)) fence_body)).

Definition fenceRegex : regex :=
  RSeq RStart
    (RSeq (rlit backtick) (RSeq (rlit backtick) (RSeq (rlit backtick)
       fence_after_open))).

(** The fence-stripping step of findAcceptButtonSelector, applied to
    [response.text]. *)
Definition stripFence (text : jsstring) : jsstring :=
  let jsonStr := trim text in
  match regex_match fenceRegex jsonStr with
  | Some caps =>
      match caps 2%nat with
      | Some g => if nonempty g then trim g else jsonStr
      | None => jsonStr
      end
  | None => jsonStr
  end.

(** ** JSON

    [JSON.parse] as a recursive-descent parser over code units.  A number
    is kept as its lexeme: no property of the program depends on its
    numeric value. *)

Inductive json :=
| JNull
| JBool (b : bool)
| JNumber (lexeme : jsstring)
| JString (s : jsstring)
| JArray (items : list json)
| JObject (fields : list (jsstring * json)).

Definition is_json_ws (c : N) : bool :=
  (c =? 32) || (c =? 9) || (c =? 10) || (c =? 13).

Fixpoint skip_ws (s : jsstring) : jsstring :=
  match s with
  | c :: r => if is_json_ws c then skip_ws r else s
  | [] => []
  end.

Definition is_digit (c : N) : bool := (48 <=? c) && (c <=? 57).

Definition hex_val (c : N) : option N :=
  if is_digit c then Some (c - 48)
  else if (65 <=? c) && (c <=? 70) then Some (c - 55)
  else if (97 <=? c) && (c <=? 102) then Some (c - 87)
  else None.

Fixpoint take_digits (s : jsstring) : jsstring * jsstring :=
  match s with
  | c :: r =>
      if is_digit c then let (d, r') := take_digits r in (c :: d, r')
      else ([], s)
  | [] => ([], [])
  end.

Definition Parser (A : Type) : Type := jsstring -> option (A * jsstring).

Definition lift {A B} (f : A -> B) (o : option (A * jsstring))
  : option (B * jsstring) :=
  match o with
  | Some (a, r) => Some (f a, r)
  | None => None
  end.

(** The character denoted by a one-letter escape. *)
Definition simple_escape (e : N) : option N :=
  if e =? 34 then Some 34
  else if e =? 92 then Some 92
  else if e =? 47 then Some 47
  else if e =? 98 then Some 8
  else if e =? 102 then Some 12
  else if e =? 110 then Some 10
  else if e =? 114 then Some 13
  else if e =? 116 then Some 9
  else None.

Definition hex4 (h1 h2 h3 h4 : N) : option N :=
  match hex_val h1, hex_val h2, hex_val h3, hex_val h4 with
  | Some a, Some b, Some c, Some d => Some (((a * 16 + b) * 16 + c) * 16 + d)
  | _, _, _, _ => None
  end.

(** Characters of a string literal after the opening quote. *)
Fixpoint parse_chars (s : jsstring) : option (jsstring * jsstring) :=
  match s with
  | [] => None
  | c :: r =>
      if c =? 34 then Some ([], r)
      else if c =? 92 then
        match r with
        | [] => None
        | e :: r1 =>
            if e =? 117 then
              match r1 with
              | h1 :: h2 :: h3 :: h4 :: r5 =>
                  match hex4 h1 h2 h3 h4 with
                  | Some u => lift (cons u) (parse_chars r5)
                  | None => None
                  end
              | _ => None
              end
            else
              match simple_escape e with
              | Some x => lift (cons x) (parse_chars r1)
              | None => None
              end
        end
      else if c <? 32 then None
      else lift (cons c) (parse_chars r)
  end.

(** An optional character of a given set at the head of [s]. *)
Definition take_if (p : N -> bool) (s : jsstring) : jsstring * jsstring :=
  match s with
  | c :: r => if p c then ([c], r) else ([], s)
  | [] => ([], s)
  end.

(** The fraction of a number: nothing, or a dot and at least one digit. *)
Definition take_fraction (s : jsstring) : option (jsstring * jsstring) :=
  match take_if (N.eqb 46) s with
  | ([], _) => Some ([], s)
  | (dot, r) =>
      let (f, r') := take_digits r in
      if nonempty f then Some (dot ++ f, r') else None
  end.

(** The exponent of a number: nothing, or [e] or [E], an optional sign and
    at least one digit. *)
Definition take_exponent (s : jsstring) : option (jsstring * jsstring) :=
  match take_if (fun c => (c =? 101) || (c =? 69)) s with
  | ([], _) => Some ([], s)
  | (e, r) =>
      let (sg, r1) := take_if (fun c => (c =? 43) || (c =? 45)) r in
      let (x, r2) := take_digits r1 in
      if nonempty x then Some (e ++ sg ++ x, r2) else None
  end.

(** A number token at the head of [s]: its lexeme and the rest. *)
Definition parse_number (s : jsstring) : option (jsstring * jsstring) :=
  let (sign, s1) := take_if (N.eqb 45) s in
  let (int, s2) := take_digits s1 in
  match int with
  | [] => None
  | d :: ds =>
      if (d =? 48) && nonempty ds then None
      else
        match take_fraction s2 with
        | None => None
        | Some (f, s3) =>
            match take_exponent s3 with
            | None => None
            | Some (x, s4) => Some (sign ++ int ++ f ++ x, s4)
            end
        end
  end.

(** A literal name or a number at the head of [s]. *)
Definition parse_scalar (s : jsstring) : option (json * jsstring) :=
  if starts_with (js "true") s then Some (JBool true, skipn 4 s)
  else if starts_with (js "false") s then Some (JBool false, skipn 5 s)
  else if starts_with (js "null") s then Some (JNull, skipn 4 s)
  else lift JNumber (parse_number s).

(** Whether the next token of [s] is the character [c]. *)
Definition next_is (c : N) (s : jsstring) : bool :=
  match skip_ws s with
  | x :: _ => x =? c
  | [] => false
  end.

Definition after_next (s : jsstring) : jsstring := skipn 1 (skip_ws s).

Fixpoint parse_value (fuel : nat) : Parser json :=
  match fuel with
  | O => fun _ => None
  | S f => fun s =>
      match skip_ws s with
      | [] => None
      | c :: r =>
          if c =? 123 then
            if next_is 125 r then Some (JObject [], after_next r)
            else lift JObject (parse_members f r)
          else if c =? 91 then
            if next_is 93 r then Some (JArray [], after_next r)
            else lift JArray (parse_elements f r)
          else if c =? 34 then lift JString (parse_chars r)
          else parse_scalar (c :: r)
      end
  end
with parse_elements (fuel : nat) : Parser (list json) :=
  match fuel with
  | O => fun _ => None
  | S f => fun s =>
      match parse_value f s with
      | Some (v, r) =>
          if next_is 44 r then lift (cons v) (parse_elements f (after_next r))
          else if next_is 93 r then Some ([v], after_next r)
          else None
      | None => None
      end
  end
with parse_members (fuel : nat) : Parser (list (jsstring * json)) :=
  match fuel with
  | O => fun _ => None
  | S f => fun s =>
      if next_is 34 s then
        match parse_chars (after_next s) with
        | Some (name, r1) =>
            if next_is 58 r1 then
              match parse_value f (after_next r1) with
              | Some (v, r2) =>
                  if next_is 44 r2
                  then lift (cons (name, v)) (parse_members f (after_next r2))
                  else if next_is 125 r2 then Some ([(name, v)], after_next r2)
                  else None
              | None => None
              end
            else None
        | None => None
        end
      else None
  end.

(** [JSON.parse]: [None] stands for the SyntaxError it throws. *)
Definition JSON_parse (s : jsstring) : option json :=
  match parse_value (2 * length s) s with
  | Some (v, r) => match skip_ws r with [] => Some v | _ => None end
  | None => None
  end.

(** Property read on an object built by [JSON.parse]: a later duplicate of
    a key overrides an earlier one. *)
Fixpoint get_field (key : jsstring) (fs : list (jsstring * json)) : option json :=
  match fs with
  | [] => None
  | (k, v) :: rest =>
      match get_field key rest with
      | Some v' => Some v'
      | None => if bool_decide (k = key) then Some v else None
      end
  end.

(** The test of findAcceptButtonSelector on the parsed response,
    [parsed && typeof parsed.selector === 'string' && parsed.selector],
    as the selector it lets through.  Only an object has a [selector]
    property, so for a falsy number or [false] the short-circuit and the
    property read agree. *)
Definition valid_selector (parsed : json) : option jsstring :=
  match parsed with
  | JObject fs =>
      match get_field (js "selector") fs with
      | Some (JString sel) => if nonempty sel then Some sel else None
      | _ => None
      end
  | _ => None
  end.

(** ** Data model (types.ts, settingsService.ts, configService.ts) *)

Inductive MessageType :=
| MANUAL_SCAN_REQUEST | GET_STATUS | OPEN_OPTIONS_PAGE | STATUS_UPDATE.

Inductive ScanStatus :=
| IDLE | SCANNING | ANALYZING | SUCCESS | NOT_FOUND | ERROR.

Inductive OperatingMode := BYOK | FREE_AD_SUPPORTED | PRO.

Inductive ErrorCode :=
| API_KEY_INVALID | CONSENT_REQUIRED
| COMMUNICATION_ERROR | CLICK_FAILED | HTML_FETCH_FAILED
| SCRIPT_INJECTION_FAILED | CONFIG_FETCH_FAILED
| GENERIC_ANALYSIS_ERROR.

#[global] Instance ScanStatus_eq_dec : EqDecision ScanStatus.
Proof. solve_decision. Defined.
#[global] Instance OperatingMode_eq_dec : EqDecision OperatingMode.
Proof. solve_decision. Defined.
#[global] Instance ErrorCode_eq_dec : EqDecision ErrorCode.
Proof. solve_decision. Defined.

(** The string value of an enum member, as a template literal renders it. *)
Definition render_mode (m : OperatingMode) : jsstring :=
  match m with
  | BYOK => js "BYOK"
  | FREE_AD_SUPPORTED => js "FREE_AD_SUPPORTED"
  | PRO => js "PRO"
  end.

Record ErrorPayload := { code : ErrorCode; message : jsstring }.

Record StatusUpdatePayload := {
  status : ScanStatus;
  url : option jsstring;
  error : option ErrorPayload
}.

(** [Partial<StatusUpdatePayload>]: the outer option says whether the key
    is present in the object literal; a key present with the value
    [undefined] still overrides in an object spread. *)
Record StatusPatch := {
  p_status : option ScanStatus;
  p_url : option (option jsstring);
  p_error : option (option ErrorPayload)
}.

(** [{ ...currentState, ...newStatus }] *)
Definition spread (cur : StatusUpdatePayload) (p : StatusPatch)
  : StatusUpdatePayload :=
  {| status := default (status cur) (p_status p);
     url := default (url cur) (p_url p);
     error := default (error cur) (p_error p) |}.

Record UserSettings := {
  mode : OperatingMode;
  consent : bool;
  userKey : option jsstring
}.

(** The three items of chrome.storage.sync, as the save functions of
    settingsService write them (the key is stored encoded). *)
Record SyncStorage := {
  operatingMode : option OperatingMode;
  dataCollectionConsent : option bool;
  apiKey : option jsstring
}.

Record ApiKeyCache := { key : jsstring; timestamp : Z }.

(** A client built by [new GoogleGenAI({ apiKey })]. *)
Record GoogleGenAI := { client_apiKey : jsstring }.

Record Tab := { tab_id : option Z; tab_url : option jsstring }.

Record ClickResult := { success : bool; reason : jsstring }.

(** The object posted to the analytics endpoint. *)
Record AnalyticsBody := {
  a_event : jsstring;
  a_status : jsstring;
  a_url : jsstring;
  a_banner_html_context : option jsstring;
  a_selector : option jsstring;
  a_reason : option jsstring;
  a_timestamp : Z
}.

(** What an analytics tracker hands to [sendEvent]. *)
Record AnalyticsPayload := {
  pl_url : jsstring;
  pl_banner_html_context : option jsstring;
  pl_selector : option jsstring;
  pl_reason : option jsstring;
  pl_status : jsstring
}.

(** Thrown values: an [AppError] (or subclass) with its code, any other
    [Error], or a value that is not an [Error]. *)
Inductive Thrown :=
| AppErr (c : ErrorCode) (msg : jsstring)
| JsErr (msg : jsstring)
| NonErr.

(** What a collaborator outside the extension can throw. *)
Inductive Foreign := ForeignError (msg : jsstring) | ForeignValue.

Definition foreign (f : Foreign) : Thrown :=
  match f with ForeignError m => JsErr m | ForeignValue => NonErr end.

Definition ApiKeyError (msg : jsstring) : Thrown := AppErr API_KEY_INVALID msg.
Definition ConsentRequiredError (msg : jsstring) : Thrown :=
  AppErr CONSENT_REQUIRED msg.

(** ** Calls to collaborators

    Every call that leaves the service worker is recorded, in order.
    [EvAnalysisGateway] is a marker for the entry into
    findAcceptButtonSelector. *)
Inductive Event :=
| EvSyncGet
| EvSyncSet
| EvSessionGetCentral
| EvSessionSetCentral (entry : ApiKeyCache)
| EvSessionSetTab (tabId : Z) (st : StatusUpdatePayload)
| EvSessionRemoveTab (tabId : Z)
| EvSendStatusUpdate (st : StatusUpdatePayload)
| EvFetchConfig
| EvFetchAnalytics (body : AnalyticsBody)
| EvGenerateContent (apiKey contents : jsstring)
| EvExecuteScriptOuterHTML (tabId : Z)
| EvExecuteScriptClick (tabId : Z) (selector : jsstring)
| EvTabsQuery
| EvOpenOptionsPage
| EvAnalysisGateway.

Inductive FetchedConfig :=
| FetchRejects (f : Foreign)
| FetchResponse (ok : bool) (status_code : N) (body : option json).

(** The host: built-ins whose results the program does not fix, the
    build-time constants, and the collaborators.  A collaborator answers as
    a function of the calls made so far, so successive calls may be answered
    differently. *)
Record Host := {
  host_atob : jsstring -> option jsstring;
  host_btoa : jsstring -> option jsstring;
  host_syntaxErrorMessage : jsstring -> jsstring;
  FIND_ACCEPT_BUTTON_PROMPT : jsstring;
  env_DEV : bool;
  env_VITE_CENTRAL_API_KEY : option jsstring;
  sync_lastError : list Event -> option jsstring;
  session_get_lastError : list Event -> option Foreign;
  session_set_rejects : list Event -> option Foreign;
  Date_now : list Event -> Z;
  fetch_config : list Event -> FetchedConfig;
  fetch_analytics_rejects : list Event -> bool;
  models_generateContent : list Event -> jsstring -> jsstring -> Foreign + jsstring;
  scripting_outerHTML : list Event -> Z -> Foreign + option jsstring;
  scripting_click : list Event -> Z -> jsstring -> Foreign + option ClickResult;
  runtime_sendMessage_lastError : list Event -> option jsstring;
  tabs_query_active : list Event -> Foreign + option Tab
}.

(** ** State *)

Record World := {
  tabStates : gmap Z StatusUpdatePayload;
  cachedAiInstance : option GoogleGenAI;
  cachedSettingsKey : option jsstring;
  syncStore : SyncStorage;
  sessionTabs : gmap Z StatusUpdatePayload;
  sessionCentral : option ApiKeyCache;
  trace : list Event
}.

Definition initial : World :=
  {| tabStates := ∅; cachedAiInstance := None; cachedSettingsKey := None;
     syncStore := {| operatingMode := None; dataCollectionConsent := None;
                     apiKey := None |};
     sessionTabs := ∅; sessionCentral := None; trace := [] |}.

Definition log (e : Event) (w : World) : World :=
  {| tabStates := tabStates w; cachedAiInstance := cachedAiInstance w;
     cachedSettingsKey := cachedSettingsKey w; syncStore := syncStore w;
     sessionTabs := sessionTabs w; sessionCentral := sessionCentral w;
     trace := trace w ++ [e] |}.

Definition set_tabStates (m : gmap Z StatusUpdatePayload) (w : World) : World :=
  {| tabStates := m; cachedAiInstance := cachedAiInstance w;
     cachedSettingsKey := cachedSettingsKey w; syncStore := syncStore w;
     sessionTabs := sessionTabs w; sessionCentral := sessionCentral w;
     trace := trace w |}.

Definition set_cache (i : option GoogleGenAI) (k : option jsstring)
    (w : World) : World :=
  {| tabStates := tabStates w; cachedAiInstance := i;
     cachedSettingsKey := k; syncStore := syncStore w;
     sessionTabs := sessionTabs w; sessionCentral := sessionCentral w;
     trace := trace w |}.

Definition set_syncStore (s : SyncStorage) (w : World) : World :=
  {| tabStates := tabStates w; cachedAiInstance := cachedAiInstance w;
     cachedSettingsKey := cachedSettingsKey w; syncStore := s;
     sessionTabs := sessionTabs w; sessionCentral := sessionCentral w;
     trace := trace w |}.

Definition set_sessionTabs (m : gmap Z StatusUpdatePayload) (w : World) : World :=
  {| tabStates := tabStates w; cachedAiInstance := cachedAiInstance w;
     cachedSettingsKey := cachedSettingsKey w; syncStore := syncStore w;
     sessionTabs := m; sessionCentral := sessionCentral w;
     trace := trace w |}.

Definition set_sessionCentral (c : option ApiKeyCache) (w : World) : World :=
  {| tabStates := tabStates w; cachedAiInstance := cachedAiInstance w;
     cachedSettingsKey := cachedSettingsKey w; syncStore := syncStore w;
     sessionTabs := sessionTabs w; sessionCentral := c;
     trace := trace w |}.

(** ** The monad of asynchronous functions *)

Inductive Outcome (A : Type) :=
| Ok (a : A)
| Throw (t : Thrown).
Arguments Ok {A} a.
Arguments Throw {A} t.

Definition M (A : Type) : Type := World -> Outcome A * World.

Definition ret {A} (a : A) : M A := fun w => (Ok a, w).

Definition throw {A} (t : Thrown) : M A := fun w => (Throw t, w).

Definition bind {A B} (m : M A) (k : A -> M B) : M B :=
  fun w =>
    match m w with
    | (Ok a, w') => k a w'
    | (Throw t, w') => (Throw t, w')
    end.

(** [try { m } catch (error) { handler error }] *)
Definition try_catch {A} (m : M A) (handler : Thrown -> M A) : M A :=
  fun w =>
    match m w with
    | (Ok a, w') => (Ok a, w')
    | (Throw t, w') => handler t w'
    end.

(** A state change that cannot fail. *)
Definition effect (f : World -> World) : M unit := fun w => (Ok tt, f w).

(** A read of the state and of the calls made so far. *)
Definition ask {A} (f : World -> A) : M A := fun w => (Ok (f w), w).

Notation "'await' x '<-' m ';;' k" := (bind m (fun x => k))
  (at level 10, x name, m at level 99, k at level 200, only parsing).
Notation "'exec' m ';;' k" := (bind m (fun _ => k))
  (at level 10, m at level 99, k at level 200, only parsing).

(** ** constants.ts *)

Module STORAGE_KEYS.
Definition OPERATING_MODE : jsstring := js "operatingMode".
Definition API_KEY : jsstring := js "apiKey".
Definition DATA_COLLECTION_CONSENT : jsstring := js "dataCollectionConsent".
End STORAGE_KEYS.

Module CACHE_CONFIG.
Definition CENTRAL_API_KEY_TTL_MS : Z := (60 * 60 * 1000)%Z.
End CACHE_CONFIG.

(** ** settingsService.ts *)

Definition encode (h : Host) (data : jsstring) : jsstring :=
  match host_btoa h data with Some e => e | None => data end.

Definition decode (h : Host) (encodedData : jsstring) : jsstring :=
  match host_atob h encodedData with Some d => d | None => encodedData end.

(** The object built in the callback of [chrome.storage.sync.get]. *)
Definition readSettings (h : Host) (result : SyncStorage) : UserSettings :=
  {| mode := default FREE_AD_SUPPORTED (operatingMode result);
     consent := default false (dataCollectionConsent result);
     userKey :=
       match apiKey result with
       | Some stored => if nonempty stored then Some (decode h stored) else None
       | None => None
       end |}.

Definition getSettings (h : Host) : M UserSettings :=
  fun w =>
    match sync_lastError h (trace w) with
    | Some msg => (Throw (JsErr msg), log EvSyncGet w)
    | None => (Ok (readSettings h (syncStore w)), log EvSyncGet w)
    end.

(** [chrome.storage.sync.set] wrapped in a promise, as the three save
    functions do. *)
Definition sync_set (h : Host) (update : SyncStorage -> SyncStorage) : M unit :=
  fun w =>
    match sync_lastError h (trace w) with
    | Some _ => (Throw NonErr, log EvSyncSet w)
    | None => (Ok tt, log EvSyncSet (set_syncStore (update (syncStore w)) w))
    end.

Definition saveOperatingMode (h : Host) (m : OperatingMode) : M unit :=
  sync_set h (fun s =>
    {| operatingMode := Some m;
       dataCollectionConsent := dataCollectionConsent s;
       apiKey := apiKey s |}).

Definition saveUserApiKey (h : Host) (k : jsstring) : M unit :=
  let encodedKey := encode h k in
  sync_set h (fun s =>
    {| operatingMode := operatingMode s;
       dataCollectionConsent := dataCollectionConsent s;
       apiKey := Some encodedKey |}).

Definition saveConsent (h : Host) (c : bool) : M unit :=
  sync_set h (fun s =>
    {| operatingMode := operatingMode s;
       dataCollectionConsent := Some c;
       apiKey := apiKey s |}).

(** ** configService.ts *)

Definition session_get_central (h : Host) : M (option ApiKeyCache) :=
  fun w =>
    match session_get_lastError h (trace w) with
    | Some f => (Throw (foreign f), log EvSessionGetCentral w)
    | None => (Ok (sessionCentral w), log EvSessionGetCentral w)
    end.

Definition session_set_central (h : Host) (entry : ApiKeyCache) : M unit :=
  fun w =>
    match session_set_rejects h (trace w) with
    | Some f => (Throw (foreign f), log (EvSessionSetCentral entry) w)
    | None =>
        (Ok tt, log (EvSessionSetCentral entry)
                  (set_sessionCentral (Some entry) w))
    end.

(** [fetch(API_URLS.CONFIG)] *)
Definition fetch_CONFIG (h : Host) : M (bool * N * (Foreign + json)) :=
  fun w =>
    match fetch_config h (trace w) with
    | FetchRejects f => (Throw (foreign f), log EvFetchConfig w)
    | FetchResponse ok st (Some body) =>
        (Ok (ok, st, inr body), log EvFetchConfig w)
    | FetchResponse ok st None =>
        (Ok (ok, st, inl (ForeignError (js "Unexpected end of JSON input"))),
         log EvFetchConfig w)
    end.

(** [config.apiKey] on the parsed body: a read on [null] throws. *)
Definition read_apiKey (config : json) : M (option json) :=
  match config with
  | JNull => throw (JsErr (js "Cannot read properties of null"))
  | JObject fs => ret (get_field (js "apiKey") fs)
  | _ => ret None
  end.

Definition getCentralApiKey (h : Host) : M jsstring :=
  if env_DEV h && truthy_str (env_VITE_CENTRAL_API_KEY h)
  then ret (render_opt (env_VITE_CENTRAL_API_KEY h))
  else
    (* Step 1: the session cache. *)
    await fresh <-
      try_catch
        (await cacheEntry <- session_get_central h ;;
         match cacheEntry with
         | Some entry =>
             await now <- ask (fun w => Date_now h (trace w)) ;;
             if (now - timestamp entry <? CACHE_CONFIG.CENTRAL_API_KEY_TTL_MS)%Z
             then ret (Some (key entry))
             else ret None
         | None => ret None
         end)
        (fun _ => ret None) ;;
    match fresh with
    | Some k => ret k
    | None =>
        (* Step 2: the remote server. *)
        try_catch
          (await response <- fetch_CONFIG h ;;
           let '(ok, st, body) := response in
           if negb ok
           then throw (AppErr CONFIG_FETCH_FAILED
                         (js "Failed to fetch config, status: "
                          ++ render_number st))
           else
             await config <-
               match body with
               | inl f => throw (foreign f)
               | inr v => ret v
               end ;;
             await k <- read_apiKey config ;;
             match k with
             | Some (JString s) =>
                 if nonempty s then
                   await now <- ask (fun w => Date_now h (trace w)) ;;
                   exec session_set_central h
                          {| key := s; timestamp := now |} ;;
                   ret s
                 else throw (AppErr CONFIG_FETCH_FAILED
                   (js "Invalid API key format received from config server."))
             | _ => throw (AppErr CONFIG_FETCH_FAILED
                   (js "Invalid API key format received from config server."))
             end)
          (fun error =>
             match error with
             | AppErr _ _ => throw error
             | _ => throw (AppErr CONFIG_FETCH_FAILED
                 (js "Could not retrieve the central API key for the service."))
             end)
    end.

(** ** geminiService.ts *)

Definition resetAiInstanceCache : M unit := effect (set_cache None None).

(** [`${settings.mode}:${settings.consent}:${key}`] *)
Definition settingsKey (m : OperatingMode) (c : bool) (k : option jsstring)
  : jsstring :=
  render_mode m ++ js ":" ++ render_bool c ++ js ":" ++ render_opt k.

(** [cachedAiInstance && cachedSettingsKey === k], as the instance returned
    when the test holds. *)
Definition cache_hit (k : jsstring) (w : World) : option GoogleGenAI :=
  match cachedAiInstance w with
  | Some inst =>
      if bool_decide (cachedSettingsKey w = Some k) then Some inst else None
  | None => None
  end.

Definition getAiInstance (h : Host) : M GoogleGenAI :=
  await settings <- getSettings h ;;
  let keySource :=
    match mode settings with
    | BYOK => userKey settings
    | _ => Some (js "central")
    end in
  let currentSettingsKey :=
    settingsKey (mode settings) (consent settings) keySource in
  await hit <- ask (cache_hit currentSettingsKey) ;;
  match hit with
  | Some inst => ret inst
  | None =>
      await resolved <-
        match mode settings with
        | PRO | FREE_AD_SUPPORTED =>
            await k <- getCentralApiKey h ;; ret (Some k)
        | BYOK => ret (userKey settings)
        end ;;
      let finalSettingsKey :=
        settingsKey (mode settings) (consent settings) resolved in
      await hit2 <- ask (cache_hit finalSettingsKey) ;;
      match hit2 with
      | Some inst => ret inst
      | None =>
          await aiInstance <-
            match mode settings with
            | PRO =>
                if truthy_str resolved
                then ret {| client_apiKey := render_opt resolved |}
                else throw (AppErr CONFIG_FETCH_FAILED
                  (js "Central API Key could not be fetched for the PRO service."))
            | FREE_AD_SUPPORTED =>
                if negb (consent settings)
                then throw (ConsentRequiredError
                  (js "For the free service, consent is required. Please enable it in the extension's options."))
                else if truthy_str resolved
                then ret {| client_apiKey := render_opt resolved |}
                else throw (AppErr CONFIG_FETCH_FAILED
                  (js "Central API Key could not be fetched for the free service."))
            | BYOK =>
                if truthy_str resolved
                then ret {| client_apiKey := render_opt resolved |}
                else throw (ApiKeyError
                  (js "API Key not found. Please set it in the extension options."))
            end ;;
          exec effect (set_cache (Some aiInstance) (Some finalSettingsKey)) ;;
          ret aiInstance
      end
  end.

(** [gemini.models.generateContent(...)], reduced to the text of the
    response; the code reads [response.text] as a string. *)
Definition generateContent (h : Host) (gemini : GoogleGenAI)
    (contents : jsstring) : M jsstring :=
  fun w =>
    let w' := log (EvGenerateContent (client_apiKey gemini) contents) w in
    match models_generateContent h (trace w) (client_apiKey gemini) contents with
    | inl f => (Throw (foreign f), w')
    | inr text => (Ok text, w')
    end.

Definition findAcceptButtonSelector (h : Host) (html : jsstring)
  : M (option jsstring) :=
  exec effect (log EvAnalysisGateway) ;;
  let prompt :=
    FIND_ACCEPT_BUTTON_PROMPT h ++ [newline] ++ substring0 30000 html in
  try_catch
    (await gemini <- getAiInstance h ;;
     await text <- generateContent h gemini prompt ;;
     let jsonStr := stripFence text in
     match JSON_parse jsonStr with
     | Some parsed => ret (valid_selector parsed)
     | None => throw (JsErr (host_syntaxErrorMessage h jsonStr))
     end)
    (fun error =>
       match error with
       | AppErr _ _ => throw error
       | JsErr msg =>
           if includes msg (js "API key not valid")
           then throw (ApiKeyError
             (js "Your Gemini API Key is invalid. Please check it in the settings."))
           else throw (AppErr GENERIC_ANALYSIS_ERROR
             (js "An unexpected error occurred during AI analysis."))
       | NonErr =>
           throw (AppErr GENERIC_ANALYSIS_ERROR
             (js "An unexpected error occurred during AI analysis."))
       end).

Definition testApiKey (h : Host) (candidate : jsstring) : M unit :=
  if negb (nonempty candidate)
  then throw (ApiKeyError (js "API Key cannot be empty."))
  else
    try_catch
      (let gemini := {| client_apiKey := candidate |} in
       exec generateContent h gemini (js "test") ;;
       ret tt)
      (fun _ => throw (ApiKeyError
         (js "This API Key appears to be invalid or lacks permissions."))).

(** ** analyticsService.ts *)

(** [fetch(API_URLS.ANALYTICS, { method: 'POST', ... })] *)
Definition fetch_ANALYTICS (h : Host) (body : AnalyticsBody) : M unit :=
  fun w =>
    if fetch_analytics_rejects h (trace w)
    then (Throw (JsErr (js "Failed to fetch")), log (EvFetchAnalytics body) w)
    else (Ok tt, log (EvFetchAnalytics body) w).

Definition sendEvent (h : Host) (event : jsstring) (payload : AnalyticsPayload)
  : M unit :=
  await settings <- getSettings h ;;
  if negb (bool_decide (mode settings = FREE_AD_SUPPORTED))
     || negb (consent settings)
  then ret tt
  else
    try_catch
      (await now <- ask (fun w => Date_now h (trace w)) ;;
       fetch_ANALYTICS h
         {| a_event := event;
            a_status := pl_status payload;
            a_url := pl_url payload;
            a_banner_html_context := pl_banner_html_context payload;
            a_selector := pl_selector payload;
            a_reason := pl_reason payload;
            a_timestamp := now |})
      (fun _ => ret tt).

Definition trackScanSuccess (h : Host) (u : jsstring) (selector : jsstring)
    (banner_html_context : option jsstring) : M unit :=
  sendEvent h (js "scan_result")
    {| pl_url := u; pl_banner_html_context := banner_html_context;
       pl_selector := Some selector; pl_reason := None;
       pl_status := js "success" |}.

Definition trackScanNotFound (h : Host) (u : jsstring)
    (banner_html_context : option jsstring) : M unit :=
  sendEvent h (js "scan_result")
    {| pl_url := u; pl_banner_html_context := banner_html_context;
       pl_selector := None; pl_reason := None;
       pl_status := js "not_found" |}.

Definition trackScanError (h : Host) (u : jsstring) (why : jsstring)
    (banner_html_context : option jsstring) : M unit :=
  sendEvent h (js "scan_result")
    {| pl_url := u; pl_banner_html_context := banner_html_context;
       pl_selector := None; pl_reason := Some why;
       pl_status := js "error" |}.

(** ** stateManager.ts *)

Definition getInitialState (u : jsstring) : StatusUpdatePayload :=
  {| status := IDLE; url := Some u; error := None |}.

(** [chrome.storage.session.set({ [sessionStateKey]: updatedState })] *)
Definition session_set_tab (h : Host) (tabId : Z) (st : StatusUpdatePayload)
  : M unit :=
  fun w =>
    match session_set_rejects h (trace w) with
    | Some f => (Throw (foreign f), log (EvSessionSetTab tabId st) w)
    | None =>
        (Ok tt, log (EvSessionSetTab tabId st)
                  (set_sessionTabs (<[tabId := st]> (sessionTabs w)) w))
    end.

(** [sendMessage({ type: STATUS_UPDATE, payload })] of chromePromise.ts. *)
Definition sendMessage_STATUS_UPDATE (h : Host) (st : StatusUpdatePayload)
  : M unit :=
  fun w =>
    match runtime_sendMessage_lastError h (trace w) with
    | Some msg => (Throw (JsErr msg), log (EvSendStatusUpdate st) w)
    | None => (Ok tt, log (EvSendStatusUpdate st) w)
    end.

Definition updateStatus (h : Host) (tabId : Z) (newStatus : StatusPatch)
  : M unit :=
  await currentState <-
    ask (fun w => default (getInitialState []) (tabStates w !! tabId)) ;;
  let updatedState := spread currentState newStatus in
  exec effect (fun w => set_tabStates (<[tabId := updatedState]> (tabStates w)) w) ;;
  exec session_set_tab h tabId updatedState ;;
  try_catch
    (sendMessage_STATUS_UPDATE h updatedState)
    (fun _ => ret tt).

(** The listener of [chrome.tabs.onUpdated]. *)
Definition onTabUpdated (tabId : Z) (loading : bool) : M unit :=
  if loading then
    effect (fun w =>
      log (EvSessionRemoveTab tabId)
        (set_sessionTabs (delete tabId (sessionTabs w))
           (set_tabStates (delete tabId (tabStates w)) w)))
  else ret tt.

(** The listener of [chrome.tabs.onRemoved]. *)
Definition onTabRemoved (tabId : Z) : M unit :=
  effect (fun w =>
    log (EvSessionRemoveTab tabId)
      (set_sessionTabs (delete tabId (sessionTabs w))
         (set_tabStates (delete tabId (tabStates w)) w))).

(** ** scanManager.ts *)

(** [chrome.scripting.executeScript] with [() => document.body.outerHTML],
    reduced to [injectionResults?.[0]?.result]. *)
Definition executeScript_outerHTML (h : Host) (tabId : Z)
  : M (option jsstring) :=
  fun w =>
    match scripting_outerHTML h (trace w) tabId with
    | inl f => (Throw (foreign f), log (EvExecuteScriptOuterHTML tabId) w)
    | inr r => (Ok r, log (EvExecuteScriptOuterHTML tabId) w)
    end.

(** [chrome.scripting.executeScript] with [clickerFunction], reduced to
    [clickResults?.[0]?.result]. *)
Definition executeScript_click (h : Host) (tabId : Z) (selector : jsstring)
  : M (option ClickResult) :=
  fun w =>
    match scripting_click h (trace w) tabId selector with
    | inl f => (Throw (foreign f), log (EvExecuteScriptClick tabId selector) w)
    | inr r => (Ok r, log (EvExecuteScriptClick tabId selector) w)
    end.

Definition patch_status (s : ScanStatus) : StatusPatch :=
  {| p_status := Some s; p_url := None; p_error := None |}.

(** The body of the [try] block after [html] has been assigned. *)
Definition scanSteps (h : Host) (tabId : Z) (tabUrl : jsstring)
    (html : option jsstring) : M unit :=
  if negb (truthy_str html)
  then throw (AppErr HTML_FETCH_FAILED (js "Failed to get page HTML."))
  else
    let html := render_opt html in
    exec updateStatus h tabId (patch_status ANALYZING) ;;
    await selector <- findAcceptButtonSelector h html ;;
    let bannerHtmlContext := substring0 30000 html in
    if truthy_str selector then
      let selector := render_opt selector in
      await result <- executeScript_click h tabId selector ;;
      match result with
      | Some r =>
          if success r then
            exec updateStatus h tabId (patch_status SUCCESS) ;;
            trackScanSuccess h tabUrl selector (Some bannerHtmlContext)
          else
            throw (AppErr CLICK_FAILED
                     (if nonempty (reason r) then reason r
                      else js "Click failed for an unknown reason."))
      | None =>
          throw (AppErr CLICK_FAILED (js "Click failed for an unknown reason."))
      end
    else
      exec updateStatus h tabId (patch_status NOT_FOUND) ;;
      trackScanNotFound h tabUrl (Some bannerHtmlContext).

(** The [catch] block; [html] is the value of the local variable when the
    error was thrown. *)
Definition scanFailed (h : Host) (tabId : Z) (tabUrl : jsstring)
    (html : option jsstring) (err : Thrown) : M unit :=
  let errorPayload :=
    match err with
    | AppErr c msg => {| code := c; message := msg |}
    | _ => {| code := GENERIC_ANALYSIS_ERROR;
              message := js "An unknown error occurred during the scan." |}
    end in
  exec updateStatus h tabId
    {| p_status := Some ERROR; p_url := None;
       p_error := Some (Some errorPayload) |} ;;
  trackScanError h tabUrl (message errorPayload)
    (if truthy_str html then Some (substring0 30000 (render_opt html))
     else None).

Definition executeScan (h : Host) (tabId : Z) (tabUrl : jsstring) : M unit :=
  fun w =>
    match executeScript_outerHTML h tabId w with
    | (Throw t, w') => scanFailed h tabId tabUrl None t w'
    | (Ok html, w') =>
        try_catch (scanSteps h tabId tabUrl html)
                  (scanFailed h tabId tabUrl html) w'
    end.

(** ** messageHandler.ts and chromePromise.ts *)

Definition truthy_id (i : option Z) : bool :=
  match i with Some n => negb (n =? 0)%Z | None => false end.

(** [chrome.tabs.query({ active: true, currentWindow: true })], reduced to
    [tabs[0]]. *)
Definition tabs_query (h : Host) : M (option Tab) :=
  fun w =>
    match tabs_query_active h (trace w) with
    | inl f => (Throw (foreign f), log EvTabsQuery w)
    | inr t => (Ok t, log EvTabsQuery w)
    end.

(** A call of an async function that is not awaited: its rejection does
    not reach the caller.  The call is run to its end at once, which is the
    schedule in which no other event is handled while the call is pending;
    [executeScan_among] gives the scan among other handlers. *)
Definition fire_and_forget (m : M unit) : M unit :=
  try_catch m (fun _ => ret tt).

Definition messageHandler (h : Host) (type : MessageType) (sender : option Tab)
  : M (option StatusUpdatePayload) :=
  match type with
  | MANUAL_SCAN_REQUEST =>
      await activeTab <- tabs_query h ;;
      match activeTab with
      | Some t =>
          if truthy_id (tab_id t) && truthy_str (tab_url t)
          then
            exec fire_and_forget
              (executeScan h (default 0%Z (tab_id t)) (render_opt (tab_url t))) ;;
            ret None
          else ret None
      | None => ret None
      end
  | GET_STATUS =>
      let tabId := sender ≫= tab_id in
      let tabUrl := sender ≫= tab_url in
      await resolved <-
        (if truthy_id tabId then ret (tabId, tabUrl)
         else
           await activeTab <- tabs_query h ;;
           ret (activeTab ≫= tab_id, activeTab ≫= tab_url)) ;;
      let '(tabId, tabUrl) := resolved in
      if truthy_id tabId then
        await stored <- ask (fun w => tabStates w !! default 0%Z tabId) ;;
        match stored with
        | Some st => ret (Some st)
        | None => ret (Some (getInitialState (default [] tabUrl)))
        end
      else ret (Some (getInitialState []))
  | OPEN_OPTIONS_PAGE =>
      exec effect (log EvOpenOptionsPage) ;;
      ret None
  | STATUS_UPDATE => ret None
  end.

(** [asyncMessageHandler(messageHandler)]: an error of the handler is
    logged and no response is sent. *)
Definition onMessage (h : Host) (type : MessageType) (sender : option Tab)
  : M (option StatusUpdatePayload) :=
  try_catch (messageHandler h type sender) (fun _ => ret None).

(** ** background.ts *)

(** The listener of [chrome.action.onClicked]. *)
Definition onActionClicked (h : Host) (tab : Tab) : M unit :=
  if truthy_id (tab_id tab) && truthy_str (tab_url tab) then
    let tabId := default 0%Z (tab_id tab) in
    exec updateStatus h tabId
      {| p_status := Some SCANNING; p_url := Some (tab_url tab);
         p_error := Some None |} ;;
    fire_and_forget (executeScan h tabId (render_opt (tab_url tab)))
  else ret tt.

(** The listener of [chrome.storage.onChanged]. *)
Definition onStorageChanged (changes : list jsstring) (areaName : jsstring)
  : M unit :=
  if bool_decide (areaName = js "sync") then
    let watchedKeys :=
      [STORAGE_KEYS.API_KEY; STORAGE_KEYS.OPERATING_MODE;
       STORAGE_KEYS.DATA_COLLECTION_CONSENT] in
    if existsb (fun k => bool_decide (k ∈ changes)) watchedKeys
    then resetAiInstanceCache
    else ret tt
  else ret tt.

(** ** The event loop

    The service worker reacts to browser events, one handler at a time.
    A save made by the options page changes chrome.storage.sync; chrome
    then reports the items whose value changed to the
    [chrome.storage.onChanged] listener.  A restart of the service worker
    loses the module state and keeps the storage areas.  A scan that a
    handler starts without await is run to its end with that handler (see
    [fire_and_forget]). *)

Inductive SaveRequest :=
| SaveOperatingMode (m : OperatingMode)
| SaveUserApiKey (k : jsstring)
| SaveConsent (c : bool).

Inductive Trigger :=
| ActionClicked (tab : Tab)
| MessageReceived (type : MessageType) (sender : option Tab)
| TabUpdated (tabId : Z) (loading : bool)
| TabRemoved (tabId : Z)
| SettingsSaved (r : SaveRequest)
| WorkerRestarted.

Definition save (h : Host) (r : SaveRequest) : M unit :=
  match r with
  | SaveOperatingMode m => saveOperatingMode h m
  | SaveUserApiKey k => saveUserApiKey h k
  | SaveConsent c => saveConsent h c
  end.

Definition changed_keys (old new : SyncStorage) : list jsstring :=
  (if bool_decide (operatingMode old = operatingMode new)
   then [] else [STORAGE_KEYS.OPERATING_MODE])
  ++ (if bool_decide (dataCollectionConsent old = dataCollectionConsent new)
      then [] else [STORAGE_KEYS.DATA_COLLECTION_CONSENT])
  ++ (if bool_decide (apiKey old = apiKey new)
      then [] else [STORAGE_KEYS.API_KEY]).

Definition restart (w : World) : World :=
  set_cache None None (set_tabStates ∅ w).

Definition dispatch (h : Host) (t : Trigger) (w : World) : World :=
  match t with
  | ActionClicked tab => snd (onActionClicked h tab w)
  | MessageReceived type sender => snd (onMessage h type sender w)
  | TabUpdated tabId loading => snd (onTabUpdated tabId loading w)
  | TabRemoved tabId => snd (onTabRemoved tabId w)
  | SettingsSaved r =>
      let w1 := snd (save h r w) in
      match changed_keys (syncStore w) (syncStore w1) with
      | [] => w1
      | changes => snd (onStorageChanged changes (js "sync") w1)
      end
  | WorkerRestarted => restart w
  end.

Definition run_triggers (h : Host) (ts : list Trigger) (w : World) : World :=
  fold_left (fun w t => dispatch h t w) ts w.

Inductive reachable (h : Host) : World -> Prop :=
| reachable_initial : reachable h initial
| reachable_step w t : reachable h w -> reachable h (dispatch h t w).

(** The settings a handler reads in world [w]. *)
Definition settings_of (h : Host) (w : World) : UserSettings :=
  readSettings h (syncStore w).

(** The calls made between two worlds of one run. *)
Definition calls_between (w w' : World) : list Event :=
  skipn (length (trace w)) (trace w').

(** ** A scan among other handlers

    executeScan is started without await (background.ts, line 39, and
    messageHandler.ts, line 28): the handler that starts it returns and the
    scan goes on, and whenever the scan waits at an await the service
    worker may handle other events.  [fire_and_forget] takes the schedule
    in which nothing else is handled while the scan is pending.  Here the
    click and its scan are given among the other handlers, from their own
    point of view: [others n] is what the other handlers have done to the
    state by the time the [n]-th await resumes, whether the awaited call
    resolved or rejected.  Await 0 is the one of the click handler, awaits
    1 to 8 are those of executeScan in the order of the source.  Of the
    calls awaited here only updateStatus reads or writes the state of a
    tab, and it does both before its own first await; so, for the state of
    a tab, what the others do while a call is pending is what they do when
    it returns. *)

Definition awaiting {A} (others : nat -> World -> World) (n : nat) (m : M A)
  : M A :=
  fun w => let (outcome, w') := m w in (outcome, others n w').

Definition scanSteps_among (others : nat -> World -> World) (h : Host)
    (tabId : Z) (tabUrl : jsstring) (html : option jsstring) : M unit :=
  if negb (truthy_str html)
  then throw (AppErr HTML_FETCH_FAILED (js "Failed to get page HTML."))
  else
    let html := render_opt html in
    exec awaiting others 2 (updateStatus h tabId (patch_status ANALYZING)) ;;
    await selector <- awaiting others 3 (findAcceptButtonSelector h html) ;;
    let bannerHtmlContext := substring0 30000 html in
    if truthy_str selector then
      let selector := render_opt selector in
      await result <- awaiting others 4 (executeScript_click h tabId selector) ;;
      match result with
      | Some r =>
          if success r then
            exec awaiting others 5
              (updateStatus h tabId (patch_status SUCCESS)) ;;
            awaiting others 6
              (trackScanSuccess h tabUrl selector (Some bannerHtmlContext))
          else
            throw (AppErr CLICK_FAILED
                     (if nonempty (reason r) then reason r
                      else js "Click failed for an unknown reason."))
      | None =>
          throw (AppErr CLICK_FAILED (js "Click failed for an unknown reason."))
      end
    else
      exec awaiting others 5 (updateStatus h tabId (patch_status NOT_FOUND)) ;;
      awaiting others 6 (trackScanNotFound h tabUrl (Some bannerHtmlContext)).

Definition scanFailed_among (others : nat -> World -> World) (h : Host)
    (tabId : Z) (tabUrl : jsstring) (html : option jsstring) (err : Thrown)
  : M unit :=
  let errorPayload :=
    match err with
    | AppErr c msg => {| code := c; message := msg |}
    | _ => {| code := GENERIC_ANALYSIS_ERROR;
              message := js "An unknown error occurred during the scan." |}
    end in
  exec awaiting others 7
    (updateStatus h tabId
       {| p_status := Some ERROR; p_url := None;
          p_error := Some (Some errorPayload) |}) ;;
  awaiting others 8
    (trackScanError h tabUrl (message errorPayload)
       (if truthy_str html then Some (substring0 30000 (render_opt html))
        else None)).

Definition executeScan_among (others : nat -> World -> World) (h : Host)
    (tabId : Z) (tabUrl : jsstring) : M unit :=
  fun w =>
    match awaiting others 1 (executeScript_outerHTML h tabId) w with
    | (Throw t, w') => scanFailed_among others h tabId tabUrl None t w'
    | (Ok html, w') =>
        try_catch (scanSteps_among others h tabId tabUrl html)
                  (scanFailed_among others h tabId tabUrl html) w'
    end.

(** The listener of [chrome.action.onClicked] and the scan it starts. *)
Definition onActionClicked_among (others : nat -> World -> World) (h : Host)
    (tab : Tab) : M unit :=
  if truthy_id (tab_id tab) && truthy_str (tab_url tab) then
    let tabId := default 0%Z (tab_id tab) in
    exec awaiting others 0
      (updateStatus h tabId
         {| p_status := Some SCANNING; p_url := Some (tab_url tab);
            p_error := Some None |}) ;;
    fire_and_forget (executeScan_among others h tabId (render_opt (tab_url tab)))
  else ret tt.

(** ** OptionsContext.tsx and options.tsx

    The provider of the options page holds the settings it read last and
    a status message.  A handler takes the state of the provider to the
    next one, in the monad of the calls it makes; a handler that rejects
    sets no state.  The outcome of a purchase is decided outside the
    extension and is an argument of the handler. *)

Module OptionsContext.

Record OptionsState := {
  settings : option UserSettings;
  statusMessage : jsstring
}.

(** [useState(null)] and [useState('')] *)
Definition initialState : OptionsState :=
  {| settings := None; statusMessage := [] |}.

Definition setSettings (s : UserSettings) (st : OptionsState) : OptionsState :=
  {| settings := Some s; statusMessage := statusMessage st |}.

(** [showStatus] sets the message and starts the timer whose callback is
    [statusTimeout]. *)
Definition showStatus (message : jsstring) (st : OptionsState) : OptionsState :=
  {| settings := settings st; statusMessage := message |}.

Definition statusTimeout (st : OptionsState) : OptionsState :=
  {| settings := settings st; statusMessage := [] |}.

(** The effect of the first render. *)
Definition mount (h : Host) (st : OptionsState) : M OptionsState :=
  await s <- getSettings h ;;
  ret (setSettings s st).

(** What [chrome.payments.buy] does with the two callbacks it is given. *)
Inductive Purchase :=
| NoPaymentsApi
| PurchaseSucceeded
| PurchaseFailed (error_message : option jsstring).

Definition handleUpgradeToPro (h : Host) (purchase : Purchase)
    (st : OptionsState) : M OptionsState :=
  match purchase with
  | PurchaseSucceeded =>
      exec saveOperatingMode h PRO ;;
      await s <- getSettings h ;;
      ret (showStatus (js "Upgrade successful! You are now a Pro user.")
             (setSettings s st))
  | PurchaseFailed error_message =>
      ret (showStatus
             (js "Upgrade failed: "
              ++ (if truthy_str error_message then render_opt error_message
                  else js "Please try again."))
             st)
  | NoPaymentsApi =>
      exec saveOperatingMode h PRO ;;
      (* the read is started, the message is shown, and the settings are
         set when the read resolves *)
      let shown := showStatus (js "Upgrade successful! (Simulated)") st in
      try_catch
        (await s <- getSettings h ;; ret (setSettings s shown))
        (fun _ => ret shown)
  end.

Definition handleModeChange (h : Host) (newMode : OperatingMode)
    (st : OptionsState) : M OptionsState :=
  if bool_decide (newMode = PRO)
     || bool_decide (mode <$> settings st = Some PRO)
  then ret st
  else
    exec saveOperatingMode h newMode ;;
    await s <- getSettings h ;;
    ret (showStatus
           (js "Switched to "
            ++ (if bool_decide (newMode = BYOK) then js "your own API key"
                else js "free")
            ++ js " mode.")
           (setSettings s st)).

Definition handleSaveKey (h : Host) (apiKey : jsstring)
    (st : OptionsState) : M OptionsState :=
  if negb (nonempty apiKey)
  then ret (showStatus (js "API Key cannot be empty.") st)
  else
    exec saveUserApiKey h apiKey ;;
    await s <- getSettings h ;;
    ret (showStatus (js "API Key saved successfully!") (setSettings s st)).

Record TestResult := { success : bool; message : jsstring }.

(** [error.message] of a caught value; a value that is not an Error is
    taken to have none. *)
Definition message_of (error : Thrown) : option jsstring :=
  match error with
  | AppErr _ msg => Some msg
  | JsErr msg => Some msg
  | NonErr => None
  end.

Definition handleTestKey (h : Host) (apiKey : jsstring) : M TestResult :=
  try_catch
    (exec testApiKey h apiKey ;;
     ret {| success := true;
            message := js "Success! This API key is valid." |})
    (fun error =>
       ret {| success := false;
              message :=
                if truthy_str (message_of error)
                then render_opt (message_of error)
                else js "An unknown error occurred." |}).

Definition handleConsentChange (h : Host) (isEnabled : bool)
    (st : OptionsState) : M OptionsState :=
  exec saveConsent h isEnabled ;;
  await s <- getSettings h ;;
  ret (showStatus (js "Data collection preferences updated.")
         (setSettings s st)).

End OptionsContext.

(** ** The events of the options page

    The page reacts to one event at a time.  Until the settings are
    loaded OptionsContent renders the loading text alone, so no control
    can be used.  A handler that rejects leaves the state of the provider
    as it was; what it stored stays stored, and chrome reports the items
    whose value changed to the listener of background.ts. *)

Inductive PageEvent :=
| Mounted
| ModeChosen (newMode : OperatingMode)
| SaveKeyClicked (apiKey : jsstring)
| ConsentToggled (isEnabled : bool)
| UpgradeClicked (purchase : OptionsContext.Purchase)
| StatusTimerFired.

Definition page_handler (h : Host) (e : PageEvent)
    (st : OptionsContext.OptionsState) : M OptionsContext.OptionsState :=
  match e with
  | Mounted => OptionsContext.mount h st
  | ModeChosen newMode => OptionsContext.handleModeChange h newMode st
  | SaveKeyClicked apiKey => OptionsContext.handleSaveKey h apiKey st
  | ConsentToggled isEnabled => OptionsContext.handleConsentChange h isEnabled st
  | UpgradeClicked purchase => OptionsContext.handleUpgradeToPro h purchase st
  | StatusTimerFired => ret (OptionsContext.statusTimeout st)
  end.

(** Whether the control behind an event is on the page. *)
Definition rendered (e : PageEvent) (st : OptionsContext.OptionsState) : bool :=
  match e with
  | Mounted | StatusTimerFired => true
  | _ => bool_decide (OptionsContext.settings st <> None)
  end.

(** The storage listener of the service worker, told what a page event
    changed in chrome.storage.sync. *)
Definition storage_changed (old new : World) : World :=
  match changed_keys (syncStore old) (syncStore new) with
  | [] => new
  | changes => snd (onStorageChanged changes (js "sync") new)
  end.

Definition page_step (h : Host) (e : PageEvent)
    (pw : OptionsContext.OptionsState * World)
  : OptionsContext.OptionsState * World :=
  let (st, w) := pw in
  if rendered e st then
    match page_handler h e st w with
    | (Ok st', w') => (st', storage_changed w w')
    | (Throw _, w') => (st, storage_changed w w')
    end
  else (st, w).

Definition run_page (h : Host) (es : list PageEvent)
    (pw : OptionsContext.OptionsState * World)
  : OptionsContext.OptionsState * World :=
  fold_left (fun pw e => page_step h e pw) es pw.

(** An upgrade that stores nothing: the purchase failed. *)
Definition no_purchase (e : PageEvent) : bool :=
  match e with
  | UpgradeClicked (OptionsContext.PurchaseFailed _) => true
  | UpgradeClicked _ => false
  | _ => true
  end.

(** * Specification vocabulary

    Relations between worlds, footprints of calls, the invariant of the
    credential cache, and the concrete hosts and worlds used as examples. *)

(** ** Relations between the worlds of a run *)

(** Every run of [m] relates the world it starts in to the world it ends
    in, whatever its outcome. *)
Definition respects {A} (R : World -> World -> Prop) (m : M A) : Prop :=
  forall w, R w (snd (m w)).

(** The credential cache is the same. *)
Definition same_cache (w w' : World) : Prop :=
  cachedAiInstance w' = cachedAiInstance w
  /\ cachedSettingsKey w' = cachedSettingsKey w.

(** The settings store is the same and every call made in between
    satisfies [p]. *)
Definition evolves (p : Event -> bool) (w w' : World) : Prop :=
  syncStore w' = syncStore w
  /\ exists l, trace w' = trace w ++ l /\ forallb p l = true.

(** [evolves p], and the credential cache is the same. *)
Definition quiet (p : Event -> bool) (w w' : World) : Prop :=
  same_cache w w' /\ evolves p w w'.

(** The in-memory tab states are the same. *)
Definition same_tabs (w w' : World) : Prop := tabStates w' = tabStates w.

(** Every failure of [m] throws a value that satisfies [P]. *)
Definition throws_only {A} (P : Thrown -> Prop) (m : M A) : Prop :=
  forall w t, fst (m w) = Throw t -> P t.

(** A thrown value that is not an AppError with a code other than [c]. *)
Definition app_code_only (c : ErrorCode) (t : Thrown) : Prop :=
  forall c' msg, t = AppErr c' msg -> c' = c.

(** ** Footprints: the calls a function may make *)

Definition any_call (e : Event) : bool := true.

(** getCentralApiKey: the session cache and the configuration server. *)
Definition central_calls (e : Event) : bool :=
  match e with
  | EvSessionGetCentral | EvSessionSetCentral _ | EvFetchConfig => true
  | _ => false
  end.

(** getAiInstance: the settings, and the calls of getCentralApiKey. *)
Definition client_calls (e : Event) : bool :=
  match e with
  | EvSyncGet => true
  | _ => central_calls e
  end.

(** findAcceptButtonSelector: its entry, the remote analysis, and the
    calls of getAiInstance. *)
Definition gateway_calls (e : Event) : bool :=
  match e with
  | EvAnalysisGateway | EvGenerateContent _ _ => true
  | _ => client_calls e
  end.

Definition is_analytics_post (e : Event) : bool :=
  match e with EvFetchAnalytics _ => true | _ => false end.

Definition not_analytics_post (e : Event) : bool := negb (is_analytics_post e).

(** The entry into findAcceptButtonSelector, or the remote analysis call. *)
Definition is_gateway_call (e : Event) : bool :=
  match e with
  | EvAnalysisGateway | EvGenerateContent _ _ => true
  | _ => false
  end.

Definition not_gateway_call (e : Event) : bool := negb (is_gateway_call e).

Definition is_config_fetch (e : Event) : bool :=
  match e with EvFetchConfig => true | _ => false end.

(** A call that writes or broadcasts a state whose status is Scanning. *)
Definition writes_scanning (e : Event) : bool :=
  match e with
  | EvSessionSetTab _ st | EvSendStatusUpdate st =>
      bool_decide (status st = SCANNING)
  | _ => false
  end.

Definition not_writes_scanning (e : Event) : bool := negb (writes_scanning e).

(** The events before the first write of a state of [tabId], and the
    state written. *)
Fixpoint first_status_update (tabId : Z) (l : list Event)
  : option (list Event * StatusUpdatePayload) :=
  match l with
  | [] => None
  | EvSessionSetTab t st :: rest =>
      if bool_decide (t = tabId) then Some ([], st)
      else match first_status_update tabId rest with
           | Some (before, s) => Some (EvSessionSetTab t st :: before, s)
           | None => None
           end
  | e :: rest =>
      match first_status_update tabId rest with
      | Some (before, s) => Some (e :: before, s)
      | None => None
      end
  end.

(** ** The analytics gate *)

(** The test of sendEvent, as the condition under which it posts. *)
Definition analytics_enabled (s : UserSettings) : bool :=
  bool_decide (mode s = FREE_AD_SUPPORTED) && consent s.

(** As long as analytics is disabled at the start, no call is a post. *)
Definition gated (h : Host) (w w' : World) : Prop :=
  analytics_enabled (settings_of h w) = false ->
  evolves not_analytics_post w w'.

(** ** The credential cache in reachable worlds

    A cached client was built under the settings now in the store: its
    signature is the one of the current tier and consent flag with a
    non-empty credential, which is the user's key under BYOK, and under the
    free tier consent is given. *)

Definition cache_inv (h : Host) (w : World) : Prop :=
  match cachedAiInstance w with
  | None => True
  | Some _ =>
      exists k,
        nonempty k = true
        /\ cachedSettingsKey w
           = Some (settingsKey (mode (settings_of h w))
                     (consent (settings_of h w)) (Some k))
        /\ (mode (settings_of h w) = BYOK -> userKey (settings_of h w) = Some k)
        /\ (mode (settings_of h w) = FREE_AD_SUPPORTED ->
            consent (settings_of h w) = true)
  end.

Definition keeps_inv (h : Host) (w w' : World) : Prop :=
  cache_inv h w -> cache_inv h w'.

(** ** The stored state of a tab *)

(** The stored state of a tab, if any, carries no error and is not Error. *)
Definition clean_tab (tabId : Z) (w : World) : Prop :=
  forall st, tabStates w !! tabId = Some st ->
             error st = None /\ status st <> ERROR.

Definition keeps_clean (tabId : Z) (w w' : World) : Prop :=
  clean_tab tabId w -> clean_tab tabId w'.

(** The stored state of a tab, if any, carries an error exactly when its
    status is Error. *)
Definition wf_tab (tabId : Z) (w : World) : Prop :=
  forall st, tabStates w !! tabId = Some st ->
             (is_Some (error st) <-> status st = ERROR).

(** ** Responses of the remote analysis *)

(** No run of white space at the head of [s] is followed by exactly the
    closing fence. *)
Definition no_close (s : jsstring) : Prop :=
  forall W R, s = W ++ R -> forallb is_space W = true -> R <> js "```".

(** The contents of the prompt sent by findAcceptButtonSelector. *)
Definition gateway_prompt (h : Host) (html : jsstring) : jsstring :=
  FIND_ACCEPT_BUTTON_PROMPT h ++ [newline] ++ substring0 30000 html.

(** What findAcceptButtonSelector makes of the text handed to JSON.parse. *)
Definition parse_outcome (h : Host) (jsonStr : jsstring)
  : Outcome (option jsstring) :=
  match JSON_parse jsonStr with
  | Some parsed => Ok (valid_selector parsed)
  | None =>
      if includes (host_syntaxErrorMessage h jsonStr) (js "API key not valid")
      then Throw (AppErr API_KEY_INVALID
             (js "Your Gemini API Key is invalid. Please check it in the settings."))
      else Throw (AppErr GENERIC_ANALYSIS_ERROR
             (js "An unexpected error occurred during AI analysis."))
  end.

(** What findAcceptButtonSelector makes of a response text. *)
Definition interpret_response (h : Host) (text : jsstring)
  : Outcome (option jsstring) :=
  parse_outcome h (stripFence text).

(** A body in a markdown code fence with a language tag. *)
Definition fenced (tag body : jsstring) : jsstring :=
  js "```" ++ tag ++ [newline] ++ body ++ [newline] ++ js "```".

Definition quote : N := 34.

(** The text [{"selector": null}]. *)
Definition selector_null_text : jsstring :=
  js "{" ++ [quote] ++ js "selector" ++ [quote] ++ js ": null}".

(** The text [{"selector":"#x"}]. *)
Definition selector_x_text : jsstring :=
  js "{" ++ [quote] ++ js "selector" ++ [quote] ++ js ":"
  ++ [quote] ++ js "#x" ++ [quote] ++ js "}".

(** The fenced text of the specification: three backticks and [json], a
    newline, [{"selector":"#x"}], a newline, three backticks. *)
Definition fenced_selector_text : jsstring :=
  fenced (js "json") selector_x_text.

(** The text [{"selector":"#ok"}]. *)
Definition selector_ok_text : jsstring :=
  js "{" ++ [quote] ++ js "selector" ++ [quote] ++ js ":"
  ++ [quote] ++ js "#ok" ++ [quote] ++ js "}".

(** The texts [{}] and [{"selector": 5}]. *)
Definition empty_object_text : jsstring := js "{}".
Definition selector_number_text : jsstring :=
  js "{" ++ [quote] ++ js "selector" ++ [quote] ++ js ": 5}".

(** ** Example hosts and worlds *)

Definition example_tab : Tab :=
  {| tab_id := Some 7%Z; tab_url := Some (js "https://example.com/") |}.

(** A host whose collaborators all answer: the page yields [html], the
    remote analysis answers [text], the click reports [click], the
    configuration server hands out a shared key, and no popup listens. *)
Definition example_host (html : option jsstring) (text : jsstring)
    (click : option ClickResult) : Host :=
  {| host_atob := fun s => Some s;
     host_btoa := fun s => Some s;
     host_syntaxErrorMessage := fun _ => js "Unexpected token";
     FIND_ACCEPT_BUTTON_PROMPT := js "HTML to analyze:";
     env_DEV := false;
     env_VITE_CENTRAL_API_KEY := None;
     sync_lastError := fun _ => None;
     session_get_lastError := fun _ => None;
     session_set_rejects := fun _ => None;
     Date_now := fun _ => 0%Z;
     fetch_config := fun _ =>
       FetchResponse true 200
         (Some (JObject [(js "apiKey", JString (js "shared-key"))]));
     fetch_analytics_rejects := fun _ => false;
     models_generateContent := fun _ _ _ => inr text;
     scripting_outerHTML := fun _ _ => inr html;
     scripting_click := fun _ _ _ => inr click;
     runtime_sendMessage_lastError := fun _ =>
       Some (js "Could not establish connection. Receiving end does not exist.");
     tabs_query_active := fun _ => inr (Some example_tab) |}.

Definition page_html : jsstring := js "<body><button id=ok>OK</button></body>".

Definition clicked : option ClickResult :=
  Some {| success := true; reason := [] |}.

(** The page answers, the analysis finds the button, the click succeeds. *)
Definition happy_host : Host := example_host (Some page_html) selector_ok_text clicked.

(** The page yields no markup. *)
Definition blank_host : Host := example_host None selector_ok_text clicked.

(** The options page has selected BYOK; no key is stored. *)
Definition fresh_byok (h : Host) : World :=
  dispatch h (SettingsSaved (SaveOperatingMode BYOK)) initial.

(** The options page has selected BYOK and saved a key. *)
Definition keyed_byok (h : Host) : World :=
  dispatch h (SettingsSaved (SaveUserApiKey (js "user-key")))
    (fresh_byok h).

(** ** The shared credential *)

(** The override of the development build is not in force. *)
Definition no_override (h : Host) : Prop :=
  env_DEV h && truthy_str (env_VITE_CENTRAL_API_KEY h) = false.

(** The entry of the session cache is younger than its time to live at
    the time [now]. *)
Definition fresh_at (now : Z) (e : ApiKeyCache) : Prop :=
  (now - timestamp e < CACHE_CONFIG.CENTRAL_API_KEY_TTL_MS)%Z.

(** ** Frames: what a call leaves as it was *)

(** Nothing but the trace of calls differs. *)
Definition only_trace (w w' : World) : Prop :=
  tabStates w' = tabStates w
  /\ cachedAiInstance w' = cachedAiInstance w
  /\ cachedSettingsKey w' = cachedSettingsKey w
  /\ syncStore w' = syncStore w
  /\ sessionTabs w' = sessionTabs w
  /\ sessionCentral w' = sessionCentral w.

(** The tab states, in memory and in the session store, are the same. *)
Definition same_tab_stores (w w' : World) : Prop :=
  tabStates w' = tabStates w /\ sessionTabs w' = sessionTabs w.

(** The session entry of the shared credential is the same. *)
Definition same_central (w w' : World) : Prop :=
  sessionCentral w' = sessionCentral w.

(** ** The session cache of the shared credential *)

(** The cached shared credential, if any, is not empty. *)
Definition session_inv (w : World) : Prop :=
  forall e, sessionCentral w = Some e -> nonempty (key e) = true.

Definition keeps_session (w w' : World) : Prop :=
  session_inv w -> session_inv w'.

(** ** The steps of getAiInstance *)

(** The key source of the early signature: the user's key under BYOK, the
    word [central] otherwise. *)
Definition keySource (s : UserSettings) : option jsstring :=
  match mode s with
  | BYOK => userKey s
  | _ => Some (js "central")
  end.

(** The first switch of getAiInstance: the credential of the tier. *)
Definition resolveKey (h : Host) (s : UserSettings) : M (option jsstring) :=
  match mode s with
  | PRO | FREE_AD_SUPPORTED => await k <- getCentralApiKey h ;; ret (Some k)
  | BYOK => ret (userKey s)
  end.

(** The second switch of getAiInstance: the client built from the resolved
    credential, or the error of the tier. *)
Definition validated (s : UserSettings) (resolved : option jsstring)
  : Outcome GoogleGenAI :=
  match mode s with
  | PRO =>
      if truthy_str resolved
      then Ok {| client_apiKey := render_opt resolved |}
      else Throw (AppErr CONFIG_FETCH_FAILED
        (js "Central API Key could not be fetched for the PRO service."))
  | FREE_AD_SUPPORTED =>
      if negb (consent s)
      then Throw (ConsentRequiredError
        (js "For the free service, consent is required. Please enable it in the extension's options."))
      else if truthy_str resolved
      then Ok {| client_apiKey := render_opt resolved |}
      else Throw (AppErr CONFIG_FETCH_FAILED
        (js "Central API Key could not be fetched for the free service."))
  | BYOK =>
      if truthy_str resolved
      then Ok {| client_apiKey := render_opt resolved |}
      else Throw (ApiKeyError
        (js "API Key not found. Please set it in the extension options."))
  end.

(** getAiInstance after a successful read of the settings [s], from the
    world [w0] in which the read has been made. *)
Definition clientFor (h : Host) (s : UserSettings) (w0 : World)
  : Outcome GoogleGenAI * World :=
  match cache_hit (settingsKey (mode s) (consent s) (keySource s)) w0 with
  | Some inst => (Ok inst, w0)
  | None =>
      match resolveKey h s w0 with
      | (Throw t, w1) => (Throw t, w1)
      | (Ok resolved, w1) =>
          let finalSettingsKey := settingsKey (mode s) (consent s) resolved in
          match cache_hit finalSettingsKey w1 with
          | Some inst => (Ok inst, w1)
          | None =>
              match validated s resolved with
              | Ok inst =>
                  (Ok inst, set_cache (Some inst) (Some finalSettingsKey) w1)
              | Throw t => (Throw t, w1)
              end
          end
      end
  end.

(** ** The cached client and its signature *)

(** The signature of a cached client ends in the credential of the
    client. *)
Definition client_inv (w : World) : Prop :=
  forall inst, cachedAiInstance w = Some inst ->
    exists m c,
      cachedSettingsKey w = Some (settingsKey m c (Some (client_apiKey inst))).

Definition keeps_client (w w' : World) : Prop :=
  client_inv w -> client_inv w'.

(** ** Error codes *)

(** A thrown value that is not an AppError with a code outside [cs]. *)
Definition app_codes (cs : list ErrorCode) (t : Thrown) : Prop :=
  forall c msg, t = AppErr c msg -> In c cs.

(** The codes with which getAiInstance can fail. *)
Definition client_codes : list ErrorCode :=
  [API_KEY_INVALID; CONSENT_REQUIRED; CONFIG_FETCH_FAILED].

(** The codes with which findAcceptButtonSelector can fail. *)
Definition analysis_codes : list ErrorCode :=
  GENERIC_ANALYSIS_ERROR :: client_codes.

(** The codes a scan can record in the state of a tab. *)
Definition scan_codes : list ErrorCode :=
  HTML_FETCH_FAILED :: CLICK_FAILED :: analysis_codes.

(** ** Analytics posts *)

Definition posts (l : list Event) : list Event :=
  List.filter is_analytics_post l.

(** ** The state of a tab *)

(** The state updateStatus writes for [tabId]: the stored state, or the
    initial one, with the keys of the patch laid over it. *)
Definition merged (tabId : Z) (patch : StatusPatch) (w : World)
  : StatusUpdatePayload :=
  spread (default (getInitialState []) (tabStates w !! tabId)) patch.

(** The url of the state of a tab, the empty string when the tab has no
    state. *)
Definition url_at (tabId : Z) (w : World) : option jsstring :=
  url (default (getInitialState []) (tabStates w !! tabId)).

Definition keeps_url (tabId : Z) (w w' : World) : Prop :=
  url_at tabId w' = url_at tabId w.

(** The states of the tabs other than [tabId] are the same, in memory and
    in the session store. *)
Definition other_tabs (tabId : Z) (w w' : World) : Prop :=
  forall t, t <> tabId ->
    tabStates w' !! t = tabStates w !! t
    /\ sessionTabs w' !! t = sessionTabs w !! t.

(** Every state held in memory is the one held in the session store. *)
Definition mirrored (w : World) : Prop :=
  forall tabId st, tabStates w !! tabId = Some st ->
                   sessionTabs w !! tabId = Some st.

Definition keeps_mirrored (w w' : World) : Prop := mirrored w -> mirrored w'.

(** The session store accepts every write. *)
Definition session_writable (h : Host) : Prop :=
  forall tr, session_set_rejects h tr = None.

(** The settings can always be read. *)
Definition settings_readable (h : Host) : Prop :=
  forall tr, sync_lastError h tr = None.

(** A status with which a scan can end. *)
Definition terminal (s : ScanStatus) : bool :=
  match s with
  | SUCCESS | NOT_FOUND | ERROR => true
  | _ => false
  end.

(** The calls of a scan of [tabId] at [tabUrl]: scripts are injected into
    that tab and states are written for that tab only, the prompt carries
    at most 30000 code units of the page, an analytics event is a scan
    result for [tabUrl] with at most 30000 code units of the page, and the
    settings are read but not written. *)
Definition scan_call (h : Host) (tabId : Z) (tabUrl : jsstring) (e : Event)
  : bool :=
  match e with
  | EvExecuteScriptOuterHTML t | EvExecuteScriptClick t _
  | EvSessionSetTab t _ => bool_decide (t = tabId)
  | EvGenerateContent _ contents =>
      (length contents
       <=? length (FIND_ACCEPT_BUTTON_PROMPT h) + 1 + N.to_nat 30000)%nat
  | EvFetchAnalytics b =>
      bool_decide (a_url b = tabUrl)
      && bool_decide (a_event b = js "scan_result")
      && (length (default [] (a_banner_html_context b)) <=? N.to_nat 30000)%nat
  | EvSendStatusUpdate _ | EvSyncGet | EvSessionGetCentral
  | EvSessionSetCentral _ | EvFetchConfig | EvAnalysisGateway => true
  | EvSyncSet | EvSessionRemoveTab _ | EvTabsQuery | EvOpenOptionsPage => false
  end.

(** Every call of a run of [m] but the last one is not an analytics post,
    and the run fails before it posts or ends with a run of sendEvent. *)
Definition posts_last (h : Host) (m : M unit) : Prop :=
  forall w, exists w',
    evolves not_analytics_post w w'
    /\ ((exists t, m w = (Throw t, w'))
        \/ (exists event payload, m w = sendEvent h event payload w')).

(** The message of a failed click: the reason the injected function
    reports, or a fixed text when it reports none. *)
Definition click_failure_message (r : option ClickResult) : jsstring :=
  match r with
  | Some c =>
      if nonempty (reason c) then reason c
      else js "Click failed for an unknown reason."
  | None => js "Click failed for an unknown reason."
  end.

(** The click reports a failure, or nothing at all. *)
Definition click_failed (r : option ClickResult) : bool :=
  match r with
  | Some c => negb (success c)
  | None => true
  end.

(** ** The state of one tab among other handlers *)

(** The in-memory state of the tab is the same. *)
Definition same_tab (tabId : Z) (w w' : World) : Prop :=
  tabStates w' !! tabId = tabStates w !! tabId.

(** Whatever the other handlers do, they leave the state of the tab. *)
Definition leave_tab (tabId : Z) (others : nat -> World -> World) : Prop :=
  forall n w, same_tab tabId w (others n w).

(** ** The stored mode and the options page *)

(** What one event of the page does to the stored mode and to the settings
    the page shows. *)
Definition mode_step (h : Host) (e : PageEvent)
    (st : OptionsContext.OptionsState) (w : World)
    (st' : OptionsContext.OptionsState) (w' : World) : Prop :=
  (operatingMode (syncStore w') = operatingMode (syncStore w)
   \/ (operatingMode (syncStore w') = Some PRO /\ no_purchase e = false)
   \/ (exists m s, e = ModeChosen m /\ m <> PRO
                   /\ operatingMode (syncStore w') = Some m
                   /\ OptionsContext.settings st = Some s /\ mode s <> PRO))
  /\ (OptionsContext.settings st' = OptionsContext.settings st
      \/ OptionsContext.settings st' = Some (settings_of h w')).

(** Once PRO is stored the page shows it whenever it shows settings. *)
Definition pro_shown (pw : OptionsContext.OptionsState * World) : Prop :=
  operatingMode (syncStore (snd pw)) = Some PRO
  /\ forall s, OptionsContext.settings (fst pw) = Some s -> mode s = PRO.

(** ** More example hosts and worlds *)

(** [h] with another configuration server. *)
Definition with_fetch_config (f : list Event -> FetchedConfig) (h : Host) : Host :=
  {| host_atob := host_atob h;
     host_btoa := host_btoa h;
     host_syntaxErrorMessage := host_syntaxErrorMessage h;
     FIND_ACCEPT_BUTTON_PROMPT := FIND_ACCEPT_BUTTON_PROMPT h;
     env_DEV := env_DEV h;
     env_VITE_CENTRAL_API_KEY := env_VITE_CENTRAL_API_KEY h;
     sync_lastError := sync_lastError h;
     session_get_lastError := session_get_lastError h;
     session_set_rejects := session_set_rejects h;
     Date_now := Date_now h;
     fetch_config := f;
     fetch_analytics_rejects := fetch_analytics_rejects h;
     models_generateContent := models_generateContent h;
     scripting_outerHTML := scripting_outerHTML h;
     scripting_click := scripting_click h;
     runtime_sendMessage_lastError := runtime_sendMessage_lastError h;
     tabs_query_active := tabs_query_active h |}.

(** The configuration server cannot be reached. *)
Definition offline_host : Host :=
  with_fetch_config (fun _ => FetchRejects (ForeignError (js "Failed to fetch")))
    happy_host.

(** The page answers and the analysis finds the button, but the button is
    hidden. *)
Definition hidden_button_host : Host :=
  example_host (Some page_html) selector_ok_text
    (Some {| success := false; reason := js "Element is not visible" |}).

(** The user of the free tier has given consent. *)
Definition consenting (h : Host) : World :=
  dispatch h (SettingsSaved (SaveConsent true)) initial.

(** [h] with another answer of chrome.storage.sync. *)
Definition with_sync_lastError (f : list Event -> option jsstring) (h : Host)
  : Host :=
  {| host_atob := host_atob h;
     host_btoa := host_btoa h;
     host_syntaxErrorMessage := host_syntaxErrorMessage h;
     FIND_ACCEPT_BUTTON_PROMPT := FIND_ACCEPT_BUTTON_PROMPT h;
     env_DEV := env_DEV h;
     env_VITE_CENTRAL_API_KEY := env_VITE_CENTRAL_API_KEY h;
     sync_lastError := f;
     session_get_lastError := session_get_lastError h;
     session_set_rejects := session_set_rejects h;
     Date_now := Date_now h;
     fetch_config := fetch_config h;
     fetch_analytics_rejects := fetch_analytics_rejects h;
     models_generateContent := models_generateContent h;
     scripting_outerHTML := scripting_outerHTML h;
     scripting_click := scripting_click h;
     runtime_sendMessage_lastError := runtime_sendMessage_lastError h;
     tabs_query_active := tabs_query_active h |}.

(** The third access to chrome.storage.sync fails: on a page that is
    opened and used for an upgrade at once, this is the read that follows
    the save of the upgrade. *)
Definition unread_upgrade_host : Host :=
  with_sync_lastError
    (fun tr => if (length tr =? 2)%nat then Some (js "Storage is not available.")
               else None)
    happy_host.

(** The options page has stored the upgrade to PRO. *)
Definition upgraded (h : Host) : World :=
  dispatch h (SettingsSaved (SaveOperatingMode PRO)) initial.

(** The action has been clicked on the example tab of a fresh install. *)
Definition after_click (h : Host) : World :=
  dispatch h (ActionClicked example_tab) initial.

(** The state in which that click leaves the tab: consent is missing. *)
Definition consent_error_state : StatusUpdatePayload :=
  {| status := ERROR; url := Some (js "https://example.com/");
     error := Some {| code := CONSENT_REQUIRED;
                      message := js "For the free service, consent is required. Please enable it in the extension's options." |} |}.

(** An earlier scan of the tab is still pending: its click fails, and its
    catch block runs while the later scan waits for its own click. *)
Definition earlier_scan_fails (h : Host) (tabId : Z) (tabUrl : jsstring)
  : nat -> World -> World :=
  fun n w =>
    if (n =? 4)%nat
    then snd (scanFailed h tabId tabUrl (Some page_html)
                (AppErr CLICK_FAILED (js "Element is not visible")) w)
    else w.

(** Another tab starts to load at every await. *)
Definition other_tab_loads (tabId : Z) : nat -> World -> World :=
  fun _ w => snd (onTabUpdated tabId true w).

(** Two scans were requested through the popup, the first without consent:
    the state of tab 7 is Success with the error of the first scan. *)
Definition routed_twice : World :=
  run_triggers happy_host
    [MessageReceived MANUAL_SCAN_REQUEST None;
     SettingsSaved (SaveConsent true);
     MessageReceived MANUAL_SCAN_REQUEST None] initial.

(** The state in which a click that succeeds leaves the example tab. *)
Definition skipped_state : StatusUpdatePayload :=
  {| status := SUCCESS; url := Some (js "https://example.com/");
     error := None |}.

(** * Properties *)

(** ** The fuel of the JSON parser is enough *)

Ltac list_assoc :=
  repeat (rewrite <- app_assoc || rewrite <- app_comm_cons); reflexivity.

Lemma skip_ws_length s : (length (skip_ws s) <= length s)%nat.
Proof.
  induction s as [| c r IH]; simpl; [lia |].
  destruct (is_json_ws c); simpl; lia.
Qed.

Lemma after_next_length c s :
  next_is c s = true -> (length (after_next s) < length s)%nat.
Proof.
  unfold next_is, after_next. pose proof (skip_ws_length s) as H.
  destruct (skip_ws s) as [| x t]; [discriminate |].
  simpl in *. intros _. rewrite drop_0. lia.
Qed.

Lemma lift_some {A B} (f : A -> B) o b r :
  lift f o = Some (b, r) -> exists a, o = Some (a, r) /\ b = f a.
Proof.
  destruct o as [[a r'] |]; simpl; [| discriminate].
  intros [= <- <-]. eauto.
Qed.

Lemma parse_chars_length s t r :
  parse_chars s = Some (t, r) -> (length r < length s)%nat.
Proof.
  remember (length s) as n eqn:Hn. revert s t r Hn.
  induction n as [n IH] using lt_wf_ind. intros s t r -> H.
  destruct s as [| c s1]; [discriminate |]. simpl in H.
  destruct (c =? 34).
  { injection H as <- <-. simpl. lia. }
  destruct (c =? 92).
  - destruct s1 as [| e s2]; [discriminate |].
    destruct (e =? 117).
    + destruct s2 as [| h1 [| h2 [| h3 [| h4 s6]]]]; try discriminate.
      destruct (hex4 h1 h2 h3 h4); [| discriminate].
      apply lift_some in H. destruct H as (a & H & _).
      eapply (IH (length s6)) in H; [| simpl; lia | reflexivity].
      simpl. lia.
    + destruct (simple_escape e); [| discriminate].
      apply lift_some in H. destruct H as (a & H & _).
      eapply (IH (length s2)) in H; [| simpl; lia | reflexivity].
      simpl. lia.
  - destruct (c <? 32); [discriminate |].
    apply lift_some in H. destruct H as (a & H & _).
    eapply (IH (length s1)) in H; [| simpl; lia | reflexivity].
    simpl. lia.
Qed.

Lemma take_digits_app s d r : take_digits s = (d, r) -> s = d ++ r.
Proof.
  revert d r. induction s as [| c s IH]; simpl; intros d r H.
  - injection H as <- <-. reflexivity.
  - destruct (is_digit c).
    + destruct (take_digits s) as [d' r'] eqn:E. injection H as <- <-.
      simpl. f_equal. apply IH. reflexivity.
    + injection H as <- <-. reflexivity.
Qed.

Lemma take_if_app p s a r : take_if p s = (a, r) -> s = a ++ r.
Proof.
  unfold take_if. destruct s as [| c s]; [intros [= <- <-]; reflexivity |].
  destruct (p c); intros [= <- <-]; reflexivity.
Qed.

Lemma take_fraction_app s f r : take_fraction s = Some (f, r) -> s = f ++ r.
Proof.
  unfold take_fraction. destruct (take_if (N.eqb 46) s) as [dot r0] eqn:E.
  apply take_if_app in E. destruct dot as [| c dot].
  - intros [= <- <-]. reflexivity.
  - destruct (take_digits r0) as [d r'] eqn:Ed. apply take_digits_app in Ed.
    destruct (nonempty d); [| discriminate]. intros [= <- <-].
    rewrite E, Ed. list_assoc.
Qed.

Lemma take_exponent_app s x r : take_exponent s = Some (x, r) -> s = x ++ r.
Proof.
  unfold take_exponent.
  destruct (take_if _ s) as [e r0] eqn:E. apply take_if_app in E.
  destruct e as [| c e].
  - intros [= <- <-]. reflexivity.
  - destruct (take_if _ r0) as [sg r1] eqn:Es. apply take_if_app in Es.
    destruct (take_digits r1) as [d r2] eqn:Ed. apply take_digits_app in Ed.
    destruct (nonempty d); [| discriminate]. intros [= <- <-].
    rewrite E, Es, Ed. list_assoc.
Qed.

(** A number token is a non-empty prefix of the input. *)
Lemma parse_number_app s n r :
  parse_number s = Some (n, r) -> s = n ++ r /\ n <> [].
Proof.
  unfold parse_number.
  destruct (take_if (N.eqb 45) s) as [sign s1] eqn:E1. apply take_if_app in E1.
  destruct (take_digits s1) as [int s2] eqn:E2. apply take_digits_app in E2.
  destruct int as [| d ds]; [discriminate |].
  destruct (_ && _); [discriminate |].
  destruct (take_fraction s2) as [[f s3] |] eqn:E3; [| discriminate].
  apply take_fraction_app in E3.
  destruct (take_exponent s3) as [[x s4] |] eqn:E4; [| discriminate].
  apply take_exponent_app in E4. intros [= <- <-]. split.
  - rewrite E1, E2, E3, E4. list_assoc.
  - destruct sign; discriminate.
Qed.

Lemma starts_with_length p s :
  starts_with p s = true -> (length p <= length s)%nat.
Proof.
  revert s. induction p as [| a p IH]; intros [| b s]; simpl;
    try lia; try discriminate.
  intros H. apply andb_true_iff in H. destruct H as [_ H].
  apply IH in H. lia.
Qed.

Lemma parse_scalar_length s v r :
  parse_scalar s = Some (v, r) -> (length r < length s)%nat.
Proof.
  unfold parse_scalar.
  destruct (starts_with (js "true") s) eqn:Ht.
  { apply starts_with_length in Ht. intros [= <- <-].
    rewrite length_drop. simpl in Ht. lia. }
  destruct (starts_with (js "false") s) eqn:Hf.
  { apply starts_with_length in Hf. intros [= <- <-].
    rewrite length_drop. simpl in Hf. lia. }
  destruct (starts_with (js "null") s) eqn:Hn.
  { apply starts_with_length in Hn. intros [= <- <-].
    rewrite length_drop. simpl in Hn. lia. }
  intros H. apply lift_some in H. destruct H as (n & H & _).
  apply parse_number_app in H. destruct H as [-> Hne].
  rewrite length_app. destruct n; [congruence | simpl; lia].
Qed.

Lemma parse_step_mono f f' :
  (forall s x, parse_value f s = Some x -> parse_value f' s = Some x) ->
  (forall s x, parse_elements f s = Some x -> parse_elements f' s = Some x) ->
  (forall s x, parse_members f s = Some x -> parse_members f' s = Some x) ->
  (forall s x, parse_value (S f) s = Some x -> parse_value (S f') s = Some x)
  /\ (forall s x, parse_elements (S f) s = Some x ->
                  parse_elements (S f') s = Some x)
  /\ (forall s x, parse_members (S f) s = Some x ->
                  parse_members (S f') s = Some x).
Proof.
  intros IHv IHe IHm. repeat split; intros s x; simpl.
  - destruct (skip_ws s) as [| c r]; [auto |].
    destruct (c =? 123).
    { destruct (next_is 125 r); [auto |].
      destruct (parse_members f r) as [[a r'] |] eqn:E; [| discriminate].
      rewrite (IHm _ _ E). auto. }
    destruct (c =? 91); [| auto].
    destruct (next_is 93 r); [auto |].
    destruct (parse_elements f r) as [[a r'] |] eqn:E; [| discriminate].
    rewrite (IHe _ _ E). auto.
  - destruct (parse_value f s) as [[v r] |] eqn:E; [| discriminate].
    rewrite (IHv _ _ E).
    destruct (next_is 44 r); [| auto].
    destruct (parse_elements f (after_next r)) as [[a r'] |] eqn:E2;
      [| discriminate].
    rewrite (IHe _ _ E2). auto.
  - destruct (next_is 34 s); [| auto].
    destruct (parse_chars (after_next s)) as [[name r1] |]; [| auto].
    destruct (next_is 58 r1); [| auto].
    destruct (parse_value f (after_next r1)) as [[v r2] |] eqn:E;
      [| discriminate].
    rewrite (IHv _ _ E).
    destruct (next_is 44 r2); [| auto].
    destruct (parse_members f (after_next r2)) as [[a r'] |] eqn:E2;
      [| discriminate].
    rewrite (IHm _ _ E2). auto.
Qed.

(** More fuel never changes a result. *)
Lemma parse_mono f :
  forall f', (f <= f')%nat ->
    (forall s x, parse_value f s = Some x -> parse_value f' s = Some x)
    /\ (forall s x, parse_elements f s = Some x -> parse_elements f' s = Some x)
    /\ (forall s x, parse_members f s = Some x -> parse_members f' s = Some x).
Proof.
  induction f as [| f IH]; intros f' Hle.
  - repeat split; intros s x; discriminate.
  - destruct f' as [| f'']; [lia |].
    assert (Hle' : (f <= f'')%nat) by lia.
    destruct (IH f'' Hle') as (Hv & He & Hm).
    apply parse_step_mono; assumption.
Qed.

Lemma parse_value_mono f f' s x :
  (f <= f')%nat -> parse_value f s = Some x -> parse_value f' s = Some x.
Proof. intros Hle. apply (parse_mono f f' Hle). Qed.

Lemma parse_elements_mono f f' s x :
  (f <= f')%nat -> parse_elements f s = Some x -> parse_elements f' s = Some x.
Proof. intros Hle. apply (parse_mono f f' Hle). Qed.

Lemma parse_members_mono f f' s x :
  (f <= f')%nat -> parse_members f s = Some x -> parse_members f' s = Some x.
Proof. intros Hle. apply (parse_mono f f' Hle). Qed.

(** A successful parse consumes input, and twice the number of characters
    consumed bounds the fuel it needs. *)
Lemma parse_bound f :
  (forall s v r, parse_value f s = Some (v, r) ->
     (length r < length s)%nat
     /\ parse_value (2 * (length s - length r) - 1) s = Some (v, r))
  /\ (forall s vs r, parse_elements f s = Some (vs, r) ->
        (length r < length s)%nat
        /\ parse_elements (2 * (length s - length r)) s = Some (vs, r))
  /\ (forall s ms r, parse_members f s = Some (ms, r) ->
        (length r < length s)%nat
        /\ parse_members (2 * (length s - length r)) s = Some (ms, r)).
Proof.
  induction f as [| f (IHv & IHe & IHm)].
  { repeat split; discriminate. }
  split; [| split].
  - (* values *)
    intros s v r H. simpl in H.
    pose proof (skip_ws_length s) as Hws.
    destruct (skip_ws s) as [| c r0] eqn:Es; [discriminate |].
    simpl in Hws.
    destruct (c =? 123) eqn:Eobj.
    { destruct (next_is 125 r0) eqn:Eclose.
      - injection H as <- <-.
        pose proof (after_next_length _ _ Eclose) as Hlt.
        split; [lia |].
        assert (Hf : exists k,
          (2 * (length s - length (after_next r0)) - 1 = S k)%nat)
          by (exists (2 * (length s - length (after_next r0)) - 2)%nat; lia).
        destruct Hf as (k & ->). simpl. rewrite Es, Eobj, Eclose. reflexivity.
      - apply lift_some in H. destruct H as (ms & H & ->).
        destruct (IHm _ _ _ H) as [Hlt Hfuel]. split; [lia |].
        assert (Hf : exists k,
          (2 * (length s - length r) - 1 = S k)%nat
          /\ (2 * (length r0 - length r) <= k)%nat)
          by (exists (2 * (length s - length r) - 2)%nat; lia).
        destruct Hf as (k & -> & Hk). simpl. rewrite Es, Eobj, Eclose.
        rewrite (parse_members_mono _ _ _ _ Hk Hfuel). reflexivity. }
    destruct (c =? 91) eqn:Earr.
    { destruct (next_is 93 r0) eqn:Eclose.
      - injection H as <- <-.
        pose proof (after_next_length _ _ Eclose) as Hlt.
        split; [lia |].
        assert (Hf : exists k,
          (2 * (length s - length (after_next r0)) - 1 = S k)%nat)
          by (exists (2 * (length s - length (after_next r0)) - 2)%nat; lia).
        destruct Hf as (k & ->). simpl.
        rewrite Es, Eobj, Earr, Eclose. reflexivity.
      - apply lift_some in H. destruct H as (vs & H & ->).
        destruct (IHe _ _ _ H) as [Hlt Hfuel]. split; [lia |].
        assert (Hf : exists k,
          (2 * (length s - length r) - 1 = S k)%nat
          /\ (2 * (length r0 - length r) <= k)%nat)
          by (exists (2 * (length s - length r) - 2)%nat; lia).
        destruct Hf as (k & -> & Hk). simpl. rewrite Es, Eobj, Earr, Eclose.
        rewrite (parse_elements_mono _ _ _ _ Hk Hfuel). reflexivity. }
    assert (Hlt : (length r < length s)%nat).
    { destruct (c =? 34).
      - apply lift_some in H. destruct H as (t & H & _).
        apply parse_chars_length in H. lia.
      - apply parse_scalar_length in H. simpl in H. lia. }
    split; [exact Hlt |].
    assert (Hf : exists k, (2 * (length s - length r) - 1 = S k)%nat)
      by (exists (2 * (length s - length r) - 2)%nat; lia).
    destruct Hf as (k & ->). simpl. rewrite Es, Eobj, Earr. exact H.
  - (* elements *)
    intros s vs r H. simpl in H.
    destruct (parse_value f s) as [[v r1] |] eqn:Ev; [| discriminate].
    destruct (IHv _ _ _ Ev) as [Hlt1 Hfuel1].
    destruct (next_is 44 r1) eqn:Ecomma.
    + apply lift_some in H. destruct H as (vs' & H & ->).
      destruct (IHe _ _ _ H) as [Hlt2 Hfuel2].
      pose proof (after_next_length _ _ Ecomma) as Hlt3.
      split; [lia |].
      assert (Hf : exists k,
        (2 * (length s - length r) = S k)%nat
        /\ (2 * (length s - length r1) - 1 <= k)%nat
        /\ (2 * (length (after_next r1) - length r) <= k)%nat)
        by (exists (2 * (length s - length r) - 1)%nat; lia).
      destruct Hf as (k & -> & Hk1 & Hk2). simpl.
      rewrite (parse_value_mono _ _ _ _ Hk1 Hfuel1), Ecomma.
      rewrite (parse_elements_mono _ _ _ _ Hk2 Hfuel2). reflexivity.
    + destruct (next_is 93 r1) eqn:Eclose; [| discriminate].
      injection H as <- <-.
      pose proof (after_next_length _ _ Eclose) as Hlt3.
      split; [lia |].
      assert (Hf : exists k,
        (2 * (length s - length (after_next r1)) = S k)%nat
        /\ (2 * (length s - length r1) - 1 <= k)%nat)
        by (exists (2 * (length s - length (after_next r1)) - 1)%nat; lia).
      destruct Hf as (k & -> & Hk1). simpl.
      rewrite (parse_value_mono _ _ _ _ Hk1 Hfuel1), Ecomma, Eclose.
      reflexivity.
  - (* members *)
    intros s ms r H. simpl in H.
    destruct (next_is 34 s) eqn:Equote; [| discriminate].
    pose proof (after_next_length _ _ Equote) as Hlt0.
    destruct (parse_chars (after_next s)) as [[name r1] |] eqn:Ename;
      [| discriminate].
    pose proof (parse_chars_length _ _ _ Ename) as Hlt1.
    destruct (next_is 58 r1) eqn:Ecolon; [| discriminate].
    pose proof (after_next_length _ _ Ecolon) as Hlt2.
    destruct (parse_value f (after_next r1)) as [[v r2] |] eqn:Ev;
      [| discriminate].
    destruct (IHv _ _ _ Ev) as [Hlt3 Hfuel1].
    destruct (next_is 44 r2) eqn:Ecomma.
    + apply lift_some in H. destruct H as (ms' & H & ->).
      destruct (IHm _ _ _ H) as [Hlt4 Hfuel2].
      pose proof (after_next_length _ _ Ecomma) as Hlt5.
      split; [lia |].
      assert (Hf : exists k,
        (2 * (length s - length r) = S k)%nat
        /\ (2 * (length (after_next r1) - length r2) - 1 <= k)%nat
        /\ (2 * (length (after_next r2) - length r) <= k)%nat)
        by (exists (2 * (length s - length r) - 1)%nat; lia).
      destruct Hf as (k & -> & Hk1 & Hk2). simpl.
      rewrite Equote, Ename, Ecolon.
      rewrite (parse_value_mono _ _ _ _ Hk1 Hfuel1), Ecomma.
      rewrite (parse_members_mono _ _ _ _ Hk2 Hfuel2). reflexivity.
    + destruct (next_is 125 r2) eqn:Eclose; [| discriminate].
      injection H as <- <-.
      pose proof (after_next_length _ _ Eclose) as Hlt5.
      split; [lia |].
      assert (Hf : exists k,
        (2 * (length s - length (after_next r2)) = S k)%nat
        /\ (2 * (length (after_next r1) - length r2) - 1 <= k)%nat)
        by (exists (2 * (length s - length (after_next r2)) - 1)%nat; lia).
      destruct Hf as (k & -> & Hk1). simpl.
      rewrite Equote, Ename, Ecolon.
      rewrite (parse_value_mono _ _ _ _ Hk1 Hfuel1), Ecomma, Eclose.
      reflexivity.
Qed.

(** The fuel given by [JSON.parse] is enough: a text that parses with some
    amount of fuel parses with the amount [JSON_parse] provides, to the
    same value. *)
Theorem JSON_parse_fuel_enough fuel s v r :
  parse_value fuel s = Some (v, r) -> skip_ws r = [] ->
  JSON_parse s = Some v.
Proof.
  intros H Hr. destruct (parse_bound fuel) as (Hv & _ & _).
  destruct (Hv _ _ _ H) as [Hlt Hfuel]. unfold JSON_parse.
  assert (Hle : (2 * (length s - length r) - 1 <= 2 * length s)%nat) by lia.
  rewrite (parse_value_mono _ _ _ _ Hle Hfuel), Hr. reflexivity.
Qed.

(** ** Stripping a fence *)

Lemma fence_close_exact input c k :
  rmatch fence_close input (js "```") c k = k [] c.
Proof. reflexivity. Qed.

Lemma fence_close_none input s c k :
  s <> js "```" -> rmatch fence_close input s c k = None.
Proof.
  intros Hne. unfold fence_close, rlit, backtick.
  destruct s as [| a [| b [| d [| e s]]]]; cbn [rmatch]; try reflexivity;
    repeat match goal with
           | |- context [96 =? ?x] =>
               destruct (N.eqb_spec 96 x); subst; cbn [rmatch]
           end;
    try reflexivity.
  exfalso. apply Hne. reflexivity.
Qed.

(** A greedy star over a class takes the whole run of the class when the
    rest of the pattern accepts what follows. *)
Lemma star_greedy_stop p input fuel a rest c k x :
  forallb p a = true ->
  match rest with y :: _ => p y = false | [] => True end ->
  (length a < fuel)%nat ->
  k rest c = Some x ->
  star_loop fuel [] (rmatch (RClass p) input) true (a ++ rest) c k = Some x.
Proof.
  revert fuel. induction a as [| y a IH]; intros fuel Ha Hrest Hf Hk;
    (destruct fuel as [| fuel]; [lia |]); simpl.
  - destruct rest as [| z rest]; simpl; [exact Hk |].
    rewrite Hrest. simpl. exact Hk.
  - simpl in Ha. apply andb_true_iff in Ha. destruct Ha as [Hy Ha].
    rewrite Hy.
    replace (length (a ++ rest) <? S (length (a ++ rest)))%nat with true
      by (symmetry; apply Nat.ltb_lt; lia).
    rewrite IH; [reflexivity | assumption | assumption | simpl in Hf; lia
                | assumption].
Qed.

(** A greedy star over a class fails when the rest of the pattern rejects
    what follows every run of the class it can take. *)
Lemma star_greedy_none p input fuel s c k :
  (forall W R c', s = W ++ R -> forallb p W = true -> k R c' = None) ->
  star_loop fuel [] (rmatch (RClass p) input) true s c k = None.
Proof.
  revert s c. induction fuel as [| fuel IH]; intros s c Hk; simpl.
  - apply (Hk [] s c); reflexivity.
  - assert (Hhere : k s c = None) by (apply (Hk [] s c); reflexivity).
    destruct s as [| y s]; simpl; [exact Hhere |].
    destruct (p y) eqn:Hy; simpl; [| exact Hhere].
    replace (length s <? S (length s))%nat with true
      by (symmetry; apply Nat.ltb_lt; lia).
    rewrite IH; [exact Hhere |].
    intros W R c' -> HW. apply (Hk (y :: W) R c'); [reflexivity |].
    simpl. rewrite Hy, HW. reflexivity.
Qed.

(** A lazy star over any character stops at the first position where the
    rest of the pattern accepts. *)
Lemma star_lazy_first input fuel pre post c k x :
  (length pre < fuel)%nat ->
  (forall i, (i < length pre)%nat -> k (skipn i pre ++ post) c = None) ->
  k post c = Some x ->
  star_loop fuel [] (rmatch (RClass any_char) input) false (pre ++ post) c k
  = Some x.
Proof.
  revert fuel. induction pre as [| y pre IH]; intros fuel Hf Hfail Hk;
    (destruct fuel as [| fuel]; [lia |]); simpl.
  - rewrite Hk. reflexivity.
  - assert (H0 : k (y :: pre ++ post) c = None)
      by (apply (Hfail 0%nat); simpl; lia).
    rewrite H0. simpl.
    replace (length (pre ++ post) <? S (length (pre ++ post)))%nat with true
      by (symmetry; apply Nat.ltb_lt; lia).
    apply IH; [simpl in Hf; lia | | exact Hk].
    intros i Hi. apply (Hfail (S i)). simpl. lia.
Qed.

Lemma rmatch_seq a b input s c k :
  rmatch (RSeq a b) input s c k
  = rmatch a input s c (fun s' c' => rmatch b input s' c' k).
Proof. reflexivity. Qed.

Lemma rmatch_star g a input s c k :
  rmatch (RStar g a) input s c k
  = star_loop (S (length s)) (groups_of a) (rmatch a input) g s c k.
Proof. reflexivity. Qed.

Lemma rmatch_opt a input s c k :
  rmatch (ROpt a) input s c k
  = or_else
      (rmatch a input s (reset_caps (groups_of a) c)
         (fun s' c' => if (length s' <? length s)%nat then k s' c' else None))
      (fun _ => k s c).
Proof. reflexivity. Qed.

Lemma rmatch_group i a input s c k :
  rmatch (RGroup i a) input s c k
  = rmatch a input s c
      (fun s' c' => k s' (set_cap i (Some (firstn (length s - length s') s)) c')).
Proof. reflexivity. Qed.

Lemma rmatch_class p input s c k :
  rmatch (RClass p) input s c k
  = match s with
    | x :: s' => if p x then k s' c else None
    | [] => None
    end.
Proof. reflexivity. Qed.

Lemma no_close_tail y s : is_space y = true -> no_close (y :: s) -> no_close s.
Proof.
  intros Hy H W R -> HW. apply (H (y :: W) R); [reflexivity |].
  simpl. rewrite Hy, HW. reflexivity.
Qed.

(** A character that is not white space, with more than the closing fence
    after it, rules the closing fence out. *)
Lemma no_close_middle u z v :
  is_space z = false -> (3 < length v)%nat -> no_close (u ++ z :: v).
Proof.
  intros Hz Hv W R E HW ->.
  assert (Hlen : (length u < length W)%nat).
  { apply (f_equal length) in E. rewrite !length_app in E. simpl in E. lia. }
  assert (Hin : W !! length u = Some z).
  { rewrite <- (lookup_app_l W (js "```")) by exact Hlen.
    rewrite <- E. apply list_lookup_middle. reflexivity. }
  apply forallb_forall with (x := z) in HW; [congruence |].
  apply list_elem_of_In, list_elem_of_lookup. eauto.
Qed.

Lemma spaces_close_none input s c k :
  no_close s ->
  rmatch (RSeq (RStar true (RClass is_space)) fence_close) input s c k = None.
Proof.
  intros Hs. rewrite rmatch_seq, rmatch_star. apply star_greedy_none.
  intros W R c' E HW. apply fence_close_none. exact (Hs W R E HW).
Qed.

Lemma spaces_close_some input W c k x :
  forallb is_space W = true ->
  k [] c = Some x ->
  rmatch (RSeq (RStar true (RClass is_space)) fence_close) input
    (W ++ js "```") c k = Some x.
Proof.
  intros HW Hk. rewrite rmatch_seq, rmatch_star.
  apply star_greedy_stop;
    [exact HW | reflexivity | rewrite length_app; simpl; lia |].
  rewrite fence_close_exact. exact Hk.
Qed.

Lemma fence_after_body_none input s c k :
  no_close s -> rmatch fence_after_body input s c k = None.
Proof.
  intros Hs. unfold fence_after_body. rewrite rmatch_seq, rmatch_opt.
  unfold or_else. cbv beta.
  rewrite (spaces_close_none input s c k Hs).
  destruct s as [| y s]; [reflexivity |].
  unfold rlit. rewrite rmatch_class.
  change (reset_caps (groups_of (RClass (N.eqb newline))) c) with c.
  destruct (N.eqb_spec newline y) as [<- |]; [| reflexivity].
  destruct (length s <? length (newline :: s))%nat; [| reflexivity].
  rewrite spaces_close_none; [reflexivity |].
  apply (no_close_tail newline); [reflexivity | exact Hs].
Qed.

Lemma fence_after_body_some input W c k x :
  forallb is_space W = true ->
  k [] c = Some x ->
  rmatch fence_after_body input (W ++ js "```") c k = Some x.
Proof.
  intros HW Hk. unfold fence_after_body. rewrite rmatch_seq, rmatch_opt.
  unfold or_else. cbv beta.
  rewrite (spaces_close_some input W c k x HW Hk).
  destruct W as [| y W].
  - reflexivity.
  - unfold rlit. simpl app. rewrite rmatch_class.
    change (reset_caps (groups_of (RClass (N.eqb newline))) c) with c.
    destruct (N.eqb_spec newline y) as [<- |]; [| reflexivity].
    replace (length (W ++ js "```") <? length (newline :: W ++ js "```"))%nat
      with true by (symmetry; apply Nat.ltb_lt; simpl; lia).
    simpl in HW. rewrite (spaces_close_some input W c k x); [reflexivity | | exact Hk].
    first [exact HW | apply andb_true_iff in HW; tauto].
Qed.

Lemma fence_body_some input core' z W c k x :
  is_space z = false ->
  forallb is_space W = true ->
  W <> [] ->
  k [] (set_cap 2 (Some (core' ++ [z])) c) = Some x ->
  rmatch fence_body input ((core' ++ [z]) ++ W ++ js "```") c k = Some x.
Proof.
  intros Hz HW Hne Hk. unfold fence_body.
  rewrite rmatch_seq, rmatch_group, rmatch_star.
  change (groups_of (RClass any_char)) with (@nil nat).
  apply star_lazy_first.
  - rewrite !length_app. simpl. lia.
  - intros i Hi. apply fence_after_body_none.
    rewrite length_app in Hi. simpl in Hi.
    rewrite drop_app_le by lia. rewrite <- app_assoc. simpl.
    apply no_close_middle; [exact Hz |].
    rewrite length_app. simpl. destruct W; [congruence | simpl; lia].
  - replace (length ((core' ++ [z]) ++ W ++ js "```")
             - length (W ++ js "```"))%nat
      with (length (core' ++ [z])) by (rewrite !length_app; simpl; lia).
    rewrite take_app_length.
    apply fence_after_body_some; assumption.
Qed.

(** What follows the opening fence: a language tag, white space, the body
    between surrounding white space, the closing fence.  Group 2 is the
    body without the surrounding white space. *)
Lemma fence_after_open_some input tag lead h core' z W c :
  forallb is_word tag = true ->
  forallb is_space lead = true ->
  is_space h = false ->
  is_space z = false ->
  forallb is_space W = true ->
  W <> [] ->
  forall core, core = core' ++ [z] -> hd_error core = Some h ->
  exists c',
    rmatch fence_after_open input
      (tag ++ newline :: lead ++ core ++ W ++ js "```") c (fun _ c0 => Some c0)
    = Some c'
    /\ c' 2%nat = Some core.
Proof.
  intros Htag Hlead Hh Hz HW Hne core Hcore Hhd.
  set (post := W ++ js "```").
  set (rest := newline :: lead ++ core ++ post).
  assert (Hrest : forall c0,
    rmatch (RSeq (RStar true (RClass is_space))
              (RSeq (ROpt (rlit newline)) fence_body)) input rest c0
      (fun _ c1 => Some c1)
    = Some (set_cap 2 (Some core) c0)).
  { intros c0. rewrite rmatch_seq, rmatch_star.
    change (groups_of (RClass is_space)) with (@nil nat).
    unfold rest.
    change (newline :: lead ++ core ++ post)
      with ((newline :: lead) ++ core ++ post).
    destruct core as [| h0 core0]; [discriminate |].
    injection Hhd as ->.
    apply star_greedy_stop.
    - simpl. exact Hlead.
    - exact Hh.
    - rewrite !length_app. simpl. lia.
    - rewrite rmatch_seq, rmatch_opt. unfold or_else. cbv beta.
      unfold rlit at 1. simpl app. rewrite rmatch_class.
      destruct (N.eqb_spec newline h) as [<- | _]; [discriminate |].
      change (h :: core0 ++ post) with ((h :: core0) ++ post).
      rewrite Hcore. unfold post.
      apply fence_body_some; try assumption. rewrite <- Hcore. reflexivity. }
  unfold fence_after_open. rewrite rmatch_seq, rmatch_opt.
  unfold or_else. cbv beta. rewrite rmatch_group, rmatch_star.
  change (groups_of (RClass is_word)) with (@nil nat).
  fold rest.
  destruct tag as [| t tag].
  - (* no tag: the star takes nothing, the optional group is skipped *)
    simpl app. rewrite star_greedy_none.
    + rewrite Hrest. eexists. split; [reflexivity |]. reflexivity.
    + intros Wd R c' E HWd. destruct Wd as [| w Wd].
      * simpl in E. subst R.
        rewrite Nat.sub_diag. cbv beta.
        rewrite Nat.ltb_irrefl. reflexivity.
      * exfalso. unfold rest in E. injection E as <- _. discriminate.
  - (* a tag: the star takes it whole *)
    rewrite (star_greedy_stop is_word input _ (t :: tag) rest _ _
               (set_cap 2 (Some core)
                  (set_cap 1 (Some (t :: tag))
                     (reset_caps
                        (groups_of (RGroup 1 (RStar true (RClass is_word))))
                        c)))).
    + eexists. split; [reflexivity |]. reflexivity.
    + exact Htag.
    + reflexivity.
    + rewrite length_app. simpl. lia.
    + cbv beta.
      replace (length rest <? length ((t :: tag) ++ rest))%nat with true
        by (symmetry; apply Nat.ltb_lt; rewrite length_app; simpl; lia).
      replace (length ((t :: tag) ++ rest) - length rest)%nat
        with (length (t :: tag)) by (rewrite length_app; lia).
      rewrite take_app_length. apply Hrest.
Qed.

(** *** Trimming *)

Lemma trim_start_spec s :
  exists lead, s = lead ++ trim_start s /\ forallb is_space lead = true.
Proof.
  induction s as [| y s (lead & E & H)]; simpl.
  - exists []. auto.
  - destruct (is_space y) eqn:Hy.
    + exists (y :: lead). simpl. rewrite Hy, H, <- E. auto.
    + exists []. auto.
Qed.

Lemma trim_start_head s :
  match trim_start s with y :: _ => is_space y = false | [] => True end.
Proof.
  induction s as [| y s IH]; simpl; [exact I |].
  destruct (is_space y) eqn:Hy; [exact IH | exact Hy].
Qed.

Lemma trim_start_id s :
  match s with y :: _ => is_space y = false | [] => True end ->
  trim_start s = s.
Proof. destruct s as [| y s]; simpl; [reflexivity | intros ->; reflexivity]. Qed.

Lemma forallb_rev {A} (p : A -> bool) l :
  forallb p l = true -> forallb p (rev l) = true.
Proof.
  rewrite !forallb_forall. intros H x Hx. apply H, in_rev. exact Hx.
Qed.

(** A string with no white space at either end is its own trim. *)
Lemma trim_id h core' z s :
  s = core' ++ [z] -> hd_error s = Some h ->
  is_space h = false -> is_space z = false ->
  trim s = s.
Proof.
  intros Hs Hhd Hh Hz. unfold trim.
  rewrite (trim_start_id s).
  - rewrite Hs, rev_app_distr. simpl. rewrite Hz. simpl.
    rewrite rev_involutive. reflexivity.
  - destruct s; [discriminate |]. injection Hhd as ->. exact Hh.
Qed.

(** A string is its trim between two runs of white space; a non-empty
    trim starts and ends with a character that is not white space. *)
Lemma trim_spec s :
  exists lead trail,
    s = lead ++ trim s ++ trail
    /\ forallb is_space lead = true
    /\ forallb is_space trail = true
    /\ (trim s <> [] ->
        exists h core' z,
          trim s = core' ++ [z] /\ hd_error (trim s) = Some h
          /\ is_space h = false /\ is_space z = false).
Proof.
  destruct (trim_start_spec s) as (lead & E1 & H1).
  destruct (trim_start_spec (rev (trim_start s))) as (l2 & E2 & H2).
  pose proof (trim_start_head s) as Hhead.
  pose proof (trim_start_head (rev (trim_start s))) as Hlast.
  assert (Et : trim_start s = trim s ++ rev l2).
  { unfold trim. rewrite <- rev_app_distr, <- E2, rev_involutive. reflexivity. }
  exists lead, (rev l2). repeat split.
  - rewrite <- Et. exact E1.
  - exact H1.
  - apply forallb_rev, H2.
  - intros Hne. unfold trim in *.
    destruct (trim_start (rev (trim_start s))) as [| z u] eqn:Eu;
      [simpl in Hne; congruence |].
    simpl in Et, Hne |- *.
    destruct (rev u ++ [z]) as [| h r] eqn:Er.
    { destruct (rev u); discriminate. }
    exists h, (rev u), z. rewrite <- Er. repeat split; try assumption.
    + rewrite Er. reflexivity.
    + rewrite Et in Hhead. simpl in Hhead. exact Hhead.
Qed.

(** A response made of an opening fence with any language tag, a newline,
    a body, a newline and the closing fence is stripped to the body without
    its surrounding white space, which is what is handed to JSON.parse. *)
Theorem stripFence_fenced tag body :
  forallb is_word tag = true ->
  trim body <> [] ->
  stripFence (js "```" ++ tag ++ [newline] ++ body ++ [newline] ++ js "```")
  = trim body.
Proof.
  intros Htag Hne.
  destruct (trim_spec body) as (lead & trail & Eb & Hlead & Htrail & Hends).
  destruct (Hends Hne) as (h & core' & z & Ecore & Hhd & Hh & Hz).
  set (core := trim body) in *.
  set (W := trail ++ [newline]).
  set (s := tag ++ newline :: lead ++ core ++ W ++ js "```").
  assert (Etext : js "```" ++ tag ++ [newline] ++ body ++ [newline] ++ js "```"
                  = backtick :: backtick :: backtick :: s).
  { unfold s, W. rewrite Eb. change (js "```") with [backtick; backtick; backtick].
    simpl. repeat (rewrite <- ?app_assoc; simpl). reflexivity. }
  rewrite Etext. set (text := backtick :: backtick :: backtick :: s).
  assert (Htrim : trim text = text).
  { apply (trim_id backtick
             (backtick :: backtick :: backtick
              :: tag ++ newline :: lead ++ core ++ W ++ [backtick; backtick])
             backtick); try reflexivity.
    unfold text, s. change (js "```") with [backtick; backtick; backtick].
    list_assoc. }
  assert (HW : forallb is_space W = true).
  { unfold W. rewrite forallb_app, Htrail. reflexivity. }
  assert (HWne : W <> []) by (unfold W; destruct trail; discriminate).
  destruct (fence_after_open_some text tag lead h core' z W no_caps
              Htag Hlead Hh Hz HW HWne core Ecore Hhd) as (c' & Hm & Hc').
  fold s in Hm.
  assert (Hmatch : regex_match fenceRegex text = Some c').
  { unfold regex_match. change (length text) with (S (S (S (length s)))).
    cbn [match_from]. unfold fenceRegex, rlit.
    rewrite rmatch_seq. cbn [rmatch].
    replace (length text =? length text)%nat with true
      by (symmetry; apply Nat.eqb_refl).
    unfold text at 1. cbv beta iota.
    replace (backtick =? backtick) with true by reflexivity.
    cbv beta iota. rewrite Hm. reflexivity. }
  unfold stripFence. rewrite Htrim, Hmatch, Hc'.
  destruct core as [| c0 core0] eqn:Ec; [congruence |].
  cbn [nonempty]. rewrite <- Ec in *.
  apply (trim_id h core' z); assumption.
Qed.

(** ** Relational reasoning about monadic code *)

Section Respects.
Context (R : World -> World -> Prop) `{!PreOrder R}.

Lemma respects_ret {A} (a : A) : respects R (ret a).
Proof. intros w. simpl. reflexivity. Qed.

Lemma respects_throw {A} (t : Thrown) : respects R (@throw A t).
Proof. intros w. simpl. reflexivity. Qed.

Lemma respects_ask {A} (f : World -> A) : respects R (ask f).
Proof. intros w. simpl. reflexivity. Qed.

Lemma respects_bind {A B} (m : M A) (k : A -> M B) :
  respects R m -> (forall a, respects R (k a)) -> respects R (bind m k).
Proof.
  intros Hm Hk w. unfold bind. specialize (Hm w).
  destruct (m w) as [[a | t] w']; simpl in *; [| exact Hm].
  etransitivity; [exact Hm | apply Hk].
Qed.

Lemma respects_try_catch {A} (m : M A) (handler : Thrown -> M A) :
  respects R m -> (forall t, respects R (handler t)) ->
  respects R (try_catch m handler).
Proof.
  intros Hm Hk w. unfold try_catch. specialize (Hm w).
  destruct (m w) as [[a | t] w']; simpl in *; [exact Hm |].
  etransitivity; [exact Hm | apply Hk].
Qed.

Lemma respects_effect (f : World -> World) :
  (forall w, R w (f w)) -> respects R (effect f).
Proof. intros Hf w. apply Hf. Qed.
End Respects.

(** Breaks a monadic program into its primitive calls. *)
Ltac respects_step :=
  lazymatch goal with
  | |- respects ?R (ret _) => apply (respects_ret R)
  | |- respects ?R (throw _) => apply (respects_throw R)
  | |- respects ?R (ask _) => apply (respects_ask R)
  | |- respects ?R (bind _ _) => apply (respects_bind R); [| intros ?]
  | |- respects ?R (try_catch _ _) =>
      apply (respects_try_catch R); [| intros ?]
  | |- respects _ (match ?x with _ => _ end) => destruct x
  | |- respects _ (let '(_, _) := ?x in _) => destruct x
  | |- respects _ (if ?b then _ else _) => destruct b
  end.

Ltac respects_walk := repeat respects_step.

(** ** The credential cache is touched by getAiInstance alone *)

#[local] Instance same_cache_preorder : PreOrder same_cache.
Proof.
  split.
  - intros w. split; reflexivity.
  - intros a b c [H1 H2] [H3 H4]. split; congruence.
Qed.

Lemma generateContent_same_cache h g c : respects same_cache (generateContent h g c).
Proof.
  intros w. unfold generateContent.
  destruct (models_generateContent _ _ _ _); split; reflexivity.
Qed.

(** C9. testApiKey leaves the credential cache as it found it: for every
    candidate key and whatever the remote service answers, the cached
    client and the cached signature after the call are those before it. *)
Theorem testApiKey_preserves_cache (h : Host) (candidate : jsstring) (w : World) :
  cachedAiInstance (snd (testApiKey h candidate w)) = cachedAiInstance w
  /\ cachedSettingsKey (snd (testApiKey h candidate w)) = cachedSettingsKey w.
Proof.
  assert (H : respects same_cache (testApiKey h candidate)).
  { unfold testApiKey. respects_walk. apply generateContent_same_cache. }
  exact (H w).
Qed.

(** ** Default settings *)

(** C10. When no operating mode is stored, getSettings answers with the
    free, consent-gated tier; the consent flag is the stored one coerced to
    a boolean, false when unset; and userKey is undefined when no key is
    stored. *)
Theorem getSettings_default_mode (h : Host) (w : World) :
  sync_lastError h (trace w) = None ->
  operatingMode (syncStore w) = None ->
  exists s,
    fst (getSettings h w) = Ok s
    /\ mode s = FREE_AD_SUPPORTED
    /\ consent s = default false (dataCollectionConsent (syncStore w))
    /\ (dataCollectionConsent (syncStore w) = None -> consent s = false)
    /\ (apiKey (syncStore w) = None -> userKey s = None).
Proof.
  intros Herr Hmode. exists (readSettings h (syncStore w)).
  unfold getSettings, readSettings. rewrite Herr, Hmode. simpl.
  repeat split.
  - intros ->. reflexivity.
  - intros ->. reflexivity.
Qed.

(** ** Footprints

    [evolves p] relates two worlds of a run when the settings store is the
    same and every call made in between satisfies [p]; [quiet p] adds that
    the credential cache is the same. *)

#[local] Instance evolves_preorder p : PreOrder (evolves p).
Proof.
  split.
  - intros w. split; [reflexivity |]. exists []. rewrite app_nil_r. auto.
  - intros a b c [S1 (l1 & T1 & F1)] [S2 (l2 & T2 & F2)].
    split; [congruence |]. exists (l1 ++ l2).
    rewrite T2, T1, <- app_assoc, forallb_app, F1, F2. auto.
Qed.

#[local] Instance quiet_preorder p : PreOrder (quiet p).
Proof.
  split.
  - intros w. split; reflexivity.
  - intros a b c [C1 E1] [C2 E2]. split; etransitivity; eassumption.
Qed.

Lemma respects_weaken {A} (R R' : World -> World -> Prop)
    (H : forall w w', R w w' -> R' w w') (m : M A) :
  respects R m -> respects R' m.
Proof. intros Hm w. apply H, Hm. Qed.

Lemma evolves_mono (p q : Event -> bool) w w' :
  (forall e, p e = true -> q e = true) -> evolves p w w' -> evolves q w w'.
Proof.
  intros Hpq [S (l & T & F)]. split; [exact S |]. exists l. split; [exact T |].
  rewrite forallb_forall in *. auto.
Qed.

Lemma quiet_evolves p w w' : quiet p w w' -> evolves p w w'.
Proof. intros [_ H]. exact H. Qed.

Lemma evolves_calls p w w' :
  evolves p w w' -> forallb p (calls_between w w') = true.
Proof.
  intros [_ (l & T & F)]. unfold calls_between.
  rewrite T, drop_app_length. exact F.
Qed.

(** One call that changes neither the cache nor the settings store. *)
Lemma quiet_one p e w w' :
  p e = true ->
  cachedAiInstance w' = cachedAiInstance w ->
  cachedSettingsKey w' = cachedSettingsKey w ->
  syncStore w' = syncStore w ->
  trace w' = trace w ++ [e] ->
  quiet p w w'.
Proof.
  intros Hp C1 C2 S T. repeat split; try assumption.
  exists [e]. split; [exact T |]. simpl. rewrite Hp. reflexivity.
Qed.

Ltac quiet_prim :=
  intros; intros ?;
  repeat match goal with
         | |- context [match ?x with _ => _ end] => destruct x
         end;
  solve [ eapply quiet_one; eauto; reflexivity | reflexivity ].

Section Primitives.
Context (h : Host) (p : Event -> bool).

Lemma getSettings_quiet :
  p EvSyncGet = true -> respects (quiet p) (getSettings h).
Proof. unfold getSettings. quiet_prim. Qed.

Lemma session_get_central_quiet :
  p EvSessionGetCentral = true -> respects (quiet p) (session_get_central h).
Proof. unfold session_get_central. quiet_prim. Qed.

Lemma session_set_central_quiet entry :
  p (EvSessionSetCentral entry) = true ->
  respects (quiet p) (session_set_central h entry).
Proof. unfold session_set_central. quiet_prim. Qed.

Lemma fetch_CONFIG_quiet :
  p EvFetchConfig = true -> respects (quiet p) (fetch_CONFIG h).
Proof. unfold fetch_CONFIG. quiet_prim. Qed.

Lemma read_apiKey_quiet config : respects (quiet p) (read_apiKey config).
Proof. unfold read_apiKey. destruct config; respects_step. Qed.

Lemma generateContent_quiet g c :
  p (EvGenerateContent (client_apiKey g) c) = true ->
  respects (quiet p) (generateContent h g c).
Proof. unfold generateContent. quiet_prim. Qed.

Lemma fetch_ANALYTICS_quiet body :
  p (EvFetchAnalytics body) = true ->
  respects (quiet p) (fetch_ANALYTICS h body).
Proof. unfold fetch_ANALYTICS. quiet_prim. Qed.

Lemma session_set_tab_quiet tabId st :
  p (EvSessionSetTab tabId st) = true ->
  respects (quiet p) (session_set_tab h tabId st).
Proof. unfold session_set_tab. quiet_prim. Qed.

Lemma sendMessage_quiet st :
  p (EvSendStatusUpdate st) = true ->
  respects (quiet p) (sendMessage_STATUS_UPDATE h st).
Proof. unfold sendMessage_STATUS_UPDATE. quiet_prim. Qed.

Lemma executeScript_outerHTML_quiet tabId :
  p (EvExecuteScriptOuterHTML tabId) = true ->
  respects (quiet p) (executeScript_outerHTML h tabId).
Proof. unfold executeScript_outerHTML. quiet_prim. Qed.

Lemma executeScript_click_quiet tabId sel :
  p (EvExecuteScriptClick tabId sel) = true ->
  respects (quiet p) (executeScript_click h tabId sel).
Proof. unfold executeScript_click. quiet_prim. Qed.

Lemma tabs_query_quiet :
  p EvTabsQuery = true -> respects (quiet p) (tabs_query h).
Proof. unfold tabs_query. quiet_prim. Qed.

Lemma set_tabStates_quiet f :
  respects (quiet p) (effect (fun w => set_tabStates (f w) w)).
Proof.
  intros w. repeat split. exists []. simpl. rewrite app_nil_r. auto.
Qed.

Lemma log_quiet e : p e = true -> respects (quiet p) (effect (log e)).
Proof. intros Hp w. eapply quiet_one; eauto. Qed.

Lemma updateStatus_quiet tabId patch :
  (forall st, p (EvSessionSetTab tabId st) = true) ->
  (forall st, p (EvSendStatusUpdate st) = true) ->
  respects (quiet p) (updateStatus h tabId patch).
Proof.
  intros H1 H2. unfold updateStatus. respects_walk.
  - apply set_tabStates_quiet.
  - apply session_set_tab_quiet, H1.
  - apply sendMessage_quiet, H2.
Qed.
End Primitives.

(** Solves [respects (quiet p) prim] for a primitive call, given that the
    calls of the enclosing function satisfy [p]. *)
Ltac prim Hp :=
  first
    [ apply getSettings_quiet | apply session_get_central_quiet
    | apply session_set_central_quiet | apply fetch_CONFIG_quiet
    | apply read_apiKey_quiet | apply generateContent_quiet
    | apply fetch_ANALYTICS_quiet | apply session_set_tab_quiet
    | apply sendMessage_quiet | apply executeScript_outerHTML_quiet
    | apply executeScript_click_quiet | apply tabs_query_quiet
    | apply set_tabStates_quiet | apply log_quiet
    | apply updateStatus_quiet; intros ];
  try (apply Hp; reflexivity).

Ltac prim_evolves Hp :=
  apply (respects_weaken (quiet _) (evolves _) (quiet_evolves _)); prim Hp.

Lemma getCentralApiKey_quiet h p :
  (forall e, central_calls e = true -> p e = true) ->
  respects (quiet p) (getCentralApiKey h).
Proof.
  intros Hp. unfold getCentralApiKey. respects_walk; prim Hp.
Qed.

Lemma getAiInstance_evolves h p :
  (forall e, client_calls e = true -> p e = true) ->
  respects (evolves p) (getAiInstance h).
Proof.
  intros Hp. unfold getAiInstance.
  respects_walk;
    try (prim_evolves Hp);
    try (apply (respects_weaken (quiet _) (evolves _) (quiet_evolves _)),
           getCentralApiKey_quiet; intros e He; apply Hp;
         destruct e; simpl in *; congruence).
  all: intros w; split; [reflexivity |]; exists []; simpl;
    rewrite app_nil_r; auto.
Qed.

Lemma findAcceptButtonSelector_evolves h p html :
  (forall e, gateway_calls e = true -> p e = true) ->
  respects (evolves p) (findAcceptButtonSelector h html).
Proof.
  intros Hp. unfold findAcceptButtonSelector.
  respects_walk; try (prim_evolves Hp).
  apply getAiInstance_evolves. intros e He. apply Hp.
  destruct e; simpl in *; congruence.
Qed.

(** ** The analytics sink is gated by tier and consent *)

Lemma sendEvent_disabled h event payload w :
  analytics_enabled (settings_of h w) = false ->
  snd (sendEvent h event payload w) = log EvSyncGet w.
Proof.
  unfold analytics_enabled, settings_of, sendEvent, bind, getSettings.
  intros Hoff. destruct (sync_lastError h (trace w)); [reflexivity |].
  destruct (bool_decide _), (consent _); simpl in *;
    try discriminate; reflexivity.
Qed.

#[local] Instance gated_preorder h : PreOrder (gated h).
Proof.
  split.
  - intros w _. reflexivity.
  - intros a b c Hab Hbc Hoff. specialize (Hab Hoff).
    etransitivity; [exact Hab |]. apply Hbc.
    unfold settings_of. destruct Hab as [-> _]. exact Hoff.
Qed.

Lemma evolves_gated h w w' : evolves not_analytics_post w w' -> gated h w w'.
Proof. intros H _. exact H. Qed.

Lemma sendEvent_gated h event payload : respects (gated h) (sendEvent h event payload).
Proof.
  intros w Hoff. rewrite sendEvent_disabled by exact Hoff.
  split; [reflexivity |]. exists [EvSyncGet]. auto.
Qed.

Ltac not_post_leaf :=
  apply (respects_weaken (evolves not_analytics_post) (gated _) (evolves_gated _));
  first
    [ apply findAcceptButtonSelector_evolves;
      intros e He; destruct e; try reflexivity; discriminate He
    | apply (respects_weaken (quiet _) (evolves _) (quiet_evolves _));
      first [ apply updateStatus_quiet; intros; reflexivity
            | apply executeScript_click_quiet; reflexivity
            | apply executeScript_outerHTML_quiet; reflexivity ] ].

Lemma scanFailed_gated h tabId tabUrl html err :
  respects (gated h) (scanFailed h tabId tabUrl html err).
Proof.
  unfold scanFailed, trackScanError.
  respects_walk; first [apply sendEvent_gated | not_post_leaf].
Qed.

Lemma scanSteps_gated h tabId tabUrl html :
  respects (gated h) (scanSteps h tabId tabUrl html).
Proof.
  unfold scanSteps, trackScanSuccess, trackScanNotFound.
  respects_walk; first [apply sendEvent_gated | not_post_leaf].
Qed.

Lemma executeScan_gated h tabId tabUrl :
  respects (gated h) (executeScan h tabId tabUrl).
Proof.
  intros w. unfold executeScan.
  assert (H0 : gated h w (snd (executeScript_outerHTML h tabId w))).
  { apply evolves_gated, quiet_evolves.
    apply executeScript_outerHTML_quiet. reflexivity. }
  destruct (executeScript_outerHTML h tabId w) as [[html | t] w1]; simpl in H0.
  - etransitivity; [exact H0 |].
    apply respects_try_catch;
      [typeclasses eauto | apply scanSteps_gated | intros; apply scanFailed_gated].
  - etransitivity; [exact H0 | apply scanFailed_gated].
Qed.

(** C7. The analytics sink is invoked only under the free, consent-gated
    tier with consent true.  Whenever the stored settings name another
    tier, or consent is not true, each of the three trackers (success,
    not found, error) does nothing but read the settings, and a whole
    scan makes no POST to the analytics endpoint. *)
Theorem analytics_never_posted_without_consent
    (h : Host) (w : World) (u sel why : jsstring) (ctx : option jsstring)
    (tabId : Z) :
  mode (settings_of h w) <> FREE_AD_SUPPORTED
  \/ consent (settings_of h w) = false ->
  snd (trackScanSuccess h u sel ctx w) = log EvSyncGet w
  /\ snd (trackScanNotFound h u ctx w) = log EvSyncGet w
  /\ snd (trackScanError h u why ctx w) = log EvSyncGet w
  /\ forallb not_analytics_post
       (calls_between w (snd (executeScan h tabId u w))) = true.
Proof.
  intros Hoff.
  assert (Hdis : analytics_enabled (settings_of h w) = false).
  { unfold analytics_enabled. destruct Hoff as [Hm | Hc].
    - rewrite bool_decide_eq_false_2 by exact Hm. reflexivity.
    - rewrite Hc. apply andb_false_r. }
  repeat split; try (apply sendEvent_disabled; exact Hdis).
  apply evolves_calls. exact (executeScan_gated h tabId u w Hdis).
Qed.

(** ** A scan without markup *)

Lemma sendEvent_quiet h p event payload :
  p EvSyncGet = true -> (forall b, p (EvFetchAnalytics b) = true) ->
  respects (quiet p) (sendEvent h event payload).
Proof.
  intros H1 H2. unfold sendEvent. respects_walk.
  - apply getSettings_quiet, H1.
  - apply fetch_ANALYTICS_quiet, H2.
Qed.

Lemma scanFailed_quiet h p tabId tabUrl html err :
  (forall e, is_gateway_call e = false -> p e = true) ->
  respects (quiet p) (scanFailed h tabId tabUrl html err).
Proof.
  intros Hp. unfold scanFailed, trackScanError. respects_walk.
  - apply updateStatus_quiet; intros; apply Hp; reflexivity.
  - apply sendEvent_quiet; intros; apply Hp; reflexivity.
Qed.

(** The in-memory entry written by updateStatus. *)
Lemma updateStatus_tabStates h tabId patch w :
  tabStates (snd (updateStatus h tabId patch w))
  = <[tabId := spread (default (getInitialState []) (tabStates w !! tabId)) patch]>
      (tabStates w).
Proof.
  unfold updateStatus, bind, try_catch, ask, effect, session_set_tab,
    sendMessage_STATUS_UPDATE. simpl.
  destruct (session_set_rejects h _); simpl; [reflexivity |].
  destruct (runtime_sendMessage_lastError h _); reflexivity.
Qed.

Lemma sendEvent_tabStates h event payload w :
  tabStates (snd (sendEvent h event payload w)) = tabStates w.
Proof.
  unfold sendEvent, bind, try_catch, getSettings, ask, fetch_ANALYTICS.
  destruct (sync_lastError h _); simpl; [reflexivity |].
  destruct (_ || _); simpl; [reflexivity |].
  destruct (fetch_analytics_rejects h _); reflexivity.
Qed.

Lemma scanFailed_tabStates h tabId tabUrl html err w :
  tabStates (snd (scanFailed h tabId tabUrl html err w)) !! tabId
  = Some (spread (default (getInitialState []) (tabStates w !! tabId))
            {| p_status := Some ERROR; p_url := None;
               p_error := Some (Some
                 match err with
                 | AppErr c msg => {| code := c; message := msg |}
                 | _ => {| code := GENERIC_ANALYSIS_ERROR;
                           message := js "An unknown error occurred during the scan." |}
                 end) |}).
Proof.
  unfold scanFailed, bind, trackScanError.
  match goal with
  | |- context [updateStatus h tabId ?patch w] =>
      pose proof (updateStatus_tabStates h tabId patch w) as Hu;
      destruct (updateStatus h tabId patch w) as [[[] | t] w1]
  end; simpl in Hu |- *.
  - rewrite sendEvent_tabStates, Hu. apply lookup_insert_eq.
  - rewrite Hu. apply lookup_insert_eq.
Qed.

(** C5. When the page-extraction step yields no markup (an absent result
    or the empty string), the scan leaves the tab in the Error state with
    code HtmlFetchFailed, and findAcceptButtonSelector is not entered and
    no remote analysis call is made during that scan. *)
Theorem scan_without_markup_fails_before_analysis
    (h : Host) (w : World) (tabId : Z) (tabUrl : jsstring)
    (html : option jsstring) :
  scripting_outerHTML h (trace w) tabId = inr html ->
  truthy_str html = false ->
  (exists st,
      tabStates (snd (executeScan h tabId tabUrl w)) !! tabId = Some st
      /\ status st = ERROR
      /\ error st = Some {| code := HTML_FETCH_FAILED;
                            message := js "Failed to get page HTML." |})
  /\ forallb not_gateway_call
       (calls_between w (snd (executeScan h tabId tabUrl w))) = true.
Proof.
  intros Hhtml Hempty.
  set (w1 := log (EvExecuteScriptOuterHTML tabId) w).
  set (err := AppErr HTML_FETCH_FAILED (js "Failed to get page HTML.")).
  assert (Hrun : executeScan h tabId tabUrl w
                 = scanFailed h tabId tabUrl html err w1).
  { unfold executeScan, executeScript_outerHTML. rewrite Hhtml.
    unfold try_catch, scanSteps. rewrite Hempty. reflexivity. }
  rewrite Hrun. split.
  - eexists. split; [apply scanFailed_tabStates |]. split; reflexivity.
  - apply evolves_calls. transitivity w1.
    + split; [reflexivity |]. exists [EvExecuteScriptOuterHTML tabId]. auto.
    + apply quiet_evolves, scanFailed_quiet.
      intros e He. unfold not_gateway_call. rewrite He. reflexivity.
Qed.

(** ** The credential cache in reachable worlds

    A cached client was built under the settings now in the store: its
    signature is the one of the current tier and consent flag with a
    non-empty credential, which is the user's key under BYOK, and under the
    free tier consent is given. *)

Lemma cache_inv_frame h w w' :
  cachedAiInstance w' = cachedAiInstance w ->
  cachedSettingsKey w' = cachedSettingsKey w ->
  syncStore w' = syncStore w ->
  cache_inv h w -> cache_inv h w'.
Proof.
  unfold cache_inv, settings_of. intros -> -> ->. auto.
Qed.

#[local] Instance keeps_inv_preorder h : PreOrder (keeps_inv h).
Proof.
  split.
  - intros w H. exact H.
  - intros a b c Hab Hbc H. auto.
Qed.

Lemma quiet_keeps_inv h p w w' : quiet p w w' -> keeps_inv h w w'.
Proof.
  intros [[C1 C2] [S _]] H. exact (cache_inv_frame h w w' C1 C2 S H).
Qed.

Lemma truthy_render (o : option jsstring) :
  truthy_str o = true -> o = Some (render_opt o) /\ nonempty (render_opt o) = true.
Proof. destruct o as [s |]; simpl; [auto | discriminate]. Qed.

Lemma cache_inv_set h w inst k :
  nonempty k = true ->
  (mode (settings_of h w) = BYOK -> userKey (settings_of h w) = Some k) ->
  (mode (settings_of h w) = FREE_AD_SUPPORTED ->
   consent (settings_of h w) = true) ->
  cache_inv h
    (set_cache (Some inst)
       (Some (settingsKey (mode (settings_of h w))
                (consent (settings_of h w)) (Some k))) w).
Proof.
  intros Hne Hbyok Hfree. unfold cache_inv.
  change (cachedAiInstance (set_cache _ _ w)) with (Some inst) at 1.
  cbv beta iota. exists k. auto.
Qed.

(** The second half of getAiInstance, after the credential is resolved. *)
Lemma getAiInstance_build_keeps_inv h (s : UserSettings) (m : OperatingMode)
    (resolved : option jsstring) (w1 : World) :
  settings_of h w1 = s ->
  mode s = m ->
  (m = BYOK -> resolved = userKey s) ->
  cache_inv h w1 ->
  cache_inv h
    (snd (bind
            (match m with
             | BYOK =>
                 if truthy_str resolved
                 then ret {| client_apiKey := render_opt resolved |}
                 else throw (ApiKeyError
                   (js "API Key not found. Please set it in the extension options."))
             | FREE_AD_SUPPORTED =>
                 if negb (consent s)
                 then throw (ConsentRequiredError
                   (js "For the free service, consent is required. Please enable it in the extension's options."))
                 else if truthy_str resolved
                 then ret {| client_apiKey := render_opt resolved |}
                 else throw (AppErr CONFIG_FETCH_FAILED
                   (js "Central API Key could not be fetched for the free service."))
             | PRO =>
                 if truthy_str resolved
                 then ret {| client_apiKey := render_opt resolved |}
                 else throw (AppErr CONFIG_FETCH_FAILED
                   (js "Central API Key could not be fetched for the PRO service."))
             end)
            (fun aiInstance =>
               bind (effect (set_cache (Some aiInstance)
                       (Some (settingsKey m (consent s) resolved))))
                    (fun _ => ret aiInstance)) w1)).
Proof.
  intros Hs Hm Hbyok H1.
  destruct resolved as [k |].
  - destruct (nonempty k) eqn:Hk.
    + destruct m, (consent s) eqn:Hc;
        cbv [truthy_str negb bind ret throw effect snd fst render_opt];
        rewrite ?Hk; try exact H1;
        rewrite <- ?Hm, <- ?Hc, <- Hs; apply cache_inv_set; try exact Hk;
        rewrite Hs, ?Hm, ?Hc; intros; try discriminate; auto.
      all: symmetry; apply Hbyok; reflexivity.
    + destruct m, (consent s);
        cbv [truthy_str negb bind ret throw effect snd fst render_opt];
        rewrite ?Hk; exact H1.
  - destruct m, (consent s);
      cbv [truthy_str negb bind ret throw effect snd fst]; exact H1.
Qed.

Lemma getAiInstance_keeps_inv h : respects (keeps_inv h) (getAiInstance h).
Proof.
  intros w Hinv. unfold getAiInstance, bind at 1, getSettings.
  destruct (sync_lastError h (trace w)); [exact Hinv |].
  fold (settings_of h w).
  remember (settings_of h w) as s eqn:Es.
  set (w0 := log EvSyncGet w).
  assert (H0 : cache_inv h w0) by exact Hinv.
  assert (Hs0 : settings_of h w0 = s) by (subst s; reflexivity).
  unfold bind at 1, ask at 1. cbv beta iota.
  destruct (cache_hit _ w0); [exact H0 |].
  assert (Hcentral :
    forall w1 (k : jsstring), quiet any_call w0 w1 ->
      cache_inv h w1 /\ settings_of h w1 = s).
  { intros w1 _ Hq. split; [eapply quiet_keeps_inv; eauto |].
    unfold settings_of in *. destruct Hq as [_ [-> _]]. exact Hs0. }
  unfold bind at 1.
  destruct (mode s) eqn:Hm.
  - unfold ret at 1. cbv beta iota. unfold bind at 1, ask at 1. cbv beta iota.
    destruct (cache_hit _ w0); [exact H0 |].
    exact (getAiInstance_build_keeps_inv h s BYOK (userKey s) w0 Hs0 Hm
             (fun _ => eq_refl) H0).
  - pose proof (getCentralApiKey_quiet h any_call (fun _ _ => eq_refl) w0) as Hq.
    unfold bind at 1.
    destruct (getCentralApiKey h w0) as [[k | t] w1]; simpl in Hq.
    + destruct (Hcentral w1 k Hq) as [H1 Hs1].
      unfold ret at 1. cbv beta iota. unfold bind at 1, ask at 1. cbv beta iota.
      destruct (cache_hit _ w1); [exact H1 |].
      refine (getAiInstance_build_keeps_inv h s _ (Some k) w1 Hs1 Hm _ H1).
      discriminate.
    + exact (proj1 (Hcentral w1 [] Hq)).
  - pose proof (getCentralApiKey_quiet h any_call (fun _ _ => eq_refl) w0) as Hq.
    unfold bind at 1.
    destruct (getCentralApiKey h w0) as [[k | t] w1]; simpl in Hq.
    + destruct (Hcentral w1 k Hq) as [H1 Hs1].
      unfold ret at 1. cbv beta iota. unfold bind at 1, ask at 1. cbv beta iota.
      destruct (cache_hit _ w1); [exact H1 |].
      refine (getAiInstance_build_keeps_inv h s _ (Some k) w1 Hs1 Hm _ H1).
      discriminate.
    + exact (proj1 (Hcentral w1 [] Hq)).
Qed.

Ltac inv_leaf :=
  first
    [ apply getAiInstance_keeps_inv
    | apply (respects_weaken (quiet any_call) (keeps_inv _) (quiet_keeps_inv _ _));
      first
        [ apply sendEvent_quiet; intros; reflexivity
        | let Hp := fresh in
          pose proof (fun (e : Event) (H : any_call e = true) => H) as Hp;
          prim Hp ] ].

Lemma findAcceptButtonSelector_keeps_inv h html :
  respects (keeps_inv h) (findAcceptButtonSelector h html).
Proof. unfold findAcceptButtonSelector. respects_walk; inv_leaf. Qed.

Lemma scanFailed_keeps_inv h tabId tabUrl html err :
  respects (keeps_inv h) (scanFailed h tabId tabUrl html err).
Proof. unfold scanFailed, trackScanError. respects_walk; inv_leaf. Qed.

Lemma scanSteps_keeps_inv h tabId tabUrl html :
  respects (keeps_inv h) (scanSteps h tabId tabUrl html).
Proof.
  unfold scanSteps, trackScanSuccess, trackScanNotFound.
  respects_walk;
    first [apply findAcceptButtonSelector_keeps_inv | inv_leaf].
Qed.

Lemma executeScan_keeps_inv h tabId tabUrl :
  respects (keeps_inv h) (executeScan h tabId tabUrl).
Proof.
  intros w. unfold executeScan.
  assert (H0 : keeps_inv h w (snd (executeScript_outerHTML h tabId w))).
  { eapply quiet_keeps_inv.
    apply (executeScript_outerHTML_quiet h any_call). reflexivity. }
  destruct (executeScript_outerHTML h tabId w) as [[html | t] w1]; simpl in H0.
  - etransitivity; [exact H0 |].
    apply respects_try_catch;
      [typeclasses eauto | apply scanSteps_keeps_inv
      | intros; apply scanFailed_keeps_inv].
  - etransitivity; [exact H0 | apply scanFailed_keeps_inv].
Qed.

Lemma onActionClicked_keeps_inv h tab :
  respects (keeps_inv h) (onActionClicked h tab).
Proof.
  unfold onActionClicked, fire_and_forget.
  respects_walk; first [apply executeScan_keeps_inv | inv_leaf].
Qed.

Lemma onMessage_keeps_inv h type sender :
  respects (keeps_inv h) (onMessage h type sender).
Proof.
  unfold onMessage, messageHandler, fire_and_forget.
  destruct type; respects_walk;
    first [apply executeScan_keeps_inv | inv_leaf].
Qed.

Lemma changed_keys_none (old new : SyncStorage) :
  changed_keys old new = [] -> old = new.
Proof.
  unfold changed_keys. destruct old, new; simpl.
  repeat case_bool_decide; simpl; try discriminate. intros _. congruence.
Qed.

Lemma changed_keys_watched (old new : SyncStorage) (w : World) :
  changed_keys old new <> [] ->
  snd (onStorageChanged (changed_keys old new) (js "sync") w)
  = set_cache None None w.
Proof.
  unfold changed_keys.
  repeat case_bool_decide; simpl; intros Hne;
    try (exfalso; apply Hne; reflexivity); reflexivity.
Qed.

Lemma save_frame h r w :
  cachedAiInstance (snd (save h r w)) = cachedAiInstance w
  /\ cachedSettingsKey (snd (save h r w)) = cachedSettingsKey w.
Proof.
  destruct r; unfold save, saveOperatingMode, saveUserApiKey, saveConsent,
    sync_set; destruct (sync_lastError h (trace w)); split; reflexivity.
Qed.

Lemma dispatch_keeps_inv h t w : cache_inv h w -> cache_inv h (dispatch h t w).
Proof.
  intros Hinv. destruct t as [tab | type sender | tabId loading | tabId | r |];
    unfold dispatch.
  - exact (onActionClicked_keeps_inv h tab w Hinv).
  - exact (onMessage_keeps_inv h type sender w Hinv).
  - unfold onTabUpdated. destruct loading; exact Hinv.
  - exact Hinv.
  - destruct (save_frame h r w) as [C1 C2].
    destruct (changed_keys (syncStore w) (syncStore (snd (save h r w))))
      as [| c cs] eqn:Hch.
    + apply changed_keys_none in Hch.
      exact (cache_inv_frame h w _ C1 C2 (eq_sym Hch) Hinv).
    + rewrite <- Hch, changed_keys_watched by (rewrite Hch; discriminate).
      exact I.
  - exact I.
Qed.

Theorem reachable_cache_inv h w : reachable h w -> cache_inv h w.
Proof.
  induction 1 as [| w t _ IH]; [exact I | apply dispatch_keeps_inv, IH].
Qed.

(** ** What a function can throw *)

Section Throws.
Context (P : Thrown -> Prop).

Lemma throws_ret {A} (a : A) : throws_only P (ret a).
Proof. intros w t. discriminate. Qed.

Lemma throws_ask {A} (f : World -> A) : throws_only P (ask f).
Proof. intros w t. discriminate. Qed.

Lemma throws_effect (f : World -> World) : throws_only P (effect f).
Proof. intros w t. discriminate. Qed.

Lemma throws_throw {A} (t : Thrown) : P t -> throws_only P (@throw A t).
Proof. intros Ht w t' [= <-]. exact Ht. Qed.

Lemma throws_bind {A B} (m : M A) (k : A -> M B) :
  throws_only P m -> (forall a, throws_only P (k a)) ->
  throws_only P (bind m k).
Proof.
  intros Hm Hk w t. unfold bind. specialize (Hm w).
  destruct (m w) as [[a | t'] w']; simpl in *.
  - apply Hk.
  - intros [= <-]. apply Hm. reflexivity.
Qed.

Lemma throws_try_catch {A} (Q : Thrown -> Prop) (m : M A)
    (handler : Thrown -> M A) :
  throws_only Q m -> (forall t, Q t -> throws_only P (handler t)) ->
  throws_only P (try_catch m handler).
Proof.
  intros Hm Hk w t. unfold try_catch. specialize (Hm w).
  destruct (m w) as [[a | t'] w']; simpl in *.
  - discriminate.
  - apply Hk, Hm. reflexivity.
Qed.
End Throws.

Ltac throws_step :=
  lazymatch goal with
  | |- throws_only _ (ret _) => apply throws_ret
  | |- throws_only _ (ask _) => apply throws_ask
  | |- throws_only _ (effect _) => apply throws_effect
  | |- throws_only _ (throw _) => apply throws_throw
  | |- throws_only _ (bind _ _) => apply throws_bind; [| intros ?]
  | |- throws_only _ (match ?x with _ => _ end) => destruct x
  | |- throws_only _ (let '(_, _) := ?x in _) => destruct x
  | |- throws_only _ (if ?b then _ else _) => destruct b
  end.

Lemma app_code_only_foreign c f : app_code_only c (foreign f).
Proof. destruct f; intros c' m'; discriminate. Qed.

Lemma any_throw_foreign {A} P (m : M A) :
  (forall f, P (foreign f)) ->
  (forall w, (exists a, fst (m w) = Ok a) \/ (exists f, fst (m w) = Throw (foreign f))) ->
  throws_only P m.
Proof.
  intros HP Hm w t Ht. destruct (Hm w) as [[a Ha] | [f Hf]]; [congruence |].
  rewrite Hf in Ht. injection Ht as <-. apply HP.
Qed.

(** Every failure of getCentralApiKey is a ConfigFetchFailed error. *)
Lemma getCentralApiKey_throws h :
  throws_only (fun t => exists msg, t = AppErr CONFIG_FETCH_FAILED msg)
    (getCentralApiKey h).
Proof.
  unfold getCentralApiKey.
  destruct (_ && _); [apply throws_ret |].
  apply throws_bind.
  { apply (throws_try_catch _ (fun _ => True)).
    - intros w t _. exact I.
    - intros t _. apply throws_ret. }
  intros [k |]; [apply throws_ret |].
  apply (throws_try_catch _ (app_code_only CONFIG_FETCH_FAILED)).
  - repeat throws_step;
      try (intros c' msg' [= <- _]; reflexivity);
      try (intros c' msg'; discriminate);
      try apply app_code_only_foreign.
    + apply any_throw_foreign; [apply app_code_only_foreign |].
      intros w. unfold fetch_CONFIG.
      destruct (fetch_config h (trace w)) as [f | ok st [b |]]; simpl; eauto.
    + unfold read_apiKey. repeat throws_step. intros c' m'. discriminate.
    + apply any_throw_foreign; [apply app_code_only_foreign |].
      intros w. unfold session_set_central.
      destruct (session_set_rejects h (trace w)); simpl; eauto.
  - intros t Ht. destruct t as [c m1 | m2 |].
    + apply throws_throw. rewrite (Ht c m1 eq_refl). eauto.
    + apply throws_throw. eauto.
    + apply throws_throw. eauto.
Qed.

(** ** Resolving the credential without a key or without consent *)

Lemma no_client_cached h w :
  cache_inv h w ->
  (mode (settings_of h w) = BYOK /\ truthy_str (userKey (settings_of h w)) = false)
  \/ (mode (settings_of h w) = FREE_AD_SUPPORTED
      /\ consent (settings_of h w) = false) ->
  cachedAiInstance w = None.
Proof.
  unfold cache_inv. destruct (cachedAiInstance w); [| reflexivity].
  intros (k & Hk & _ & Hbyok & Hfree) [[Hm Hu] | [Hm Hc]]; exfalso.
  - rewrite (Hbyok Hm) in Hu. simpl in Hu. congruence.
  - rewrite (Hfree Hm) in Hc. discriminate.
Qed.

Lemma cache_hit_cold k w : cachedAiInstance w = None -> cache_hit k w = None.
Proof. unfold cache_hit. intros ->. reflexivity. Qed.

(** C6. Under BYOK with an absent or empty user credential, in every
    reachable state of the service worker, getAiInstance fails with
    API_KEY_INVALID; the only call it makes is the read of the settings,
    so the remote configuration endpoint is not contacted. *)
Theorem byok_without_key_is_rejected_locally (h : Host) (w : World) :
  reachable h w ->
  sync_lastError h (trace w) = None ->
  mode (settings_of h w) = BYOK ->
  truthy_str (userKey (settings_of h w)) = false ->
  getAiInstance h w
  = (Throw (AppErr API_KEY_INVALID
              (js "API Key not found. Please set it in the extension options.")),
     log EvSyncGet w)
  /\ calls_between w (snd (getAiInstance h w)) = [EvSyncGet]
  /\ forallb (fun e => negb (is_config_fetch e))
       (calls_between w (snd (getAiInstance h w))) = true.
Proof.
  intros Hreach Herr Hm Hu.
  assert (Hcold : cachedAiInstance w = None).
  { apply (no_client_cached h); [apply reachable_cache_inv, Hreach | auto]. }
  assert (Hrun : getAiInstance h w
    = (Throw (AppErr API_KEY_INVALID
                (js "API Key not found. Please set it in the extension options.")),
       log EvSyncGet w)).
  { unfold getAiInstance, bind at 1, getSettings. rewrite Herr.
    fold (settings_of h w). rewrite Hm.
    unfold bind at 1, ask at 1. cbv beta iota.
    rewrite cache_hit_cold by exact Hcold.
    unfold bind at 1, ret at 1. cbv beta iota.
    unfold bind at 1, ask at 1. cbv beta iota.
    rewrite cache_hit_cold by exact Hcold.
    rewrite Hu. reflexivity. }
  rewrite Hrun. unfold calls_between. simpl.
  rewrite drop_app_length. auto.
Qed.

(** C1, as the code has it. Under the free tier with the consent flag
    absent or false, in every reachable state of the service worker,
    getAiInstance never returns a client and leaves the cache as it was.
    It first resolves the shared credential with getCentralApiKey, then
    fails: with ConsentRequired when the resolution succeeded, with the
    ConfigFetchFailed error of the resolution otherwise. *)
Theorem free_tier_without_consent_yields_no_client (h : Host) (w : World) :
  reachable h w ->
  sync_lastError h (trace w) = None ->
  mode (settings_of h w) = FREE_AD_SUPPORTED ->
  consent (settings_of h w) = false ->
  getAiInstance h w
  = match getCentralApiKey h (log EvSyncGet w) with
    | (Ok _, w1) =>
        (Throw (AppErr CONSENT_REQUIRED
           (js "For the free service, consent is required. Please enable it in the extension's options.")),
         w1)
    | (Throw t, w1) => (Throw t, w1)
    end
  /\ (exists c msg,
        fst (getAiInstance h w) = Throw (AppErr c msg)
        /\ (c = CONSENT_REQUIRED \/ c = CONFIG_FETCH_FAILED))
  /\ cachedAiInstance (snd (getAiInstance h w)) = cachedAiInstance w
  /\ cachedSettingsKey (snd (getAiInstance h w)) = cachedSettingsKey w.
Proof.
  intros Hreach Herr Hm Hc.
  assert (Hcold : cachedAiInstance w = None).
  { apply (no_client_cached h); [apply reachable_cache_inv, Hreach | auto]. }
  set (w0 := log EvSyncGet w).
  pose proof (getCentralApiKey_quiet h any_call (fun _ _ => eq_refl) w0) as Hq.
  pose proof (getCentralApiKey_throws h w0) as Ht.
  assert (Hrun : getAiInstance h w
    = match getCentralApiKey h w0 with
      | (Ok _, w1) =>
          (Throw (AppErr CONSENT_REQUIRED
             (js "For the free service, consent is required. Please enable it in the extension's options.")),
           w1)
      | (Throw t, w1) => (Throw t, w1)
      end).
  { unfold getAiInstance, bind at 1, getSettings. rewrite Herr.
    fold (settings_of h w). fold w0. rewrite Hm, Hc.
    unfold bind at 1, ask at 1. cbv beta iota.
    rewrite cache_hit_cold by exact Hcold.
    unfold bind at 1 2.
    destruct (getCentralApiKey h w0) as [[k | t] w1]; [| reflexivity].
    unfold ret at 1. cbv beta iota.
    unfold bind at 1, ask at 1. cbv beta iota.
    rewrite cache_hit_cold; [reflexivity |].
    destruct Hq as [[C1 _] _]. simpl in C1. rewrite C1. exact Hcold. }
  split; [exact Hrun |]. rewrite Hrun.
  destruct (getCentralApiKey h w0) as [[k | t] w1]; simpl in *.
  - destruct Hq as [[C1 C2] _]. repeat split; eauto.
  - destruct (Ht t eq_refl) as [msg ->].
    destruct Hq as [[C1 C2] _]. repeat split; eauto.
Qed.

(** ** The analysis gateway and the shape of the response *)

Lemma findAcceptButtonSelector_outcome h w html gemini w1 text :
  getAiInstance h (log EvAnalysisGateway w) = (Ok gemini, w1) ->
  models_generateContent h (trace w1) (client_apiKey gemini)
    (gateway_prompt h html) = inr text ->
  fst (findAcceptButtonSelector h html w) = interpret_response h text.
Proof.
  intros Hai Hgen.
  unfold findAcceptButtonSelector, bind at 1, effect at 1. cbv beta iota.
  unfold try_catch, bind at 1. rewrite Hai.
  unfold bind at 1, generateContent. fold (gateway_prompt h html).
  rewrite Hgen. unfold interpret_response, parse_outcome.
  destruct (JSON_parse (stripFence text)); [reflexivity |].
  unfold throw at 1. cbv beta iota.
  destruct (includes _ _); reflexivity.
Qed.

(** The selector test lets through exactly a non-empty string held by the
    [selector] field of an object. *)
Lemma valid_selector_some parsed sel :
  valid_selector parsed = Some sel <->
  exists fs, parsed = JObject fs
             /\ get_field (js "selector") fs = Some (JString sel)
             /\ sel <> [].
Proof.
  unfold valid_selector. split.
  - destruct parsed as [| | | | | fs]; try discriminate.
    destruct (get_field _ fs) as [[| | | s | |] |] eqn:Hf; try discriminate.
    destruct s; simpl; [discriminate |]. intros [= <-]. eauto.
  - intros (fs & -> & -> & Hne). destruct sel; [congruence | reflexivity].
Qed.

(** What findAcceptButtonSelector makes of the text of a response. Once a
    client is obtained and the remote call answers with a text, it fails
    only when the text, after fence stripping, is not parseable as JSON:
    then with GenericAnalysisError, unless the parser's message contains
    the phrase the catch block looks for.  Whenever the text
    parses it returns without error: the selector when the parsed value
    is an object whose selector field is a non-empty string, and null in
    every other case (explicit null, missing field, wrong type, empty
    string, or a value that is not an object).  For the body
    [{"selector": null}] it returns null. *)
Theorem findAcceptButtonSelector_soft_negative
    (h : Host) (w : World) (html : jsstring) (gemini : GoogleGenAI)
    (w1 : World) (text : jsstring) :
  getAiInstance h (log EvAnalysisGateway w) = (Ok gemini, w1) ->
  models_generateContent h (trace w1) (client_apiKey gemini)
    (gateway_prompt h html) = inr text ->
  (forall parsed,
      JSON_parse (stripFence text) = Some parsed ->
      fst (findAcceptButtonSelector h html w) = Ok (valid_selector parsed)
      /\ (forall sel, valid_selector parsed = Some sel <->
            exists fs, parsed = JObject fs
                       /\ get_field (js "selector") fs = Some (JString sel)
                       /\ sel <> []))
  /\ (JSON_parse (stripFence text) = None ->
      exists c msg,
        fst (findAcceptButtonSelector h html w) = Throw (AppErr c msg)
        /\ (c = GENERIC_ANALYSIS_ERROR \/ c = API_KEY_INVALID)
        /\ (includes (host_syntaxErrorMessage h (stripFence text))
              (js "API key not valid") = false ->
            c = GENERIC_ANALYSIS_ERROR))
  /\ (text = selector_null_text ->
      fst (findAcceptButtonSelector h html w) = Ok None).
Proof.
  intros Hai Hgen.
  rewrite (findAcceptButtonSelector_outcome h w html gemini w1 text Hai Hgen).
  unfold interpret_response, parse_outcome. split; [| split].
  - intros parsed ->. split; [reflexivity |].
    intros sel. apply valid_selector_some.
  - intros ->.
    destruct (includes _ _) eqn:Hinc; do 2 eexists;
      (split; [reflexivity | split; [auto | intros; congruence]]).
  - intros ->. reflexivity.
Qed.

(** C8. A markdown code fence around the JSON response is stripped before
    parsing.  When the remote call answers with a body wrapped in a fence
    (three backticks, any language tag, a newline, the body, a newline,
    three backticks), findAcceptButtonSelector hands the body, without its
    surrounding white space, to JSON.parse; for the fenced text of the
    specification, with tag [json] and body [{"selector":"#x"}], it
    returns the selector "#x". *)
Theorem findAcceptButtonSelector_strips_fence
    (h : Host) (w : World) (html : jsstring) (gemini : GoogleGenAI)
    (w1 : World) (tag body : jsstring) :
  getAiInstance h (log EvAnalysisGateway w) = (Ok gemini, w1) ->
  models_generateContent h (trace w1) (client_apiKey gemini)
    (gateway_prompt h html) = inr (fenced tag body) ->
  forallb is_word tag = true ->
  trim body <> [] ->
  stripFence (fenced tag body) = trim body
  /\ fst (findAcceptButtonSelector h html w) = parse_outcome h (trim body)
  /\ (tag = js "json" -> body = selector_x_text ->
      fst (findAcceptButtonSelector h html w) = Ok (Some (js "#x"))).
Proof.
  intros Hai Hgen Htag Hbody.
  rewrite (findAcceptButtonSelector_outcome h w html gemini w1 _ Hai Hgen).
  unfold interpret_response.
  rewrite (stripFence_fenced tag body Htag Hbody : stripFence (fenced tag body) = _).
  repeat split. intros _ ->. vm_compute. reflexivity.
Qed.

(** ** The state of a tab across a scan *)

#[local] Instance same_tabs_preorder : PreOrder same_tabs.
Proof.
  split.
  - intros w. reflexivity.
  - intros a b c H1 H2. unfold same_tabs in *. congruence.
Qed.

#[local] Instance keeps_clean_preorder tabId : PreOrder (keeps_clean tabId).
Proof.
  split.
  - intros w H. exact H.
  - intros a b c Hab Hbc H. auto.
Qed.

Lemma same_tabs_keeps_clean tabId w w' : same_tabs w w' -> keeps_clean tabId w w'.
Proof. unfold same_tabs, keeps_clean, clean_tab. intros ->. auto. Qed.

Ltac tabs_prim :=
  intros ?;
  repeat match goal with
         | |- context [match ?x with _ => _ end] => destruct x
         end;
  reflexivity.

Lemma getSettings_tabs h : respects same_tabs (getSettings h).
Proof. unfold getSettings. tabs_prim. Qed.

Lemma generateContent_tabs h g c : respects same_tabs (generateContent h g c).
Proof. unfold generateContent. tabs_prim. Qed.

Lemma executeScript_outerHTML_tabs h tabId :
  respects same_tabs (executeScript_outerHTML h tabId).
Proof. unfold executeScript_outerHTML. tabs_prim. Qed.

Lemma executeScript_click_tabs h tabId sel :
  respects same_tabs (executeScript_click h tabId sel).
Proof. unfold executeScript_click. tabs_prim. Qed.

Lemma getCentralApiKey_tabs h : respects same_tabs (getCentralApiKey h).
Proof.
  unfold getCentralApiKey. respects_walk;
    solve [ unfold session_get_central; tabs_prim
          | unfold session_set_central; tabs_prim
          | unfold fetch_CONFIG; tabs_prim
          | unfold read_apiKey; respects_walk ].
Qed.

Lemma getAiInstance_tabs h : respects same_tabs (getAiInstance h).
Proof.
  unfold getAiInstance. respects_walk;
    solve [ apply getSettings_tabs | apply getCentralApiKey_tabs
          | intros w; reflexivity ].
Qed.

Lemma findAcceptButtonSelector_tabs h html :
  respects same_tabs (findAcceptButtonSelector h html).
Proof.
  unfold findAcceptButtonSelector. respects_walk;
    solve [ apply getAiInstance_tabs | apply generateContent_tabs
          | intros w; reflexivity ].
Qed.

Lemma sendEvent_tabs h event payload : respects same_tabs (sendEvent h event payload).
Proof. intros w. apply sendEvent_tabStates. Qed.

Lemma updateStatus_keeps_clean h tabId s :
  s <> ERROR ->
  respects (keeps_clean tabId) (updateStatus h tabId (patch_status s)).
Proof.
  intros Hs w Hclean st. rewrite updateStatus_tabStates, lookup_insert_eq.
  intros [= <-]. unfold spread, patch_status. simpl. split; [| exact Hs].
  destruct (tabStates w !! tabId) as [cur |] eqn:E; simpl; [| reflexivity].
  apply (Hclean cur E).
Qed.

Ltac clean_leaf :=
  first
    [ apply updateStatus_keeps_clean; discriminate
    | apply (respects_weaken same_tabs (keeps_clean _) (same_tabs_keeps_clean _));
      first [ apply findAcceptButtonSelector_tabs | apply sendEvent_tabs
            | apply executeScript_click_tabs ] ].

Lemma scanSteps_keeps_clean h tabId tabUrl html :
  respects (keeps_clean tabId) (scanSteps h tabId tabUrl html).
Proof.
  unfold scanSteps, trackScanSuccess, trackScanNotFound.
  respects_walk; clean_leaf.
Qed.

Lemma scanFailed_wf h tabId tabUrl html err w :
  wf_tab tabId (snd (scanFailed h tabId tabUrl html err w)).
Proof.
  intros st. rewrite scanFailed_tabStates. intros [= <-]. simpl.
  split; [reflexivity | eauto].
Qed.

Lemma clean_tab_wf tabId w : clean_tab tabId w -> wf_tab tabId w.
Proof.
  intros Hclean st Hst. destruct (Hclean st Hst) as [-> Hne].
  split; [intros [x Hx]; discriminate | contradiction].
Qed.

(** A scan that starts from a state without an error ends in a state that
    carries an error exactly when its status is Error. *)
Lemma executeScan_wf h tabId tabUrl w :
  clean_tab tabId w -> wf_tab tabId (snd (executeScan h tabId tabUrl w)).
Proof.
  intros Hclean. unfold executeScan.
  pose proof (executeScript_outerHTML_tabs h tabId w) as H0.
  destruct (executeScript_outerHTML h tabId w) as [[html | t] w1]; simpl in H0.
  - assert (H1 : clean_tab tabId w1)
      by (eapply same_tabs_keeps_clean; eauto).
    unfold try_catch.
    pose proof (scanSteps_keeps_clean h tabId tabUrl html w1 H1) as H2.
    destruct (scanSteps h tabId tabUrl html w1) as [[[] | t] w2]; simpl in H2.
    + apply clean_tab_wf, H2.
    + apply scanFailed_wf.
  - apply scanFailed_wf.
Qed.

(** On the action-click path, whatever the state of the tab before, after
    the click handler has run, with its scan run to the end, the stored
    state of the tab carries an error exactly when its status is Error. *)
Theorem onActionClicked_wf h tab tabId w :
  tab_id tab = Some tabId ->
  truthy_id (tab_id tab) = true ->
  truthy_str (tab_url tab) = true ->
  wf_tab tabId (snd (onActionClicked h tab w)).
Proof.
  intros Hid Hid' Hurl. unfold onActionClicked. rewrite Hid', Hurl, Hid.
  simpl. unfold bind.
  match goal with
  | |- context [updateStatus h tabId ?patch w] =>
      pose proof (updateStatus_tabStates h tabId patch w) as Hu;
      destruct (updateStatus h tabId patch w) as [[[] | t] w1]
  end; simpl in Hu.
  - assert (H1 : clean_tab tabId w1).
    { intros st. rewrite Hu, lookup_insert_eq. intros [= <-].
      split; [reflexivity | discriminate]. }
    unfold fire_and_forget, try_catch.
    pose proof (executeScan_wf h tabId (render_opt (tab_url tab)) w1 H1) as H2.
    destruct (executeScan h tabId (render_opt (tab_url tab)) w1)
      as [[[] | t] w2]; exact H2.
  - apply clean_tab_wf. intros st. simpl. rewrite Hu, lookup_insert_eq.
    intros [= <-]. split; [reflexivity | discriminate].
Qed.

(** ** executeScan never writes Scanning *)

Lemma updateStatus_quiet_status h p tabId patch s :
  p_status patch = Some s ->
  (forall st, status st = s -> p (EvSessionSetTab tabId st) = true) ->
  (forall st, status st = s -> p (EvSendStatusUpdate st) = true) ->
  respects (quiet p) (updateStatus h tabId patch).
Proof.
  intros Hs H1 H2. unfold updateStatus. respects_walk.
  - apply set_tabStates_quiet.
  - apply session_set_tab_quiet, H1. unfold spread. rewrite Hs. reflexivity.
  - apply sendMessage_quiet, H2. unfold spread. rewrite Hs. reflexivity.
Qed.

Ltac no_scanning_leaf :=
  first
    [ apply findAcceptButtonSelector_evolves;
      intros e He; destruct e; try reflexivity; discriminate He
    | apply (respects_weaken (quiet _) (evolves _) (quiet_evolves _));
      first
        [ eapply updateStatus_quiet_status;
          [ reflexivity
          | intros st Hst; unfold not_writes_scanning; simpl; rewrite Hst;
            reflexivity .. ]
        | apply sendEvent_quiet; intros; reflexivity
        | apply executeScript_click_quiet; reflexivity ] ].

Lemma scanSteps_no_scanning h tabId tabUrl html :
  respects (evolves not_writes_scanning) (scanSteps h tabId tabUrl html).
Proof.
  unfold scanSteps, trackScanSuccess, trackScanNotFound.
  respects_walk; no_scanning_leaf.
Qed.

Lemma scanFailed_no_scanning h tabId tabUrl html err :
  respects (evolves not_writes_scanning) (scanFailed h tabId tabUrl html err).
Proof.
  unfold scanFailed, trackScanError. respects_walk; no_scanning_leaf.
Qed.

(** X28. Whatever the host, the state and the tab, the first call
    executeScan makes is the page extraction, and no state it writes or
    broadcasts has the status Scanning. *)
Theorem executeScan_never_writes_scanning h tabId tabUrl w :
  (exists l, calls_between w (snd (executeScan h tabId tabUrl w))
             = EvExecuteScriptOuterHTML tabId :: l)
  /\ forallb not_writes_scanning
       (calls_between w (snd (executeScan h tabId tabUrl w))) = true.
Proof.
  set (w1 := log (EvExecuteScriptOuterHTML tabId) w).
  assert (Hrest : evolves not_writes_scanning w1
                    (snd (executeScan h tabId tabUrl w))).
  { unfold executeScan, executeScript_outerHTML.
    destruct (scripting_outerHTML h (trace w) tabId) as [f | html].
    - apply scanFailed_no_scanning.
    - exact (respects_try_catch (evolves not_writes_scanning) _ _
               (scanSteps_no_scanning h tabId tabUrl html)
               (fun t => scanFailed_no_scanning h tabId tabUrl html t) w1). }
  destruct Hrest as [_ (l & Ht & Hl)]. unfold calls_between. rewrite Ht.
  unfold w1. simpl. rewrite <- app_assoc, drop_app_length. simpl.
  split; [eauto | exact Hl].
Qed.

Lemma reachable_run_triggers h ts w :
  reachable h w -> reachable h (run_triggers h ts w).
Proof.
  revert w. induction ts as [| t ts IH]; intros w Hw; [exact Hw |].
  apply IH, reachable_step, Hw.
Qed.

(** * Properties of the services and the handlers

    Function by function: the settings, the shared credential and its
    session cache, the client and its cache, the analysis, the analytics
    sink, the state of a tab, the scan, and the options page. *)

(** ** Settings are read back as they were saved *)

(** X1. A setting saved by settingsService is the one getSettings reads
    back, and the other two settings are as before: the operating mode, the
    consent flag, and the user's key.  The key is stored encoded and read
    decoded, so it is read back when decoding undoes encoding on it; a key
    whose stored form is empty is read back as undefined. *)
Theorem saved_settings_are_read_back
    (h : Host) (w : World) (m : OperatingMode) (c : bool) (k : jsstring) :
  sync_lastError h (trace w) = None ->
  sync_lastError h (trace w ++ [EvSyncSet]) = None ->
  decode h (encode h k) = k ->
  fst (getSettings h (snd (saveOperatingMode h m w)))
  = Ok {| mode := m; consent := consent (settings_of h w);
          userKey := userKey (settings_of h w) |}
  /\ fst (getSettings h (snd (saveConsent h c w)))
     = Ok {| mode := mode (settings_of h w); consent := c;
             userKey := userKey (settings_of h w) |}
  /\ fst (getSettings h (snd (saveUserApiKey h k w)))
     = Ok {| mode := mode (settings_of h w);
             consent := consent (settings_of h w);
             userKey := if nonempty (encode h k) then Some k else None |}.
Proof.
  intros Hset Hget Hround.
  unfold saveOperatingMode, saveConsent, saveUserApiKey, sync_set, getSettings.
  rewrite Hset. simpl. rewrite Hget.
  split; [reflexivity |]. split; [reflexivity |].
  unfold readSettings. simpl. rewrite Hround. reflexivity.
Qed.

(** ** getCentralApiKey *)

Lemma getCentralApiKey_step1_fresh h w e :
  session_get_lastError h (trace w) = None ->
  sessionCentral w = Some e ->
  fresh_at (Date_now h (trace w ++ [EvSessionGetCentral])) e ->
  no_override h ->
  getCentralApiKey h w = (Ok (key e), log EvSessionGetCentral w).
Proof.
  unfold fresh_at, no_override. intros Hget He Hfresh Hdev.
  unfold getCentralApiKey. rewrite Hdev.
  unfold bind at 1, try_catch at 1, bind at 1, session_get_central.
  rewrite Hget, He. unfold bind, ask. simpl.
  apply Z.ltb_lt in Hfresh. rewrite Hfresh. reflexivity.
Qed.

(** X2. While the session entry of the shared credential is younger than
    one hour, getCentralApiKey returns its key and the only call it makes is
    the read of the session store: the configuration server is not
    contacted. *)
Theorem getCentralApiKey_uses_fresh_session_entry
    (h : Host) (w : World) (e : ApiKeyCache) :
  no_override h ->
  session_get_lastError h (trace w) = None ->
  sessionCentral w = Some e ->
  fresh_at (Date_now h (trace w ++ [EvSessionGetCentral])) e ->
  getCentralApiKey h w = (Ok (key e), log EvSessionGetCentral w)
  /\ calls_between w (snd (getCentralApiKey h w)) = [EvSessionGetCentral].
Proof.
  intros Hdev Hget He Hfresh.
  rewrite (getCentralApiKey_step1_fresh h w e) by assumption.
  split; [reflexivity |]. unfold calls_between. simpl.
  apply drop_app_length.
Qed.

(** ** Frames *)

#[local] Instance only_trace_preorder : PreOrder only_trace.
Proof.
  split.
  - intros w. repeat split.
  - intros a b c (A1 & A2 & A3 & A4 & A5 & A6) (B1 & B2 & B3 & B4 & B5 & B6).
    repeat split; congruence.
Qed.

#[local] Instance same_tab_stores_preorder : PreOrder same_tab_stores.
Proof.
  split.
  - intros w. split; reflexivity.
  - intros a b c [A1 A2] [B1 B2]. split; congruence.
Qed.

#[local] Instance same_central_preorder : PreOrder same_central.
Proof.
  split.
  - intros w. reflexivity.
  - intros a b c A B. unfold same_central in *. congruence.
Qed.

(** Solves a frame goal for a call that is a single step on the world. *)
Ltac frame_prim :=
  intros ?;
  repeat match goal with
         | |- context [match ?x with _ => _ end] => destruct x
         end;
  solve [hnf; repeat split].

Lemma getSettings_only_trace h : respects only_trace (getSettings h).
Proof. unfold getSettings. frame_prim. Qed.

Lemma generateContent_only_trace h g c :
  respects only_trace (generateContent h g c).
Proof. unfold generateContent. frame_prim. Qed.

Lemma fetch_ANALYTICS_only_trace h b : respects only_trace (fetch_ANALYTICS h b).
Proof. unfold fetch_ANALYTICS. frame_prim. Qed.

Lemma executeScript_outerHTML_only_trace h tabId :
  respects only_trace (executeScript_outerHTML h tabId).
Proof. unfold executeScript_outerHTML. frame_prim. Qed.

Lemma executeScript_click_only_trace h tabId sel :
  respects only_trace (executeScript_click h tabId sel).
Proof. unfold executeScript_click. frame_prim. Qed.

Lemma tabs_query_only_trace h : respects only_trace (tabs_query h).
Proof. unfold tabs_query. frame_prim. Qed.

Lemma log_only_trace e : respects only_trace (effect (log e)).
Proof. intros w. repeat split. Qed.

Lemma session_get_central_only_trace h :
  respects only_trace (session_get_central h).
Proof. unfold session_get_central. frame_prim. Qed.

Lemma fetch_CONFIG_only_trace h : respects only_trace (fetch_CONFIG h).
Proof. unfold fetch_CONFIG. frame_prim. Qed.

Lemma read_apiKey_only_trace config : respects only_trace (read_apiKey config).
Proof. unfold read_apiKey. destruct config; respects_step. Qed.

Lemma sendEvent_only_trace h event payload :
  respects only_trace (sendEvent h event payload).
Proof.
  unfold sendEvent. respects_walk;
    first [ apply getSettings_only_trace | apply fetch_ANALYTICS_only_trace ].
Qed.

Lemma only_trace_same_tab_stores w w' : only_trace w w' -> same_tab_stores w w'.
Proof. intros (H1 & _ & _ & _ & H5 & _). split; assumption. Qed.

Lemma only_trace_same_central w w' : only_trace w w' -> same_central w w'.
Proof. intros (_ & _ & _ & _ & _ & H6). exact H6. Qed.

Lemma only_trace_same_cache w w' : only_trace w w' -> same_cache w w'.
Proof. intros (_ & H2 & H3 & _). split; assumption. Qed.

Lemma getCentralApiKey_same_tab_stores h :
  respects same_tab_stores (getCentralApiKey h).
Proof.
  unfold getCentralApiKey. respects_walk;
    first
      [ apply (respects_weaken only_trace _ only_trace_same_tab_stores);
        first [ apply session_get_central_only_trace
              | apply fetch_CONFIG_only_trace | apply read_apiKey_only_trace ]
      | unfold session_set_central; frame_prim ].
Qed.

Lemma getAiInstance_same_tab_stores h :
  respects same_tab_stores (getAiInstance h).
Proof.
  unfold getAiInstance. respects_walk;
    first
      [ apply (respects_weaken only_trace _ only_trace_same_tab_stores),
          getSettings_only_trace
      | apply getCentralApiKey_same_tab_stores
      | intros w; split; reflexivity ].
Qed.

Lemma updateStatus_same_central h tabId patch :
  respects same_central (updateStatus h tabId patch).
Proof.
  unfold updateStatus. respects_walk;
    first [ unfold session_set_tab; frame_prim
          | unfold sendMessage_STATUS_UPDATE; frame_prim
          | intros w; hnf; reflexivity ].
Qed.

(** ** Handlers respect what their service calls respect *)

Section Handlers.
Context (h : Host) (R : World -> World -> Prop) `{!PreOrder R}.
Hypothesis R_only_trace : forall w w', only_trace w w' -> R w w'.
Hypothesis R_getAiInstance : respects R (getAiInstance h).

Lemma findAcceptButtonSelector_respects html :
  respects R (findAcceptButtonSelector h html).
Proof.
  unfold findAcceptButtonSelector. respects_walk;
    first
      [ exact R_getAiInstance
      | apply (respects_weaken only_trace R R_only_trace);
        first [ apply log_only_trace | apply generateContent_only_trace ] ].
Qed.

Section Scan.
Context (tabId : Z).
Hypothesis R_updateStatus :
  forall patch, p_url patch = None -> respects R (updateStatus h tabId patch).

Lemma scanSteps_respects tabUrl html :
  respects R (scanSteps h tabId tabUrl html).
Proof.
  unfold scanSteps, trackScanSuccess, trackScanNotFound. respects_walk;
    first
      [ apply R_updateStatus; reflexivity
      | apply findAcceptButtonSelector_respects
      | apply (respects_weaken only_trace R R_only_trace);
        first [ apply executeScript_click_only_trace
              | apply sendEvent_only_trace ] ].
Qed.

Lemma scanFailed_respects tabUrl html err :
  respects R (scanFailed h tabId tabUrl html err).
Proof.
  unfold scanFailed, trackScanError. respects_walk;
    first
      [ apply R_updateStatus; reflexivity
      | apply (respects_weaken only_trace R R_only_trace),
          sendEvent_only_trace ].
Qed.

Lemma executeScan_respects tabUrl : respects R (executeScan h tabId tabUrl).
Proof.
  intros w. unfold executeScan.
  pose proof (R_only_trace _ _ (executeScript_outerHTML_only_trace h tabId w))
    as H0.
  destruct (executeScript_outerHTML h tabId w) as [[html | t] w1]; simpl in H0.
  - etransitivity; [exact H0 |].
    exact (respects_try_catch R _ _ (scanSteps_respects tabUrl html)
             (fun t => scanFailed_respects tabUrl html t) w1).
  - etransitivity; [exact H0 | apply scanFailed_respects].
Qed.
End Scan.

Hypothesis R_updateStatus :
  forall tabId patch, respects R (updateStatus h tabId patch).

Lemma onActionClicked_respects tab : respects R (onActionClicked h tab).
Proof.
  unfold onActionClicked, fire_and_forget. respects_walk;
    first [ apply R_updateStatus
          | apply executeScan_respects; intros; apply R_updateStatus ].
Qed.

Lemma onMessage_respects type sender : respects R (onMessage h type sender).
Proof.
  unfold onMessage, messageHandler, fire_and_forget.
  destruct type; respects_walk;
    first
      [ apply executeScan_respects; intros; apply R_updateStatus
      | apply (respects_weaken only_trace R R_only_trace);
        first [ apply tabs_query_only_trace | apply log_only_trace ] ].
Qed.
End Handlers.

(** ** The steps of getAiInstance *)

Lemma getAiInstance_steps h w :
  sync_lastError h (trace w) = None ->
  getAiInstance h w = clientFor h (settings_of h w) (log EvSyncGet w).
Proof.
  intros Herr. unfold getAiInstance, bind at 1, getSettings. rewrite Herr.
  fold (settings_of h w). set (s := settings_of h w). set (w0 := log EvSyncGet w).
  unfold clientFor. fold (keySource s).
  unfold bind at 1, ask at 1. cbv beta iota.
  destruct (cache_hit _ w0); [reflexivity |].
  fold (resolveKey h s). unfold bind at 1.
  destruct (resolveKey h s w0) as [[resolved | t] w1]; [| reflexivity].
  unfold bind at 1, ask at 1. cbv beta iota.
  destruct (cache_hit _ w1); [reflexivity |].
  unfold validated, bind, effect, ret, throw.
  destruct (mode s), (consent s), (truthy_str resolved); reflexivity.
Qed.

Lemma getAiInstance_unreadable h w msg :
  sync_lastError h (trace w) = Some msg ->
  getAiInstance h w = (Throw (JsErr msg), log EvSyncGet w).
Proof.
  intros Herr. unfold getAiInstance, bind at 1, getSettings. rewrite Herr.
  reflexivity.
Qed.

Lemma settingsKey_inj m c k m' c' k' :
  settingsKey m c (Some k) = settingsKey m' c' (Some k') ->
  m = m' /\ c = c' /\ k = k'.
Proof.
  unfold settingsKey, render_mode, render_bool, render_opt.
  destruct m, m', c, c'; cbn; intros H;
    first [ discriminate H | injection H as ->; auto ].
Qed.

Lemma cache_hit_some k w inst :
  cache_hit k w = Some inst <->
  cachedAiInstance w = Some inst /\ cachedSettingsKey w = Some k.
Proof.
  unfold cache_hit. destruct (cachedAiInstance w) as [i |]; [| split; [discriminate | intros [? _]; discriminate]].
  case_bool_decide as Hk.
  - split; [intros [= ->]; auto | intros [[= ->] _]; reflexivity].
  - split; [discriminate | intros [_ ?]; contradiction].
Qed.

Lemma cache_hit_log k e w : cache_hit k (log e w) = cache_hit k w.
Proof. reflexivity. Qed.

Lemma resolveKey_quiet h s : respects (quiet any_call) (resolveKey h s).
Proof.
  unfold resolveKey. destruct (mode s); respects_walk;
    apply getCentralApiKey_quiet; auto.
Qed.

Lemma resolveKey_ok h s w0 r w1 :
  resolveKey h s w0 = (Ok r, w1) ->
  (mode s = BYOK /\ r = userKey s /\ w1 = w0)
  \/ (mode s <> BYOK /\ exists k, r = Some k /\ getCentralApiKey h w0 = (Ok k, w1)).
Proof.
  unfold resolveKey. destruct (mode s) eqn:Hm.
  - intros [= <- <-]. left. auto.
  - unfold bind. destruct (getCentralApiKey h w0) as [[k | t] w']; [| discriminate].
    intros [= <- <-]. right. split; [discriminate | eauto].
  - unfold bind. destruct (getCentralApiKey h w0) as [[k | t] w']; [| discriminate].
    intros [= <- <-]. right. split; [discriminate | eauto].
Qed.

Lemma validated_ok s r inst :
  validated s r = Ok inst ->
  exists k, r = Some k /\ nonempty k = true
            /\ inst = {| client_apiKey := k |}
            /\ (mode s = FREE_AD_SUPPORTED -> consent s = true).
Proof.
  unfold validated. destruct r as [k |]; simpl.
  - destruct (mode s), (consent s), (nonempty k) eqn:Hk; simpl;
      try discriminate; intros [= <-]; exists k; repeat split; auto; discriminate.
  - destruct (mode s), (consent s); discriminate.
Qed.

(** ** The cached client and its signature *)

#[local] Instance keeps_client_preorder : PreOrder keeps_client.
Proof.
  split.
  - intros w H. exact H.
  - intros a b c Hab Hbc H. auto.
Qed.

Lemma same_cache_keeps_client w w' : same_cache w w' -> keeps_client w w'.
Proof. unfold keeps_client, client_inv. intros [-> ->]. auto. Qed.

Lemma only_trace_keeps_client w w' : only_trace w w' -> keeps_client w w'.
Proof. intros H. apply same_cache_keeps_client, only_trace_same_cache, H. Qed.

Lemma quiet_keeps_client p w w' : quiet p w w' -> keeps_client w w'.
Proof. intros [H _]. apply same_cache_keeps_client, H. Qed.

Lemma getAiInstance_keeps_client h : respects keeps_client (getAiInstance h).
Proof.
  intros w. destruct (sync_lastError h (trace w)) as [msg |] eqn:Herr.
  - rewrite (getAiInstance_unreadable h w msg Herr). intros H. exact H.
  - rewrite (getAiInstance_steps h w Herr). unfold clientFor.
    set (s := settings_of h w). set (w0 := log EvSyncGet w).
    destruct (cache_hit _ w0); [intros H; exact H |].
    pose proof (resolveKey_quiet h s w0) as Hq.
    destruct (resolveKey h s w0) as [[r | t] w1]; simpl in Hq.
    + destruct (cache_hit _ w1).
      * transitivity w0; [intros H; exact H | eapply quiet_keeps_client, Hq].
      * destruct (validated s r) as [inst | t] eqn:Hv.
        -- apply validated_ok in Hv as (k & -> & _ & -> & _).
           intros _ inst. simpl. intros [= <-]. eauto.
        -- transitivity w0; [intros H; exact H | eapply quiet_keeps_client, Hq].
    + transitivity w0; [intros H; exact H | eapply quiet_keeps_client, Hq].
Qed.

Lemma updateStatus_keeps_client h tabId patch :
  respects keeps_client (updateStatus h tabId patch).
Proof.
  apply (respects_weaken (quiet any_call) _ (quiet_keeps_client any_call)).
  apply updateStatus_quiet; reflexivity.
Qed.

Lemma save_only_cache h r w : same_cache w (snd (save h r w)).
Proof. destruct (save_frame h r w). split; assumption. Qed.

Lemma dispatch_keeps_client h t w : client_inv w -> client_inv (dispatch h t w).
Proof.
  intros Hinv. destruct t as [tab | type sender | tabId loading | tabId | r |];
    unfold dispatch.
  - exact (onActionClicked_respects h keeps_client only_trace_keeps_client
             (getAiInstance_keeps_client h) (updateStatus_keeps_client h)
             tab w Hinv).
  - exact (onMessage_respects h keeps_client only_trace_keeps_client
             (getAiInstance_keeps_client h) (updateStatus_keeps_client h)
             type sender w Hinv).
  - unfold onTabUpdated. destruct loading; exact Hinv.
  - exact Hinv.
  - pose proof (same_cache_keeps_client _ _ (save_only_cache h r w) Hinv) as H1.
    destruct (changed_keys _ _) as [| c cs] eqn:Hch; [exact H1 |].
    rewrite <- Hch, changed_keys_watched by (rewrite Hch; discriminate).
    intros inst. discriminate.
  - intros inst. discriminate.
Qed.

Lemma reachable_client_inv h w : reachable h w -> client_inv w.
Proof.
  induction 1 as [| w t _ IH]; [intros inst; discriminate |].
  apply dispatch_keeps_client, IH.
Qed.

(** ** The client returned by getAiInstance *)

(** A cached client that is returned carries the credential of the
    signature under which it was found. *)
Ltac clash Hm :=
  let Hx := fresh in
  intros Hx; exfalso;
  first [ discriminate Hx | exact (Hx eq_refl) | exact (Hx Hm) | exact (Hm Hx) ].

Lemma hit_client_key h w w' inst m c k :
  cache_inv h w -> client_inv w -> same_cache w w' ->
  cache_hit (settingsKey m c (Some k)) w' = Some inst ->
  client_apiKey inst = k
  /\ nonempty k = true
  /\ (mode (settings_of h w) = BYOK -> userKey (settings_of h w) = Some k)
  /\ (mode (settings_of h w) = FREE_AD_SUPPORTED ->
      consent (settings_of h w) = true).
Proof.
  intros Hinv Hcl [C1 C2] Hhit.
  apply cache_hit_some in Hhit as [Hi Hk]. rewrite C1 in Hi. rewrite C2 in Hk.
  unfold cache_inv in Hinv. rewrite Hi in Hinv.
  destruct Hinv as (k0 & Hne & Hk0 & Hbyok & Hfree).
  destruct (Hcl inst Hi) as (m1 & c1 & Hk1).
  rewrite Hk in Hk0, Hk1.
  injection Hk0 as Hk0. injection Hk1 as Hk1.
  apply settingsKey_inj in Hk0 as (_ & _ & <-).
  apply settingsKey_inj in Hk1 as (_ & _ & <-).
  auto.
Qed.

(** X7. In every reachable state, a client returned by getAiInstance,
    cached or new, carries a non-empty credential that fits the settings in
    force: under BYOK it is the user's key, under the free tier consent is
    given, and under the free tier and PRO it is the key getCentralApiKey
    resolves in this very call (or a cached client whose key is the word
    central, the one case in which the early cache test can succeed). *)
Theorem getAiInstance_client_matches_settings
    (h : Host) (w : World) (inst : GoogleGenAI) (w1 : World) :
  reachable h w ->
  getAiInstance h w = (Ok inst, w1) ->
  nonempty (client_apiKey inst) = true
  /\ (mode (settings_of h w) = BYOK ->
      userKey (settings_of h w) = Some (client_apiKey inst))
  /\ (mode (settings_of h w) = FREE_AD_SUPPORTED ->
      consent (settings_of h w) = true)
  /\ (mode (settings_of h w) <> BYOK ->
      client_apiKey inst = js "central"
      \/ fst (getCentralApiKey h (log EvSyncGet w)) = Ok (client_apiKey inst)).
Proof.
  intros Hreach Hrun.
  pose proof (reachable_cache_inv h w Hreach) as Hinv.
  pose proof (reachable_client_inv h w Hreach) as Hcl.
  destruct (sync_lastError h (trace w)) as [msg |] eqn:Herr.
  { rewrite (getAiInstance_unreadable h w msg Herr) in Hrun. discriminate. }
  rewrite (getAiInstance_steps h w Herr) in Hrun. unfold clientFor in Hrun.
  set (s := settings_of h w) in *. set (w0 := log EvSyncGet w) in *.
  assert (H0 : same_cache w w0) by (split; reflexivity).
  destruct (cache_hit _ w0) as [i |] eqn:Hhit.
  - injection Hrun as -> _.
    unfold keySource in Hhit. destruct (mode s) eqn:Hm.
    + destruct (userKey s) as [k |] eqn:Hu.
      * destruct (hit_client_key h w w0 inst _ _ _ Hinv Hcl H0 Hhit)
          as (-> & Hne & Hb & Hf).
        repeat split; auto; clash Hm.
      * exfalso. apply cache_hit_some in Hhit as [Hi _].
        pose proof (no_client_cached h w Hinv) as Hnone.
        fold s in Hnone. rewrite Hm, Hu in Hnone.
        destruct H0 as [C1 _]. rewrite C1, Hnone in Hi; [discriminate | auto].
    + destruct (hit_client_key h w w0 inst _ _ _ Hinv Hcl H0 Hhit)
        as (-> & Hne & Hb & Hf).
      repeat split; auto; intros; discriminate.
    + destruct (hit_client_key h w w0 inst _ _ _ Hinv Hcl H0 Hhit)
        as (-> & Hne & Hb & Hf).
      repeat split; auto; intros; discriminate.
  - pose proof (resolveKey_quiet h s w0) as Hq.
    destruct (resolveKey h s w0) as [[r | t] w'] eqn:Hres; [| discriminate].
    simpl in Hq. destruct Hq as [Hc _].
    assert (H1 : same_cache w w')
      by (destruct Hc as [A B]; split; [rewrite A | rewrite B]; reflexivity).
    apply resolveKey_ok in Hres.
    destruct (cache_hit _ w') as [i |] eqn:Hhit2.
    + injection Hrun as -> _.
      destruct Hres as [(Hm & -> & ->) | (Hm & k & -> & Hk)].
      * exfalso. rewrite Hm in Hhit. unfold keySource in Hhit.
        rewrite Hm in Hhit. rewrite Hm in Hhit2. congruence.
      * destruct (hit_client_key h w w' inst _ _ _ Hinv Hcl H1 Hhit2)
          as (-> & Hne & Hb & Hf).
        repeat split; auto. intros _. right. rewrite Hk. reflexivity.
    + destruct (validated s r) as [i | t] eqn:Hv; [| discriminate].
      injection Hrun as -> _.
      apply validated_ok in Hv as (k & -> & Hne & -> & Hf).
      destruct Hres as [(Hm & Hr & ->) | (Hm & k' & [= <-] & Hk)]; simpl.
      * repeat split; auto. clash Hm.
      * repeat split; auto; [clash Hm |].
        intros _. right. rewrite Hk. reflexivity.
Qed.

(** X9. Under BYOK, once getAiInstance has returned a client, the next
    call returns the same client after the read of the settings alone, as
    long as the settings can be read. *)
Theorem byok_client_is_reused
    (h : Host) (w : World) (inst : GoogleGenAI) (w1 : World) :
  mode (settings_of h w) = BYOK ->
  getAiInstance h w = (Ok inst, w1) ->
  sync_lastError h (trace w1) = None ->
  getAiInstance h w1 = (Ok inst, log EvSyncGet w1).
Proof.
  intros Hm Hrun Herr1.
  destruct (sync_lastError h (trace w)) as [msg |] eqn:Herr.
  { rewrite (getAiInstance_unreadable h w msg Herr) in Hrun. discriminate. }
  rewrite (getAiInstance_steps h w Herr) in Hrun.
  rewrite (getAiInstance_steps h w1 Herr1).
  unfold clientFor in Hrun.
  set (s := settings_of h w) in *. set (w0 := log EvSyncGet w) in *.
  assert (Hgoal : forall w',
    syncStore w' = syncStore w ->
    cache_hit (settingsKey (mode s) (consent s) (keySource s)) w' = Some inst ->
    clientFor h (settings_of h w') (log EvSyncGet w') = (Ok inst, log EvSyncGet w')).
  { intros w' Hs Hhit. unfold clientFor, settings_of. rewrite Hs.
    fold (settings_of h w). fold s. rewrite cache_hit_log, Hhit. reflexivity. }
  destruct (cache_hit _ w0) as [i |] eqn:Hhit.
  - injection Hrun as -> <-. apply Hgoal; [reflexivity | exact Hhit].
  - unfold resolveKey in Hrun. unfold keySource in Hhit.
    rewrite Hm in Hrun, Hhit. unfold ret at 1 in Hrun. cbv beta iota in Hrun.
    rewrite Hhit in Hrun.
    destruct (validated s (userKey s)) as [i | t]; [| discriminate].
    injection Hrun as -> <-. apply Hgoal; [reflexivity |].
    unfold keySource. rewrite Hm. apply cache_hit_some. split; reflexivity.
Qed.

(** ** The first call of a function *)

Lemma first_call_bind {A B} e (m : M A) (k : A -> M B) w :
  (exists l, trace (snd (m w)) = trace w ++ e :: l) ->
  (forall a, respects (evolves any_call) (k a)) ->
  exists l, trace (snd (bind m k w)) = trace w ++ e :: l.
Proof.
  intros [l Hl] Hk. unfold bind.
  destruct (m w) as [[a | t] w1]; simpl in *; [| eauto].
  destruct (Hk a w1) as [_ (l' & Hl' & _)].
  exists (l ++ l'). rewrite Hl', Hl, <- app_assoc. reflexivity.
Qed.

Lemma first_call_try_catch {A} e (m : M A) (handler : Thrown -> M A) w :
  (exists l, trace (snd (m w)) = trace w ++ e :: l) ->
  (forall t, respects (evolves any_call) (handler t)) ->
  exists l, trace (snd (try_catch m handler w)) = trace w ++ e :: l.
Proof.
  intros [l Hl] Hk. unfold try_catch.
  destruct (m w) as [[a | t] w1]; simpl in *; [eauto |].
  destruct (Hk t w1) as [_ (l' & Hl' & _)].
  exists (l ++ l'). rewrite Hl', Hl, <- app_assoc. reflexivity.
Qed.

Lemma getCentralApiKey_first_call h w :
  no_override h ->
  exists l, trace (snd (getCentralApiKey h w))
            = trace w ++ EvSessionGetCentral :: l.
Proof.
  intros Hdev. unfold getCentralApiKey. rewrite Hdev.
  pose proof (fun (e : Event) (H : any_call e = true) => H) as Hp.
  apply first_call_bind; [apply first_call_try_catch; [apply first_call_bind |] |].
  - exists []. unfold session_get_central.
    destruct (session_get_lastError h (trace w)); reflexivity.
  - intros a. respects_walk; prim_evolves Hp.
  - intros t. respects_walk.
  - intros a. respects_walk; prim_evolves Hp.
Qed.

(** X10. Under the free tier and PRO the early cache test of getAiInstance
    compares a signature that ends in the word central with one that ends
    in the credential, so it fails unless the credential is that word:
    every call goes on to getCentralApiKey, whose first call, when the
    development override is not in force, is the read of the session
    store. *)
Theorem central_tiers_resolve_key_on_every_call (h : Host) (w : World) :
  reachable h w ->
  sync_lastError h (trace w) = None ->
  mode (settings_of h w) <> BYOK ->
  no_override h ->
  (forall inst, cachedAiInstance w = Some inst ->
                client_apiKey inst <> js "central") ->
  exists l, calls_between w (snd (getAiInstance h w))
            = EvSyncGet :: EvSessionGetCentral :: l.
Proof.
  intros Hreach Herr Hm Hdev Hkey.
  pose proof (reachable_cache_inv h w Hreach) as Hinv.
  pose proof (reachable_client_inv h w Hreach) as Hcl.
  rewrite (getAiInstance_steps h w Herr). unfold clientFor.
  set (s := settings_of h w) in *. set (w0 := log EvSyncGet w) in *.
  assert (H0 : same_cache w w0) by (split; reflexivity).
  assert (Hks : keySource s = Some (js "central")).
  { unfold keySource. destruct (mode s); [contradiction | reflexivity ..]. }
  rewrite Hks.
  destruct (cache_hit _ w0) as [i |] eqn:Hhit.
  { exfalso.
    destruct (hit_client_key h w w0 i _ _ _ Hinv Hcl H0 Hhit) as (Hk & _).
    apply cache_hit_some in Hhit as [Hi _].
    exact (Hkey i Hi Hk). }
  assert (Hres : exists l, trace (snd (resolveKey h s w0))
                           = trace w0 ++ EvSessionGetCentral :: l).
  { unfold resolveKey. destruct (mode s); [contradiction | |];
      (apply first_call_bind;
       [apply getCentralApiKey_first_call, Hdev | intros a; respects_walk]). }
  destruct Hres as [l Hl].
  assert (Htrace : forall w',
    trace w' = trace (snd (resolveKey h s w0)) ->
    calls_between w w' = EvSyncGet :: EvSessionGetCentral :: l).
  { intros w' Hw'. unfold calls_between. rewrite Hw', Hl. unfold w0. simpl.
    rewrite <- app_assoc. apply drop_app_length. }
  exists l.
  destruct (resolveKey h s w0) as [[r | t] w1]; simpl in *;
    [| apply Htrace; reflexivity].
  destruct (cache_hit _ w1); [apply Htrace; reflexivity |].
  destruct (validated s r); apply Htrace; reflexivity.
Qed.

(** ** The session cache of the shared credential *)

(** The ways getCentralApiKey can end when the development override is not
    in force: with the key of a fresh session entry and no other call, with
    a fetched key that is not empty and is now the session entry, or with a
    failure that leaves the entry as it was. *)
Lemma getCentralApiKey_cases h w :
  no_override h ->
  match getCentralApiKey h w with
  | (Ok k, w1) =>
      (exists e, sessionCentral w = Some e
                 /\ session_get_lastError h (trace w) = None
                 /\ fresh_at (Date_now h (trace w ++ [EvSessionGetCentral])) e
                 /\ k = key e /\ w1 = log EvSessionGetCentral w)
      \/ (nonempty k = true
          /\ sessionCentral w1
             = Some {| key := k;
                       timestamp := Date_now h (trace w ++
                         [EvSessionGetCentral; EvFetchConfig]) |})
  | (Throw t, w1) => sessionCentral w1 = sessionCentral w
  end.
Proof.
  intros Hdev. unfold getCentralApiKey. rewrite Hdev.
  set (w0 := log EvSessionGetCentral w).
  match goal with
  | |- context [try_catch (bind (fetch_CONFIG h) ?k) ?hd] =>
      set (step2 := try_catch (bind (fetch_CONFIG h) k) hd)
  end.
  assert (H2 :
    match step2 w0 with
    | (Throw t, w1) => sessionCentral w1 = sessionCentral w
    | (Ok s, w1) =>
        nonempty s = true
        /\ sessionCentral w1
           = Some {| key := s;
                     timestamp := Date_now h (trace w ++
                       [EvSessionGetCentral; EvFetchConfig]) |}
    end).
  { unfold step2, try_catch, bind at 1, fetch_CONFIG.
    destruct (fetch_config h (trace w0)) as [f | ok st [body |]].
    - destruct f; reflexivity.
    - destruct ok; [| reflexivity].
      unfold negb, bind at 1, ret at 1. cbv beta iota.
      unfold bind at 1, read_apiKey.
      destruct body as [| b | n | s | items | fs]; try reflexivity.
      unfold ret at 1. cbv beta iota.
      destruct (get_field _ fs) as [[| b | n | s | items | fs'] |];
        try reflexivity.
      destruct (nonempty s) eqn:Hs; [| reflexivity].
      unfold bind, ask, session_set_central. simpl.
      rewrite <- app_assoc. simpl.
      destruct (session_set_rejects h _) as [f |].
      + destruct f; reflexivity.
      + split; [exact Hs | reflexivity].
    - destruct ok; reflexivity. }
  clearbody step2.
  assert (H2' :
    match step2 w0 with
    | (Ok k, w1) =>
        (exists e, sessionCentral w = Some e
                   /\ session_get_lastError h (trace w) = None
                   /\ fresh_at (Date_now h (trace w ++ [EvSessionGetCentral])) e
                   /\ k = key e /\ w1 = log EvSessionGetCentral w)
        \/ (nonempty k = true
            /\ sessionCentral w1
               = Some {| key := k;
                         timestamp := Date_now h (trace w ++
                           [EvSessionGetCentral; EvFetchConfig]) |})
    | (Throw t, w1) => sessionCentral w1 = sessionCentral w
    end).
  { destruct (step2 w0) as [[k | t] w1]; [right |]; exact H2. }
  clear H2.
  unfold bind at 1, try_catch at 1, bind at 1, session_get_central.
  destruct (session_get_lastError h (trace w)) as [f |] eqn:Hget.
  - exact H2'.
  - fold w0. destruct (sessionCentral w) as [e |] eqn:He.
    + unfold bind at 1, ask at 1. cbv beta iota.
      change (trace w0) with (trace w ++ [EvSessionGetCentral]).
      destruct (_ <? _)%Z eqn:Hfresh.
      * left. exists e. apply Z.ltb_lt in Hfresh. auto.
      * exact H2'.
    + exact H2'.
Qed.

Lemma getCentralApiKey_override h w :
  env_DEV h && truthy_str (env_VITE_CENTRAL_API_KEY h) = true ->
  getCentralApiKey h w = (Ok (render_opt (env_VITE_CENTRAL_API_KEY h)), w).
Proof. intros Hdev. unfold getCentralApiKey. rewrite Hdev. reflexivity. Qed.

(** X5. Every failure of getCentralApiKey is an AppError with the code
    CONFIG_FETCH_FAILED, whatever was thrown inside, and a failed call
    leaves the session entry as it was. *)
Theorem getCentralApiKey_fails_with_config_error
    (h : Host) (w : World) (t : Thrown) (w1 : World) :
  getCentralApiKey h w = (Throw t, w1) ->
  (exists msg, t = AppErr CONFIG_FETCH_FAILED msg)
  /\ sessionCentral w1 = sessionCentral w.
Proof.
  intros Hrun. split.
  - apply (getCentralApiKey_throws h w t). rewrite Hrun. reflexivity.
  - destruct (env_DEV h && truthy_str (env_VITE_CENTRAL_API_KEY h)) eqn:Hdev.
    + rewrite (getCentralApiKey_override h w Hdev) in Hrun. discriminate.
    + pose proof (getCentralApiKey_cases h w Hdev) as Hc.
      rewrite Hrun in Hc. exact Hc.
Qed.

(** X3. When the session store cannot be read, holds no entry, or holds
    one that is one hour old or older, getCentralApiKey fetches the
    configuration; a response that is ok and carries a non-empty string
    apiKey is returned and becomes the session entry, stamped with the time
    of the write. *)
Theorem getCentralApiKey_refreshes_stale_entry
    (h : Host) (w : World) (st : N) (fs : list (jsstring * json))
    (s : jsstring) :
  no_override h ->
  (session_get_lastError h (trace w) <> None
   \/ forall e, sessionCentral w = Some e ->
                ~ fresh_at (Date_now h (trace w ++ [EvSessionGetCentral])) e) ->
  fetch_config h (trace w ++ [EvSessionGetCentral])
  = FetchResponse true st (Some (JObject fs)) ->
  get_field (js "apiKey") fs = Some (JString s) ->
  nonempty s = true ->
  session_set_rejects h (trace w ++ [EvSessionGetCentral; EvFetchConfig]) = None ->
  fst (getCentralApiKey h w) = Ok s
  /\ sessionCentral (snd (getCentralApiKey h w))
     = Some {| key := s;
               timestamp := Date_now h (trace w ++
                 [EvSessionGetCentral; EvFetchConfig]) |}
  /\ calls_between w (snd (getCentralApiKey h w))
     = [EvSessionGetCentral; EvFetchConfig;
        EvSessionSetCentral
          {| key := s;
             timestamp := Date_now h (trace w ++
               [EvSessionGetCentral; EvFetchConfig]) |}].
Proof.
  intros Hdev Hstale Hfetch Hfield Hs Hset.
  set (w0 := log EvSessionGetCentral w).
  set (entry := {| key := s;
                   timestamp := Date_now h (trace w ++
                     [EvSessionGetCentral; EvFetchConfig]) |}).
  assert (Hrun : getCentralApiKey h w
    = (Ok s, log (EvSessionSetCentral entry)
               (set_sessionCentral (Some entry) (log EvFetchConfig w0)))).
  { unfold getCentralApiKey. rewrite Hdev.
    assert (H1 :
      try_catch
        (bind (session_get_central h)
           (fun cacheEntry =>
              match cacheEntry with
              | Some entry =>
                  bind (ask (fun w => Date_now h (trace w)))
                    (fun now =>
                       if (now - timestamp entry
                           <? CACHE_CONFIG.CENTRAL_API_KEY_TTL_MS)%Z
                       then ret (Some (key entry)) else ret None)
              | None => ret None
              end))
        (fun _ => ret None) w
      = (Ok None, w0)).
    { unfold try_catch, bind at 1, session_get_central.
      destruct (session_get_lastError h (trace w)) as [f |] eqn:Hget;
        [reflexivity |].
      destruct Hstale as [Hbad | Hstale]; [contradiction |].
      destruct (sessionCentral w) as [e |]; [| reflexivity].
      unfold bind, ask. simpl.
      specialize (Hstale e eq_refl). unfold fresh_at in Hstale.
      apply Z.ltb_nlt in Hstale. rewrite Hstale. reflexivity. }
    unfold bind at 1. rewrite H1.
    unfold try_catch, bind at 1, fetch_CONFIG.
    change (trace w0) with (trace w ++ [EvSessionGetCentral]).
    rewrite Hfetch. unfold negb, bind at 1, ret at 1. cbv beta iota.
    unfold bind at 1, read_apiKey, ret at 1. cbv beta iota.
    rewrite Hfield, Hs. unfold bind, ask, session_set_central. simpl.
    rewrite <- app_assoc. simpl. rewrite Hset. reflexivity. }
  rewrite Hrun. split; [reflexivity |]. split; [reflexivity |].
  unfold calls_between. simpl. rewrite <- !app_assoc. simpl.
  apply drop_app_length.
Qed.

(** X4. A key returned by getCentralApiKey (the development override
    apart) is the key of the session entry afterwards, so the next call
    returns the same key from the session store alone for as long as the
    entry is fresh. *)
Theorem getCentralApiKey_result_is_cached
    (h : Host) (w : World) (k : jsstring) (w1 : World) :
  no_override h ->
  getCentralApiKey h w = (Ok k, w1) ->
  exists e,
    sessionCentral w1 = Some e
    /\ key e = k
    /\ (session_get_lastError h (trace w1) = None ->
        fresh_at (Date_now h (trace w1 ++ [EvSessionGetCentral])) e ->
        getCentralApiKey h w1 = (Ok k, log EvSessionGetCentral w1)).
Proof.
  intros Hdev Hrun.
  pose proof (getCentralApiKey_cases h w Hdev) as Hc. rewrite Hrun in Hc.
  assert (He : exists e, sessionCentral w1 = Some e /\ key e = k).
  { destruct Hc as [(e & He & _ & _ & -> & ->) | (_ & He)]; eauto. }
  destruct He as (e & He & <-). exists e. repeat split; auto.
  intros Hget Hfresh. apply getCentralApiKey_step1_fresh; assumption.
Qed.

(** ** The session entry is never empty *)

#[local] Instance keeps_session_preorder : PreOrder keeps_session.
Proof.
  split.
  - intros w H. exact H.
  - intros a b c Hab Hbc H. auto.
Qed.

Lemma same_central_keeps_session w w' : same_central w w' -> keeps_session w w'.
Proof. unfold same_central, keeps_session, session_inv. intros ->. auto. Qed.

Lemma only_trace_keeps_session w w' : only_trace w w' -> keeps_session w w'.
Proof. intros H. apply same_central_keeps_session, only_trace_same_central, H. Qed.

Lemma getCentralApiKey_keeps_session h : respects keeps_session (getCentralApiKey h).
Proof.
  intros w Hinv.
  destruct (env_DEV h && truthy_str (env_VITE_CENTRAL_API_KEY h)) eqn:Hdev.
  - rewrite (getCentralApiKey_override h w Hdev). exact Hinv.
  - pose proof (getCentralApiKey_cases h w Hdev) as Hc.
    destruct (getCentralApiKey h w) as [[k | t] w1]; simpl.
    + destruct Hc as [(e & He & _ & _ & _ & ->) | (Hk & He)].
      * exact Hinv.
      * intros e'. rewrite He. intros [= <-]. exact Hk.
    + intros e. rewrite Hc. apply Hinv.
Qed.

Lemma getAiInstance_keeps_session h : respects keeps_session (getAiInstance h).
Proof.
  unfold getAiInstance. respects_walk;
    first
      [ apply getCentralApiKey_keeps_session
      | apply (respects_weaken only_trace _ only_trace_keeps_session),
          getSettings_only_trace
      | intros w H; exact H ].
Qed.

Lemma updateStatus_keeps_session h tabId patch :
  respects keeps_session (updateStatus h tabId patch).
Proof.
  apply (respects_weaken same_central _ same_central_keeps_session),
    updateStatus_same_central.
Qed.

Lemma save_same_central h r w : sessionCentral (snd (save h r w)) = sessionCentral w.
Proof.
  destruct r; unfold save, saveOperatingMode, saveUserApiKey, saveConsent,
    sync_set; destruct (sync_lastError h (trace w)); reflexivity.
Qed.

Lemma dispatch_keeps_session h t w : session_inv w -> session_inv (dispatch h t w).
Proof.
  intros Hinv. destruct t as [tab | type sender | tabId loading | tabId | r |];
    unfold dispatch.
  - exact (onActionClicked_respects h keeps_session only_trace_keeps_session
             (getAiInstance_keeps_session h) (updateStatus_keeps_session h)
             tab w Hinv).
  - exact (onMessage_respects h keeps_session only_trace_keeps_session
             (getAiInstance_keeps_session h) (updateStatus_keeps_session h)
             type sender w Hinv).
  - unfold onTabUpdated. destruct loading; exact Hinv.
  - exact Hinv.
  - assert (H1 : session_inv (snd (save h r w))).
    { intros e. rewrite save_same_central. apply Hinv. }
    destruct (changed_keys _ _) as [| c cs] eqn:Hch; [exact H1 |].
    rewrite <- Hch, changed_keys_watched by (rewrite Hch; discriminate).
    exact H1.
  - exact Hinv.
Qed.

Lemma reachable_session_inv h w : reachable h w -> session_inv w.
Proof.
  induction 1 as [| w t _ IH]; [intros e; discriminate |].
  apply dispatch_keeps_session, IH.
Qed.

(** X6. In every reachable state of the service worker the key of the
    session entry is not empty, and a key returned by getCentralApiKey is
    not empty. *)
Theorem shared_key_is_never_empty (h : Host) (w : World) :
  reachable h w ->
  (forall e, sessionCentral w = Some e -> nonempty (key e) = true)
  /\ (forall k, fst (getCentralApiKey h w) = Ok k -> nonempty k = true).
Proof.
  intros Hreach. pose proof (reachable_session_inv h w Hreach) as Hinv.
  split; [exact Hinv |]. intros k Hk.
  destruct (env_DEV h && truthy_str (env_VITE_CENTRAL_API_KEY h)) eqn:Hdev.
  - rewrite (getCentralApiKey_override h w Hdev) in Hk. injection Hk as <-.
    apply andb_prop in Hdev as [_ Ht]. apply truthy_render, Ht.
  - pose proof (getCentralApiKey_cases h w Hdev) as Hc.
    destruct (getCentralApiKey h w) as [[k' | t] w1]; [| discriminate].
    injection Hk as ->.
    destruct Hc as [(e & He & _ & _ & -> & _) | (Hne & _)]; auto.
Qed.

Lemma getCentralApiKey_nonempty h w k w1 :
  session_inv w -> getCentralApiKey h w = (Ok k, w1) -> nonempty k = true.
Proof.
  intros Hinv Hk.
  destruct (env_DEV h && truthy_str (env_VITE_CENTRAL_API_KEY h)) eqn:Hdev.
  - rewrite (getCentralApiKey_override h w Hdev) in Hk. injection Hk as <- _.
    apply andb_prop in Hdev as [_ Ht]. apply truthy_render, Ht.
  - pose proof (getCentralApiKey_cases h w Hdev) as Hc. rewrite Hk in Hc.
    destruct Hc as [(e & He & _ & _ & -> & _) | (Hne & _)]; auto.
Qed.

Lemma client_eta (inst : GoogleGenAI) k :
  client_apiKey inst = k -> inst = {| client_apiKey := k |}.
Proof. destruct inst. simpl. intros ->. reflexivity. Qed.

(** X8. Under BYOK with a non-empty key, in every reachable state,
    getAiInstance returns a client for that key and the only call it makes
    is the read of the settings. *)
Theorem byok_with_key_builds_client_locally
    (h : Host) (w : World) (k : jsstring) :
  reachable h w ->
  sync_lastError h (trace w) = None ->
  mode (settings_of h w) = BYOK ->
  userKey (settings_of h w) = Some k ->
  nonempty k = true ->
  fst (getAiInstance h w) = Ok {| client_apiKey := k |}
  /\ calls_between w (snd (getAiInstance h w)) = [EvSyncGet].
Proof.
  intros Hreach Herr Hm Hu Hk.
  pose proof (reachable_cache_inv h w Hreach) as Hinv.
  pose proof (reachable_client_inv h w Hreach) as Hcl.
  rewrite (getAiInstance_steps h w Herr).
  set (s := settings_of h w) in *. set (w0 := log EvSyncGet w) in *.
  assert (H0 : same_cache w w0) by (split; reflexivity).
  assert (Hrun : exists w', clientFor h s w0 = (Ok {| client_apiKey := k |}, w')
                            /\ trace w' = trace w0).
  { unfold clientFor, keySource, resolveKey. rewrite Hm, Hu.
    destruct (cache_hit _ w0) as [i |] eqn:Hhit.
    - destruct (hit_client_key h w w0 i _ _ _ Hinv Hcl H0 Hhit) as (Hi & _).
      rewrite (client_eta i k Hi). eauto.
    - unfold ret at 1. cbv beta iota zeta. rewrite Hhit.
      unfold validated. rewrite Hm. unfold truthy_str. rewrite Hk.
      eexists. split; reflexivity. }
  destruct Hrun as (w' & -> & Hw'). split; [reflexivity |].
  unfold calls_between. simpl. rewrite Hw'. apply drop_app_length.
Qed.

(** X11. Under PRO, and under the free tier with consent, in every
    reachable state (a cached client whose key is the word central apart)
    getAiInstance succeeds exactly when getCentralApiKey does and fails
    with its error otherwise, and the client it returns carries the key
    resolved in this call: a rotated key replaces the cached client. *)
Theorem central_tier_client_follows_resolved_key (h : Host) (w : World) :
  reachable h w ->
  sync_lastError h (trace w) = None ->
  mode (settings_of h w) <> BYOK ->
  (mode (settings_of h w) = FREE_AD_SUPPORTED ->
   consent (settings_of h w) = true) ->
  (forall inst, cachedAiInstance w = Some inst ->
                client_apiKey inst <> js "central") ->
  fst (getAiInstance h w)
  = match fst (getCentralApiKey h (log EvSyncGet w)) with
    | Ok k => Ok {| client_apiKey := k |}
    | Throw t => Throw t
    end.
Proof.
  intros Hreach Herr Hm Hfree Hkey.
  pose proof (reachable_cache_inv h w Hreach) as Hinv.
  pose proof (reachable_client_inv h w Hreach) as Hcl.
  pose proof (reachable_session_inv h w Hreach) as Hses.
  rewrite (getAiInstance_steps h w Herr). unfold clientFor.
  set (s := settings_of h w) in *. set (w0 := log EvSyncGet w) in *.
  assert (H0 : same_cache w w0) by (split; reflexivity).
  assert (Hks : keySource s = Some (js "central")).
  { unfold keySource. destruct (mode s); [contradiction | reflexivity ..]. }
  rewrite Hks.
  destruct (cache_hit _ w0) as [i |] eqn:Hhit.
  { exfalso.
    destruct (hit_client_key h w w0 i _ _ _ Hinv Hcl H0 Hhit) as (Hk & _).
    apply cache_hit_some in Hhit as [Hi _].
    exact (Hkey i Hi Hk). }
  pose proof (getCentralApiKey_quiet h any_call (fun _ _ => eq_refl) w0) as Hq.
  assert (Hres : resolveKey h s w0
    = match getCentralApiKey h w0 with
      | (Ok k, w1) => (Ok (Some k), w1)
      | (Throw t, w1) => (Throw t, w1)
      end).
  { unfold resolveKey, bind. destruct (mode s); [contradiction | |];
      destruct (getCentralApiKey h w0) as [[k | t] w1]; reflexivity. }
  rewrite Hres.
  destruct (getCentralApiKey h w0) as [[k | t] w1] eqn:Hrun; [| reflexivity].
  simpl in Hq. destruct Hq as [Hc _].
  assert (H1 : same_cache w w1)
    by (destruct Hc as [A B]; split; [rewrite A | rewrite B]; reflexivity).
  assert (Hne : nonempty k = true)
    by exact (getCentralApiKey_nonempty h w0 k w1 Hses Hrun).
  cbv beta iota zeta. destruct (cache_hit _ w1) as [i |] eqn:Hhit2.
  - destruct (hit_client_key h w w1 i _ _ _ Hinv Hcl H1 Hhit2) as (Hi & _).
    rewrite (client_eta i k Hi). reflexivity.
  - unfold validated, truthy_str. rewrite Hne.
    destruct (mode s) eqn:Hmode; [contradiction | | reflexivity].
    rewrite (Hfree eq_refl). reflexivity.
Qed.

(** ** The errors of the analysis *)

Lemma throws_weaken {A} (P Q : Thrown -> Prop) (m : M A) :
  (forall t, P t -> Q t) -> throws_only P m -> throws_only Q m.
Proof. intros HPQ Hm w t Ht. apply HPQ, (Hm w t Ht). Qed.

Lemma app_codes_foreign cs f : app_codes cs (foreign f).
Proof. destruct f; intros c m; discriminate. Qed.

Lemma app_codes_js cs msg : app_codes cs (JsErr msg).
Proof. intros c m; discriminate. Qed.

Lemma app_codes_app cs c msg : In c cs -> app_codes cs (AppErr c msg).
Proof. intros Hin c' m' [= <- _]. exact Hin. Qed.

Lemma app_codes_mono cs cs' t :
  (forall c, In c cs -> In c cs') -> app_codes cs t -> app_codes cs' t.
Proof. intros Hsub Ht c m E. apply Hsub, (Ht c m E). Qed.

(** The calls that fail only with what the collaborator throws. *)
Lemma getSettings_throws h cs : throws_only (app_codes cs) (getSettings h).
Proof.
  intros w t. unfold getSettings.
  destruct (sync_lastError h (trace w)); intros [= <-]. apply app_codes_js.
Qed.

Lemma generateContent_throws h g c cs :
  throws_only (app_codes cs) (generateContent h g c).
Proof.
  intros w t. unfold generateContent.
  destruct (models_generateContent _ _ _ _); intros [= <-].
  apply app_codes_foreign.
Qed.

Lemma executeScript_click_throws h tabId sel cs :
  throws_only (app_codes cs) (executeScript_click h tabId sel).
Proof.
  intros w t. unfold executeScript_click.
  destruct (scripting_click _ _ _ _); intros [= <-]. apply app_codes_foreign.
Qed.

Lemma updateStatus_throws h tabId patch cs :
  throws_only (app_codes cs) (updateStatus h tabId patch).
Proof.
  unfold updateStatus. repeat throws_step.
  - intros w t. unfold session_set_tab.
    destruct (session_set_rejects _ _); intros [= <-]. apply app_codes_foreign.
  - apply (throws_try_catch _ (fun _ => True)).
    + intros w t _. exact I.
    + intros t _. apply throws_ret.
Qed.

Lemma sendEvent_throws h event payload cs :
  throws_only (app_codes cs) (sendEvent h event payload).
Proof.
  unfold sendEvent. repeat throws_step.
  - apply getSettings_throws.
  - apply (throws_try_catch _ (fun _ => True)).
    + intros w t _. exact I.
    + intros t _. apply throws_ret.
Qed.

Lemma config_error_in_client_codes t :
  (exists msg, t = AppErr CONFIG_FETCH_FAILED msg) -> app_codes client_codes t.
Proof. intros [msg ->]. apply app_codes_app. simpl. tauto. Qed.

Lemma getAiInstance_throws h :
  throws_only (app_codes client_codes) (getAiInstance h).
Proof.
  unfold getAiInstance. repeat throws_step;
    try (apply app_codes_app; simpl; tauto);
    first
      [ apply getSettings_throws
      | apply (throws_weaken _ _ _ config_error_in_client_codes),
          getCentralApiKey_throws ].
Qed.

Lemma findAcceptButtonSelector_throws h html :
  throws_only (fun t => exists c msg, t = AppErr c msg /\ In c analysis_codes)
    (findAcceptButtonSelector h html).
Proof.
  unfold findAcceptButtonSelector. apply throws_bind; [apply throws_effect |].
  intros _. apply (throws_try_catch _ (app_codes client_codes)).
  - repeat throws_step.
    + apply getAiInstance_throws.
    + apply generateContent_throws.
    + apply app_codes_js.
  - intros t Ht. destruct t as [c msg | msg |].
    + apply throws_throw. exists c, msg. split; [reflexivity |].
      right. exact (Ht c msg eq_refl).
    + destruct (includes msg _); apply throws_throw; eexists _, _;
        (split; [reflexivity | simpl; tauto]).
    + apply throws_throw. eexists _, _. split; [reflexivity | simpl; tauto].
Qed.

(** X13. Every failure of findAcceptButtonSelector is an AppError, and its
    code is one of GENERIC_ANALYSIS_ERROR, API_KEY_INVALID, CONSENT_REQUIRED
    and CONFIG_FETCH_FAILED. *)
Theorem findAcceptButtonSelector_fails_with_app_error
    (h : Host) (html : jsstring) (w : World) (t : Thrown) :
  fst (findAcceptButtonSelector h html w) = Throw t ->
  exists c msg,
    t = AppErr c msg
    /\ (c = GENERIC_ANALYSIS_ERROR \/ c = API_KEY_INVALID
        \/ c = CONSENT_REQUIRED \/ c = CONFIG_FETCH_FAILED).
Proof.
  intros Ht.
  destruct (findAcceptButtonSelector_throws h html w t Ht) as (c & msg & -> & Hin).
  exists c, msg. split; [reflexivity |].
  simpl in Hin. intuition congruence.
Qed.

(** ** testApiKey *)

Lemma testApiKey_outcome (h : Host) (candidate : jsstring) (w : World) :
  (nonempty candidate = false ->
   testApiKey h candidate w
   = (Throw (AppErr API_KEY_INVALID (js "API Key cannot be empty.")), w))
  /\ (nonempty candidate = true ->
      snd (testApiKey h candidate w)
      = log (EvGenerateContent candidate (js "test")) w
      /\ fst (testApiKey h candidate w)
         = match models_generateContent h (trace w) candidate (js "test") with
           | inr _ => Ok tt
           | inl _ =>
               Throw (AppErr API_KEY_INVALID
                 (js "This API Key appears to be invalid or lacks permissions."))
           end).
Proof.
  unfold testApiKey. split; intros ->; [reflexivity |].
  unfold negb, try_catch, bind, generateContent. simpl.
  destruct (models_generateContent h (trace w) candidate (js "test"));
    split; reflexivity.
Qed.

(** ** sendEvent *)

(** X16. Under the free tier with consent, sendEvent posts one event that
    carries the event name, the payload and the current time, and returns
    normally whether the post succeeds or not. *)
Theorem sendEvent_posts_once_with_consent
    (h : Host) (event : jsstring) (payload : AnalyticsPayload) (w : World) :
  sync_lastError h (trace w) = None ->
  mode (settings_of h w) = FREE_AD_SUPPORTED ->
  consent (settings_of h w) = true ->
  sendEvent h event payload w
  = (Ok tt,
     log (EvFetchAnalytics
            {| a_event := event;
               a_status := pl_status payload;
               a_url := pl_url payload;
               a_banner_html_context := pl_banner_html_context payload;
               a_selector := pl_selector payload;
               a_reason := pl_reason payload;
               a_timestamp := Date_now h (trace w ++ [EvSyncGet]) |})
       (log EvSyncGet w)).
Proof.
  intros Herr Hm Hc. unfold sendEvent, bind at 1, getSettings. rewrite Herr.
  fold (settings_of h w). rewrite Hm, Hc. simpl.
  unfold try_catch, bind, ask, fetch_ANALYTICS. simpl.
  destruct (fetch_analytics_rejects h _); reflexivity.
Qed.

(** ** updateStatus *)

Lemma updateStatus_run h tabId patch w :
  updateStatus h tabId patch w
  = match session_set_rejects h (trace w) with
    | Some f =>
        (Throw (foreign f),
         log (EvSessionSetTab tabId (merged tabId patch w))
           (set_tabStates (<[tabId := merged tabId patch w]> (tabStates w)) w))
    | None =>
        (Ok tt,
         log (EvSendStatusUpdate (merged tabId patch w))
           (log (EvSessionSetTab tabId (merged tabId patch w))
              (set_sessionTabs
                 (<[tabId := merged tabId patch w]> (sessionTabs w))
                 (set_tabStates
                    (<[tabId := merged tabId patch w]> (tabStates w)) w))))
    end.
Proof.
  unfold updateStatus, bind, try_catch, ask, effect, session_set_tab,
    sendMessage_STATUS_UPDATE, merged. simpl.
  destruct (session_set_rejects h (trace w)); [reflexivity |]. simpl.
  destruct (runtime_sendMessage_lastError h _); reflexivity.
Qed.

(** X17. updateStatus lays the patch over the stored state of the tab (the
    initial state when there is none) and stores the result in memory.  When
    the session store accepts the write, the same state is persisted and
    then broadcast, and the call succeeds even if nobody listens.  When the
    session store rejects the write, the call fails with that error after
    the in-memory state has changed, and nothing is broadcast. *)
Theorem updateStatus_stores_persists_broadcasts
    (h : Host) (tabId : Z) (patch : StatusPatch) (w : World) :
  tabStates (snd (updateStatus h tabId patch w))
  = <[tabId := merged tabId patch w]> (tabStates w)
  /\ match session_set_rejects h (trace w) with
     | None =>
         fst (updateStatus h tabId patch w) = Ok tt
         /\ sessionTabs (snd (updateStatus h tabId patch w))
            = <[tabId := merged tabId patch w]> (sessionTabs w)
         /\ calls_between w (snd (updateStatus h tabId patch w))
            = [EvSessionSetTab tabId (merged tabId patch w);
               EvSendStatusUpdate (merged tabId patch w)]
     | Some f =>
         fst (updateStatus h tabId patch w) = Throw (foreign f)
         /\ sessionTabs (snd (updateStatus h tabId patch w)) = sessionTabs w
         /\ calls_between w (snd (updateStatus h tabId patch w))
            = [EvSessionSetTab tabId (merged tabId patch w)]
     end.
Proof.
  rewrite updateStatus_run. unfold calls_between.
  destruct (session_set_rejects h (trace w)); simpl;
    rewrite <- ?app_assoc, drop_app_length; auto.
Qed.

(** ** The states of the other tabs *)

#[local] Instance other_tabs_preorder tabId : PreOrder (other_tabs tabId).
Proof.
  split.
  - intros w t _. split; reflexivity.
  - intros a b c Hab Hbc t Ht.
    destruct (Hab t Ht) as [A1 A2], (Hbc t Ht) as [B1 B2]. split; congruence.
Qed.

Lemma same_tab_stores_other_tabs tabId w w' :
  same_tab_stores w w' -> other_tabs tabId w w'.
Proof. intros [H1 H2] t _. rewrite H1, H2. auto. Qed.

Lemma only_trace_other_tabs tabId w w' : only_trace w w' -> other_tabs tabId w w'.
Proof.
  intros H. apply same_tab_stores_other_tabs, only_trace_same_tab_stores, H.
Qed.

Lemma updateStatus_other_tabs h tabId patch :
  respects (other_tabs tabId) (updateStatus h tabId patch).
Proof.
  intros w t Ht. rewrite updateStatus_run.
  destruct (session_set_rejects h (trace w)); simpl;
    rewrite ?lookup_insert_ne by congruence; auto.
Qed.

(** ** The url of a tab *)

#[local] Instance keeps_url_preorder tabId : PreOrder (keeps_url tabId).
Proof.
  split.
  - intros w. reflexivity.
  - intros a b c Hab Hbc. unfold keeps_url in *. congruence.
Qed.

Lemma only_trace_keeps_url tabId w w' : only_trace w w' -> keeps_url tabId w w'.
Proof. intros (H1 & _). unfold keeps_url, url_at. rewrite H1. reflexivity. Qed.

Lemma same_tab_stores_keeps_url tabId w w' :
  same_tab_stores w w' -> keeps_url tabId w w'.
Proof. intros (H1 & _). unfold keeps_url, url_at. rewrite H1. reflexivity. Qed.

Lemma updateStatus_keeps_url h tabId patch :
  p_url patch = None -> respects (keeps_url tabId) (updateStatus h tabId patch).
Proof.
  intros Hp w. unfold keeps_url, url_at.
  rewrite updateStatus_tabStates, lookup_insert_eq.
  unfold spread. simpl. rewrite Hp. reflexivity.
Qed.

Lemma getAiInstance_other_tabs h tabId : respects (other_tabs tabId) (getAiInstance h).
Proof.
  apply (respects_weaken same_tab_stores _ (same_tab_stores_other_tabs tabId)),
    getAiInstance_same_tab_stores.
Qed.

Lemma getAiInstance_keeps_url h tabId : respects (keeps_url tabId) (getAiInstance h).
Proof.
  apply (respects_weaken same_tab_stores _ (same_tab_stores_keeps_url tabId)),
    getAiInstance_same_tab_stores.
Qed.

Lemma executeScan_other_tabs h tabId tabUrl :
  respects (other_tabs tabId) (executeScan h tabId tabUrl).
Proof.
  exact (executeScan_respects h (other_tabs tabId) (only_trace_other_tabs tabId)
           (getAiInstance_other_tabs h tabId) tabId
           (fun patch _ => updateStatus_other_tabs h tabId patch)
           tabUrl).
Qed.

(** ** The final state of a scan *)

Lemma scanSteps_ok h tabId tabUrl html w w' :
  scanSteps h tabId tabUrl html w = (Ok tt, w') ->
  exists st, tabStates w' !! tabId = Some st
             /\ (status st = SUCCESS \/ status st = NOT_FOUND).
Proof.
  unfold scanSteps. destruct (truthy_str html); [| discriminate]. simpl.
  unfold bind at 1.
  destruct (updateStatus h tabId (patch_status ANALYZING) w) as [[[] | t] w1];
    [| discriminate].
  unfold bind at 1.
  destruct (findAcceptButtonSelector h (render_opt html) w1) as [[sel | t] w2];
    [| discriminate].
  assert (Hlast : forall s w3 ev pl,
    bind (updateStatus h tabId (patch_status s)) (fun _ => sendEvent h ev pl) w3
    = (Ok tt, w') ->
    exists st, tabStates w' !! tabId = Some st /\ status st = s).
  { intros s w3 ev pl. unfold bind.
    pose proof (updateStatus_tabStates h tabId (patch_status s) w3) as Hu.
    destruct (updateStatus h tabId (patch_status s) w3) as [[[] | t] w4];
      [| discriminate].
    simpl in Hu. intros Hrun.
    pose proof (sendEvent_tabStates h ev pl w4) as Hs.
    rewrite Hrun in Hs. simpl in Hs. rewrite Hs, Hu, lookup_insert_eq.
    eexists. split; reflexivity. }
  destruct (truthy_str sel).
  - unfold bind at 1.
    destruct (executeScript_click h tabId (render_opt sel) w2)
      as [[[r |] | t] w3]; try discriminate.
    destruct (success r); [| discriminate].
    intros Hrun. destruct (Hlast _ _ _ _ Hrun) as (st & Hst & Hs). eauto.
  - intros Hrun. destruct (Hlast _ _ _ _ Hrun) as (st & Hst & Hs). eauto.
Qed.

Lemma analysis_error_in_scan_codes t :
  (exists c msg, t = AppErr c msg /\ In c analysis_codes) ->
  app_codes scan_codes t.
Proof.
  intros (c & msg & -> & Hin). apply app_codes_app. right. right. exact Hin.
Qed.

Lemma scanSteps_throws h tabId tabUrl html :
  throws_only (app_codes scan_codes) (scanSteps h tabId tabUrl html).
Proof.
  unfold scanSteps, trackScanSuccess, trackScanNotFound.
  repeat throws_step;
    try (apply app_codes_app; simpl; tauto);
    first
      [ apply updateStatus_throws
      | apply sendEvent_throws
      | apply executeScript_click_throws
      | idtac ].
  all: apply (throws_weaken _ _ _ analysis_error_in_scan_codes),
    findAcceptButtonSelector_throws.
Qed.

Lemma executeScript_outerHTML_throws h tabId cs :
  throws_only (app_codes cs) (executeScript_outerHTML h tabId).
Proof.
  intros w t. unfold executeScript_outerHTML.
  destruct (scripting_outerHTML _ _ _); intros [= <-]. apply app_codes_foreign.
Qed.

(** The state left by the catch block of executeScan. *)
Lemma scanFailed_state h tabId tabUrl html err w :
  app_codes scan_codes err ->
  exists st e,
    tabStates (snd (scanFailed h tabId tabUrl html err w)) !! tabId = Some st
    /\ status st = ERROR /\ error st = Some e /\ In (code e) scan_codes.
Proof.
  intros Herr. rewrite scanFailed_tabStates. eexists _, _.
  split; [reflexivity |]. split; [reflexivity |]. split; [reflexivity |].
  destruct err as [c msg | msg |]; simpl; [| tauto ..].
  exact (Herr c msg eq_refl).
Qed.

(** X21. Whatever happens during a scan, and whether or not executeScan
    itself fails, the state it leaves for the tab has the status Success,
    NotFound or Error, never Idle, Scanning or Analyzing; and a status
    Error comes with an error whose code is HTML_FETCH_FAILED, CLICK_FAILED,
    GENERIC_ANALYSIS_ERROR, API_KEY_INVALID, CONSENT_REQUIRED or
    CONFIG_FETCH_FAILED. *)
Theorem executeScan_ends_in_terminal_state
    (h : Host) (tabId : Z) (tabUrl : jsstring) (w : World) :
  exists st,
    tabStates (snd (executeScan h tabId tabUrl w)) !! tabId = Some st
    /\ terminal (status st) = true
    /\ (status st = ERROR ->
        exists e, error st = Some e /\ In (code e) scan_codes).
Proof.
  assert (Hfail : forall html err w1,
    app_codes scan_codes err ->
    exists st,
      tabStates (snd (scanFailed h tabId tabUrl html err w1)) !! tabId = Some st
      /\ terminal (status st) = true
      /\ (status st = ERROR ->
          exists e, error st = Some e /\ In (code e) scan_codes)).
  { intros html err w1 Herr.
    destruct (scanFailed_state h tabId tabUrl html err w1 Herr)
      as (st & e & Hst & Hs & He & Hc).
    exists st. rewrite Hs. eauto. }
  unfold executeScan.
  pose proof (executeScript_outerHTML_throws h tabId scan_codes w) as H0.
  destruct (executeScript_outerHTML h tabId w) as [[html | t] w1].
  - unfold try_catch.
    pose proof (scanSteps_throws h tabId tabUrl html w1) as H1.
    pose proof (scanSteps_ok h tabId tabUrl html w1) as H2.
    destruct (scanSteps h tabId tabUrl html w1) as [[[] | t] w2].
    + destruct (H2 w2 eq_refl) as (st & Hst & Hs). exists st.
      split; [exact Hst |].
      destruct Hs as [-> | ->]; split; try reflexivity; discriminate.
    + apply Hfail, H1. reflexivity.
  - apply Hfail, H0. reflexivity.
Qed.

(** X22. executeScan never stores the url it is given: the url of the
    state of the tab after the scan is the one stored before it, the empty
    string when the tab had no state. *)
Theorem executeScan_keeps_the_stored_url
    (h : Host) (tabId : Z) (tabUrl : jsstring) (w : World) :
  url_at tabId (snd (executeScan h tabId tabUrl w)) = url_at tabId w.
Proof.
  exact (executeScan_respects h (keeps_url tabId) (only_trace_keeps_url tabId)
           (getAiInstance_keeps_url h tabId) tabId
           (fun patch Hp => updateStatus_keeps_url h tabId patch Hp)
           tabUrl w).
Qed.

(** ** The session store mirrors the states held in memory *)

#[local] Instance keeps_mirrored_preorder : PreOrder keeps_mirrored.
Proof.
  split.
  - intros w H. exact H.
  - intros a b c Hab Hbc H. auto.
Qed.

Lemma same_tab_stores_keeps_mirrored w w' :
  same_tab_stores w w' -> keeps_mirrored w w'.
Proof. intros [H1 H2] H. unfold mirrored. rewrite H1, H2. exact H. Qed.

Lemma only_trace_keeps_mirrored w w' : only_trace w w' -> keeps_mirrored w w'.
Proof.
  intros H. apply same_tab_stores_keeps_mirrored, only_trace_same_tab_stores, H.
Qed.

Lemma updateStatus_keeps_mirrored h tabId patch :
  session_writable h -> respects keeps_mirrored (updateStatus h tabId patch).
Proof.
  intros Hset w Hm t st. rewrite updateStatus_run, (Hset (trace w)). simpl.
  destruct (decide (t = tabId)) as [-> | Hne].
  - rewrite !lookup_insert_eq. auto.
  - rewrite !lookup_insert_ne by congruence. apply Hm.
Qed.

Lemma getAiInstance_keeps_mirrored h : respects keeps_mirrored (getAiInstance h).
Proof.
  apply (respects_weaken same_tab_stores _ same_tab_stores_keeps_mirrored),
    getAiInstance_same_tab_stores.
Qed.

Lemma delete_keeps_mirrored tabId w :
  mirrored w ->
  mirrored (log (EvSessionRemoveTab tabId)
              (set_sessionTabs (delete tabId (sessionTabs w))
                 (set_tabStates (delete tabId (tabStates w)) w))).
Proof.
  intros Hm t st. simpl.
  destruct (decide (t = tabId)) as [-> | Hne].
  - rewrite lookup_delete_eq. discriminate.
  - rewrite !lookup_delete_ne by congruence. apply Hm.
Qed.

Lemma save_same_tab_stores h r w : same_tab_stores w (snd (save h r w)).
Proof.
  destruct r; unfold save, saveOperatingMode, saveUserApiKey, saveConsent,
    sync_set; destruct (sync_lastError h (trace w)); split; reflexivity.
Qed.

Lemma dispatch_keeps_mirrored h t w :
  session_writable h -> mirrored w -> mirrored (dispatch h t w).
Proof.
  intros Hset Hinv.
  destruct t as [tab | type sender | tabId loading | tabId | r |];
    unfold dispatch.
  - exact (onActionClicked_respects h keeps_mirrored only_trace_keeps_mirrored
             (getAiInstance_keeps_mirrored h)
             (fun tabId patch => updateStatus_keeps_mirrored h tabId patch Hset)
             tab w Hinv).
  - exact (onMessage_respects h keeps_mirrored only_trace_keeps_mirrored
             (getAiInstance_keeps_mirrored h)
             (fun tabId patch => updateStatus_keeps_mirrored h tabId patch Hset)
             type sender w Hinv).
  - unfold onTabUpdated. destruct loading; [| exact Hinv].
    apply delete_keeps_mirrored, Hinv.
  - apply delete_keeps_mirrored, Hinv.
  - pose proof (same_tab_stores_keeps_mirrored _ _ (save_same_tab_stores h r w) Hinv)
      as H1.
    destruct (changed_keys _ _) as [| c cs] eqn:Hch; [exact H1 |].
    rewrite <- Hch, changed_keys_watched by (rewrite Hch; discriminate).
    exact H1.
  - intros tabId st. simpl. rewrite lookup_empty. discriminate.
Qed.

(** X18. As long as the session store accepts every write, in every
    reachable state each tab state held in memory is also the state held in
    the session store for that tab. *)
Theorem session_store_mirrors_tab_states
    (h : Host) (w : World) (tabId : Z) (st : StatusUpdatePayload) :
  session_writable h ->
  reachable h w ->
  tabStates w !! tabId = Some st ->
  sessionTabs w !! tabId = Some st.
Proof.
  intros Hset Hreach. revert tabId st.
  induction Hreach as [| w t _ IH].
  - intros tabId st. simpl. rewrite lookup_empty. discriminate.
  - apply dispatch_keeps_mirrored; assumption.
Qed.

(** ** A scan contains the failures of its collaborators *)

Lemma updateStatus_ok h tabId patch w :
  session_writable h -> fst (updateStatus h tabId patch w) = Ok tt.
Proof. intros Hset. rewrite updateStatus_run, (Hset (trace w)). reflexivity. Qed.

Lemma sendEvent_ok h event payload w :
  settings_readable h -> fst (sendEvent h event payload w) = Ok tt.
Proof.
  intros Hget. unfold sendEvent, bind at 1, getSettings.
  rewrite (Hget (trace w)).
  destruct (_ || _); [reflexivity |].
  unfold try_catch, bind, ask, fetch_ANALYTICS. simpl.
  destruct (fetch_analytics_rejects h _); reflexivity.
Qed.

Lemma scanFailed_ok h tabId tabUrl html err w :
  session_writable h -> settings_readable h ->
  fst (scanFailed h tabId tabUrl html err w) = Ok tt.
Proof.
  intros Hset Hget. unfold scanFailed, bind, trackScanError.
  pose proof (updateStatus_ok h tabId
    {| p_status := Some ERROR; p_url := None;
       p_error := Some (Some
         match err with
         | AppErr c msg => {| code := c; message := msg |}
         | _ => {| code := GENERIC_ANALYSIS_ERROR;
                   message := js "An unknown error occurred during the scan." |}
         end) |} w Hset) as Hu.
  destruct (updateStatus h tabId _ w) as [[[] | t] w1]; [| discriminate].
  apply sendEvent_ok, Hget.
Qed.

(** X26. As long as the session store accepts every write and the
    settings can be read, executeScan returns normally: a failure of the
    page, of the analysis, of the configuration server, of the click or of
    the analytics endpoint ends in the state of the tab, not in a rejected
    promise. *)
Theorem executeScan_contains_failures
    (h : Host) (tabId : Z) (tabUrl : jsstring) (w : World) :
  session_writable h ->
  settings_readable h ->
  fst (executeScan h tabId tabUrl w) = Ok tt.
Proof.
  intros Hset Hget. unfold executeScan.
  destruct (executeScript_outerHTML h tabId w) as [[html | t] w1].
  - unfold try_catch.
    destruct (scanSteps h tabId tabUrl html w1) as [[[] | t] w2];
      [reflexivity |].
    apply scanFailed_ok; assumption.
  - apply scanFailed_ok; assumption.
Qed.

(** ** The footprint of a scan *)

Lemma substring0_length n s : (length (substring0 n s) <= N.to_nat n)%nat.
Proof. unfold substring0. rewrite length_firstn. lia. Qed.

Lemma findAcceptButtonSelector_calls h p html :
  p EvAnalysisGateway = true ->
  (forall e, client_calls e = true -> p e = true) ->
  (forall k, p (EvGenerateContent k (gateway_prompt h html)) = true) ->
  respects (evolves p) (findAcceptButtonSelector h html).
Proof.
  intros Hgate Hclient Hprompt. unfold findAcceptButtonSelector.
  respects_walk.
  - apply (respects_weaken (quiet _) (evolves _) (quiet_evolves _)),
      log_quiet, Hgate.
  - apply getAiInstance_evolves, Hclient.
  - apply (respects_weaken (quiet _) (evolves _) (quiet_evolves _)),
      generateContent_quiet, Hprompt.
Qed.

Lemma sendEvent_calls h p event payload :
  p EvSyncGet = true ->
  (forall now,
      p (EvFetchAnalytics
           {| a_event := event;
              a_status := pl_status payload;
              a_url := pl_url payload;
              a_banner_html_context := pl_banner_html_context payload;
              a_selector := pl_selector payload;
              a_reason := pl_reason payload;
              a_timestamp := now |}) = true) ->
  respects (quiet p) (sendEvent h event payload).
Proof.
  intros H1 H2. unfold sendEvent. respects_walk.
  - apply getSettings_quiet, H1.
  - apply fetch_ANALYTICS_quiet, H2.
Qed.

Lemma scan_call_prompt h tabId tabUrl html k :
  scan_call h tabId tabUrl (EvGenerateContent k (gateway_prompt h html)) = true.
Proof.
  unfold scan_call, gateway_prompt. apply Nat.leb_le.
  rewrite !length_app. pose proof (substring0_length 30000 html). simpl. lia.
Qed.

Lemma scan_call_post h tabId tabUrl html status sel why now :
  scan_call h tabId tabUrl
    (EvFetchAnalytics
       {| a_event := js "scan_result";
          a_status := status;
          a_url := tabUrl;
          a_banner_html_context :=
            if truthy_str html
            then Some (substring0 30000 (render_opt html)) else None;
          a_selector := sel;
          a_reason := why;
          a_timestamp := now |}) = true.
Proof.
  unfold scan_call. cbn [a_url a_event a_banner_html_context].
  rewrite !bool_decide_eq_true_2 by reflexivity. simpl.
  apply Nat.leb_le. destruct (truthy_str html); simpl.
  - apply substring0_length.
  - lia.
Qed.

Ltac scan_leaf h tabId tabUrl :=
  first
    [ apply findAcceptButtonSelector_calls;
      [ reflexivity
      | intros e He; destruct e; try reflexivity; discriminate He
      | intros; apply scan_call_prompt ]
    | apply (respects_weaken (quiet _) (evolves _) (quiet_evolves _));
      first
        [ apply updateStatus_quiet; intros; simpl;
          first [ reflexivity | apply bool_decide_eq_true_2; reflexivity ]
        | apply executeScript_click_quiet; simpl;
          apply bool_decide_eq_true_2; reflexivity
        | apply sendEvent_calls; [reflexivity | intros now] ] ].

Lemma scanFailed_footprint h tabId tabUrl html err :
  respects (evolves (scan_call h tabId tabUrl))
    (scanFailed h tabId tabUrl html err).
Proof.
  unfold scanFailed, trackScanError. respects_walk; scan_leaf h tabId tabUrl.
  apply scan_call_post.
Qed.

Lemma scanSteps_footprint h tabId tabUrl html :
  respects (evolves (scan_call h tabId tabUrl))
    (scanSteps h tabId tabUrl html).
Proof.
  unfold scanSteps, trackScanSuccess, trackScanNotFound.
  destruct (truthy_str html) eqn:Hhtml; simpl; [| respects_step].
  respects_walk; scan_leaf h tabId tabUrl.
  - pose proof (scan_call_post h tabId tabUrl html) as H.
    rewrite Hhtml in H. apply H.
  - pose proof (scan_call_post h tabId tabUrl html) as H.
    rewrite Hhtml in H. apply H.
Qed.

Lemma executeScan_scan_calls h tabId tabUrl :
  respects (evolves (scan_call h tabId tabUrl)) (executeScan h tabId tabUrl).
Proof.
  intros w. unfold executeScan.
  assert (H0 : evolves (scan_call h tabId tabUrl) w
                 (snd (executeScript_outerHTML h tabId w))).
  { apply quiet_evolves, executeScript_outerHTML_quiet. simpl.
    apply bool_decide_eq_true_2. reflexivity. }
  destruct (executeScript_outerHTML h tabId w) as [[html | t] w1];
    simpl in H0; (etransitivity; [exact H0 |]).
  - exact (respects_try_catch _ _ _
             (scanSteps_footprint h tabId tabUrl html)
             (fun t => scanFailed_footprint h tabId tabUrl html t) w1).
  - apply scanFailed_footprint.
Qed.

(** X24. Every call a scan makes is within its footprint: scripts are
    injected into the scanned tab and states are written for that tab only;
    the prompt carries at most 30000 code units of the page after the fixed
    instruction; an analytics event is a scan result for the url of the scan
    with at most 30000 code units of the page; no tab is queried, no
    options page is opened and no session state is removed.  The settings
    are read and never written, and the state of every other tab is as it
    was, in memory and in the session store. *)
Theorem executeScan_footprint
    (h : Host) (tabId : Z) (tabUrl : jsstring) (w : World) :
  forallb (scan_call h tabId tabUrl)
    (calls_between w (snd (executeScan h tabId tabUrl w))) = true
  /\ syncStore (snd (executeScan h tabId tabUrl w)) = syncStore w
  /\ (forall t, t <> tabId ->
        tabStates (snd (executeScan h tabId tabUrl w)) !! t = tabStates w !! t
        /\ sessionTabs (snd (executeScan h tabId tabUrl w)) !! t
           = sessionTabs w !! t).
Proof.
  pose proof (executeScan_scan_calls h tabId tabUrl w) as H.
  split; [apply evolves_calls, H |].
  split; [apply H |].
  exact (executeScan_other_tabs h tabId tabUrl w).
Qed.

(** ** A scan posts at most one analytics event *)

Lemma posts_app l1 l2 : posts (l1 ++ l2) = posts l1 ++ posts l2.
Proof. apply List.filter_app. Qed.

Lemma posts_none l : forallb not_analytics_post l = true -> posts l = [].
Proof.
  induction l as [| e l IH]; [reflexivity |]. simpl.
  unfold not_analytics_post at 1. intros H. apply andb_prop in H as [He Hl].
  destruct (is_analytics_post e); [discriminate | apply IH, Hl].
Qed.

Lemma sendEvent_run h event payload w :
  sendEvent h event payload w
  = match sync_lastError h (trace w) with
    | Some msg => (Throw (JsErr msg), log EvSyncGet w)
    | None =>
        if analytics_enabled (settings_of h w)
        then (Ok tt,
              log (EvFetchAnalytics
                     {| a_event := event;
                        a_status := pl_status payload;
                        a_url := pl_url payload;
                        a_banner_html_context := pl_banner_html_context payload;
                        a_selector := pl_selector payload;
                        a_reason := pl_reason payload;
                        a_timestamp := Date_now h (trace w ++ [EvSyncGet]) |})
                (log EvSyncGet w))
        else (Ok tt, log EvSyncGet w)
    end.
Proof.
  unfold sendEvent, bind at 1, getSettings, analytics_enabled.
  destruct (sync_lastError h (trace w)); [reflexivity |].
  fold (settings_of h w).
  destruct (bool_decide _), (consent (settings_of h w)); try reflexivity.
  unfold try_catch, bind, ask, fetch_ANALYTICS. simpl.
  destruct (fetch_analytics_rejects h _); reflexivity.
Qed.

(** The posts of one run of sendEvent: at most one, and none when it
    fails. *)
Lemma sendEvent_posts h event payload w :
  exists l,
    trace (snd (sendEvent h event payload w)) = trace w ++ l
    /\ (length (posts l) <= 1)%nat
    /\ (forall t, fst (sendEvent h event payload w) = Throw t -> posts l = []).
Proof.
  rewrite sendEvent_run.
  destruct (sync_lastError h (trace w)); [| destruct (analytics_enabled _)].
  - exists [EvSyncGet]. simpl. auto.
  - eexists [EvSyncGet; _]. simpl. rewrite <- app_assoc.
    split; [reflexivity |]. split; [unfold posts; simpl; lia | discriminate].
  - exists [EvSyncGet]. simpl. auto.
Qed.

Lemma posts_last_bind {A} h (m : M A) (k : A -> M unit) :
  respects (evolves not_analytics_post) m ->
  (forall a, posts_last h (k a)) ->
  posts_last h (bind m k).
Proof.
  intros Hm Hk w. unfold bind. specialize (Hm w).
  destruct (m w) as [[a | t] w1]; simpl in Hm.
  - destruct (Hk a w1) as (w' & Hw' & Hrun).
    exists w'. split; [etransitivity; eassumption | exact Hrun].
  - exists w1. split; [exact Hm | eauto].
Qed.

Lemma posts_last_throw h t : posts_last h (throw t).
Proof. intros w. exists w. split; [reflexivity | eauto]. Qed.

Lemma posts_last_sendEvent h event payload : posts_last h (sendEvent h event payload).
Proof. intros w. exists w. split; [reflexivity | eauto]. Qed.

Ltac posts_step :=
  lazymatch goal with
  | |- posts_last _ (throw _) => apply posts_last_throw
  | |- posts_last _ (sendEvent _ _ _) => apply posts_last_sendEvent
  | |- posts_last _ (bind _ _) => apply posts_last_bind; [| intros ?]
  | |- posts_last _ (match ?x with _ => _ end) => destruct x
  | |- posts_last _ (if ?b then _ else _) => destruct b
  end.

Ltac no_post_leaf :=
  first
    [ apply findAcceptButtonSelector_evolves;
      intros e He; destruct e; try reflexivity; discriminate He
    | apply (respects_weaken (quiet _) (evolves _) (quiet_evolves _));
      first
        [ apply updateStatus_quiet; intros; reflexivity
        | apply executeScript_click_quiet; reflexivity ] ].

Lemma scanSteps_posts_last h tabId tabUrl html :
  posts_last h (scanSteps h tabId tabUrl html).
Proof.
  unfold scanSteps, trackScanSuccess, trackScanNotFound.
  repeat posts_step; no_post_leaf.
Qed.

Lemma scanFailed_posts_last h tabId tabUrl html err :
  posts_last h (scanFailed h tabId tabUrl html err).
Proof.
  unfold scanFailed, trackScanError. repeat posts_step; no_post_leaf.
Qed.

(** The posts of a run that posts last. *)
Lemma posts_last_run h (m : M unit) w :
  posts_last h m ->
  exists l,
    trace (snd (m w)) = trace w ++ l
    /\ (length (posts l) <= 1)%nat
    /\ (forall t, fst (m w) = Throw t -> posts l = []).
Proof.
  intros Hm. destruct (Hm w) as (w' & [_ (l & Hl & Hno)] & Hrun).
  apply posts_none in Hno.
  destruct Hrun as [[t Hrun] | (event & payload & Hrun)]; rewrite Hrun.
  - exists l. simpl. rewrite Hno. auto.
  - destruct (sendEvent_posts h event payload w') as (l' & Hl' & Hle & Hthrow).
    exists (l ++ l'). rewrite Hl', Hl, <- app_assoc, posts_app, Hno.
    auto.
Qed.

(** X25. A scan posts at most one analytics event, also when the tracking
    of a result fails and the scan goes on to record an error. *)
Theorem executeScan_posts_at_most_once
    (h : Host) (tabId : Z) (tabUrl : jsstring) (w : World) :
  (length (posts (calls_between w (snd (executeScan h tabId tabUrl w)))) <= 1)%nat.
Proof.
  assert (Hgoal : forall w' l,
    trace w' = trace w ++ l -> (length (posts l) <= 1)%nat ->
    (length (posts (calls_between w w')) <= 1)%nat).
  { intros w' l Hl Hle. unfold calls_between. rewrite Hl, drop_app_length.
    exact Hle. }
  unfold executeScan, executeScript_outerHTML.
  set (w1 := log (EvExecuteScriptOuterHTML tabId) w).
  assert (Hfail : forall html t w2 l,
    trace w2 = trace w1 ++ l -> posts l = [] ->
    (length (posts (calls_between w
       (snd (scanFailed h tabId tabUrl html t w2)))) <= 1)%nat).
  { intros html t w2 l Hl Hno.
    destruct (posts_last_run h _ w2 (scanFailed_posts_last h tabId tabUrl html t))
      as (l' & Hl' & Hle & _).
    apply (Hgoal _ ([EvExecuteScriptOuterHTML tabId] ++ l ++ l')).
    - rewrite Hl', Hl. unfold w1. simpl. rewrite <- !app_assoc. reflexivity.
    - rewrite !posts_app, Hno. exact Hle. }
  destruct (scripting_outerHTML h (trace w) tabId) as [f | html].
  - apply (Hfail None (foreign f) w1 []); [rewrite app_nil_r |]; reflexivity.
  - unfold try_catch.
    destruct (posts_last_run h _ w1 (scanSteps_posts_last h tabId tabUrl html))
      as (l & Hl & Hle & Hthrow).
    destruct (scanSteps h tabId tabUrl html w1) as [[[] | t] w2]; simpl in *.
    + apply (Hgoal _ ([EvExecuteScriptOuterHTML tabId] ++ l)).
      * rewrite Hl. unfold w1. simpl. rewrite <- app_assoc. reflexivity.
      * rewrite posts_app. exact Hle.
    + apply (Hfail html t w2 l Hl). apply (Hthrow t). reflexivity.
Qed.

(** ** The status request *)

Lemma GET_STATUS_of_sender h sender tabId w :
  tab_id sender = Some tabId -> tabId <> 0%Z ->
  onMessage h GET_STATUS (Some sender) w
  = (Ok (Some (default (getInitialState (default [] (tab_url sender)))
                 (tabStates w !! tabId))), w).
Proof.
  intros Hid Hne. apply Z.eqb_neq in Hne.
  destruct sender as [id u]. simpl in Hid. subst id.
  unfold onMessage, try_catch, messageHandler, bind, ret, ask, truthy_id.
  simpl. repeat (rewrite Hne; simpl).
  destruct (tabStates w !! tabId); reflexivity.
Qed.

(** X19. A status request sent from a tab reads back what updateStatus
    stored for that tab; after the tab has been closed, or has started to
    load, it reads the initial state with the url of the sender. *)
Theorem status_request_reads_the_stored_state
    (h : Host) (sender : Tab) (tabId : Z) (patch : StatusPatch) (w : World) :
  tab_id sender = Some tabId ->
  tabId <> 0%Z ->
  fst (onMessage h GET_STATUS (Some sender) (snd (updateStatus h tabId patch w)))
  = Ok (Some (merged tabId patch w))
  /\ fst (onMessage h GET_STATUS (Some sender) (snd (onTabRemoved tabId w)))
     = Ok (Some (getInitialState (default [] (tab_url sender))))
  /\ fst (onMessage h GET_STATUS (Some sender) (snd (onTabUpdated tabId true w)))
     = Ok (Some (getInitialState (default [] (tab_url sender)))).
Proof.
  intros Hid Hne. rewrite !(GET_STATUS_of_sender h sender tabId) by assumption.
  simpl. rewrite updateStatus_tabStates, lookup_insert_eq, lookup_delete_eq.
  auto.
Qed.

(** X20. A status request changes no state of the service worker.  When
    the sender carries a tab id that is not zero it makes no call at all;
    in every other case it makes exactly one call, the query for the
    active tab. *)
Theorem status_request_changes_nothing
    (h : Host) (sender : option Tab) (w : World) :
  only_trace w (snd (onMessage h GET_STATUS sender w))
  /\ calls_between w (snd (onMessage h GET_STATUS sender w))
     = (if truthy_id (sender ≫= tab_id) then [] else [EvTabsQuery])
  /\ (truthy_id (sender ≫= tab_id) = true ->
      snd (onMessage h GET_STATUS sender w) = w).
Proof.
  assert (Hrun :
    snd (onMessage h GET_STATUS sender w)
    = if truthy_id (sender ≫= tab_id) then w else log EvTabsQuery w).
  { unfold onMessage, try_catch, messageHandler.
    destruct (truthy_id (sender ≫= tab_id)) eqn:Hid.
    - unfold bind at 1, ret at 1. cbv beta iota. rewrite Hid.
      unfold bind, ask, ret. simpl.
      destruct (tabStates w !! default 0%Z (sender ≫= tab_id)); reflexivity.
    - unfold bind at 1 2, tabs_query.
      destruct (tabs_query_active h (trace w)) as [f | t]; [reflexivity |].
      unfold ret at 1. cbv beta iota.
      destruct (truthy_id (t ≫= tab_id)); [| reflexivity].
      unfold bind, ask, ret. simpl.
      destruct (tabStates w !! default 0%Z (t ≫= tab_id)); reflexivity. }
  rewrite Hrun. destruct (truthy_id (sender ≫= tab_id)).
  - split; [reflexivity |]. split; [| reflexivity].
    unfold calls_between. apply drop_all.
  - split; [repeat split |]. split; [| discriminate].
    unfold calls_between. simpl. apply drop_app_length.
Qed.

(** ** A change of settings empties the credential cache *)

(** X12. A save of the options page that changes a stored setting leaves
    the credential cache empty, through the storage listener of
    background.ts; a save that changes nothing leaves the cache as it
    was. *)
Theorem settings_change_invalidates_client
    (h : Host) (r : SaveRequest) (w : World) :
  (syncStore (dispatch h (SettingsSaved r) w) <> syncStore w ->
   cachedAiInstance (dispatch h (SettingsSaved r) w) = None
   /\ cachedSettingsKey (dispatch h (SettingsSaved r) w) = None)
  /\ (syncStore (dispatch h (SettingsSaved r) w) = syncStore w ->
      same_cache w (dispatch h (SettingsSaved r) w)).
Proof.
  unfold dispatch.
  pose proof (save_only_cache h r w) as Hc.
  destruct (changed_keys _ _) as [| c cs] eqn:Hch.
  - apply changed_keys_none in Hch. split; [congruence | auto].
  - rewrite <- Hch, changed_keys_watched by (rewrite Hch; discriminate).
    split; [auto |]. simpl. intros Hs. exfalso.
    rewrite <- Hs in Hch. unfold changed_keys in Hch.
    rewrite !bool_decide_eq_true_2 in Hch by reflexivity. discriminate.
Qed.

(** ** The action click *)

(** X29. A click on the action of a tab that has an id and a url first
    writes, before any other call, the state Scanning with the url of the
    tab and no error. *)
Theorem onActionClicked_first_stores_scanning
    (h : Host) (tab : Tab) (tabId : Z) (w : World) :
  tab_id tab = Some tabId ->
  tabId <> 0%Z ->
  truthy_str (tab_url tab) = true ->
  exists rest,
    calls_between w (snd (onActionClicked h tab w))
    = EvSessionSetTab tabId
        {| status := SCANNING; url := tab_url tab; error := None |} :: rest.
Proof.
  intros Hid Hne Hurl. apply Z.eqb_neq in Hne.
  unfold onActionClicked, truthy_id. rewrite Hid, Hurl, Hne. simpl.
  unfold bind. rewrite updateStatus_run. unfold merged, spread. simpl.
  set (st := {| status := SCANNING; url := tab_url tab; error := None |}).
  destruct (session_set_rejects h (trace w)).
  - exists []. unfold calls_between. simpl. apply drop_app_length.
  - match goal with
    | |- context [fire_and_forget ?m ?w1] =>
        assert (H : evolves any_call w1 (snd (fire_and_forget m w1)))
    end.
    { unfold fire_and_forget. apply respects_try_catch; [typeclasses eauto | |].
      - apply (respects_weaken (evolves (scan_call h tabId (render_opt (tab_url tab))))
                 (evolves any_call)
                 (fun w w' => evolves_mono _ any_call w w' (fun _ _ => eq_refl))).
        apply executeScan_scan_calls.
      - intros t. apply respects_ret. typeclasses eauto. }
    destruct H as [_ (l & Hl & _)]. exists (EvSendStatusUpdate st :: l).
    unfold calls_between. rewrite Hl. simpl.
    rewrite <- !app_assoc. apply drop_app_length.
Qed.

(** ** A response without a fence *)

Lemma fenceRegex_needs_start input s c k :
  length s <> length input -> rmatch fenceRegex input s c k = None.
Proof.
  intros Hlen. unfold fenceRegex. rewrite rmatch_seq. cbn [rmatch].
  apply Nat.eqb_neq in Hlen. rewrite Hlen. reflexivity.
Qed.

Lemma fenceRegex_needs_backtick input s c k :
  head s <> Some backtick -> rmatch fenceRegex input s c k = None.
Proof.
  intros Hhead. unfold fenceRegex. rewrite rmatch_seq. cbn [rmatch].
  destruct (length s =? length input)%nat; [| reflexivity].
  unfold rlit at 1. rewrite rmatch_class.
  destruct s as [| x s']; [reflexivity |].
  destruct (N.eqb_spec backtick x) as [<- | _]; [| reflexivity].
  exfalso. apply Hhead. reflexivity.
Qed.

Lemma match_from_later fuel input s :
  (length s < length input)%nat -> match_from fuel fenceRegex input s = None.
Proof.
  revert s. induction fuel as [| f IH]; intros s Hlen; cbn [match_from];
    rewrite fenceRegex_needs_start by lia; unfold or_else.
  - reflexivity.
  - destruct s as [| x s']; [reflexivity |]. apply IH. simpl in Hlen. lia.
Qed.

Lemma regex_match_unfenced input :
  head input <> Some backtick -> regex_match fenceRegex input = None.
Proof.
  intros Hhead. unfold regex_match.
  destruct (length input) eqn:Hlen; cbn [match_from];
    rewrite fenceRegex_needs_backtick by exact Hhead; unfold or_else.
  - reflexivity.
  - destruct input as [| x s']; [reflexivity |].
    apply match_from_later. simpl. lia.
Qed.

(** X14. A response that, once trimmed, does not begin with a backtick
    matches no fence: what is handed to JSON.parse is the trimmed
    response. *)
Theorem stripFence_keeps_unfenced_text (text : jsstring) :
  head (trim text) <> Some backtick ->
  stripFence text = trim text.
Proof.
  intros Hhead. unfold stripFence.
  rewrite regex_match_unfenced by exact Hhead. reflexivity.
Qed.

(** ** A click that fails *)

(** X27. When the analysis has found a selector and the injected click
    reports a failure, or reports nothing, the scan leaves the tab in the
    Error state with the code CLICK_FAILED; the message is the reason the
    page gave, or a fixed text when the reason is empty or missing. *)
Theorem failed_click_is_reported
    (h : Host) (w : World) (tabId : Z) (tabUrl html sel : jsstring)
    (w2 w3 : World) (r : option ClickResult) :
  scripting_outerHTML h (trace w) tabId = inr (Some html) ->
  nonempty html = true ->
  updateStatus h tabId (patch_status ANALYZING)
    (log (EvExecuteScriptOuterHTML tabId) w) = (Ok tt, w2) ->
  findAcceptButtonSelector h html w2 = (Ok (Some sel), w3) ->
  nonempty sel = true ->
  scripting_click h (trace w3) tabId sel = inr r ->
  click_failed r = true ->
  exists st,
    tabStates (snd (executeScan h tabId tabUrl w)) !! tabId = Some st
    /\ status st = ERROR
    /\ error st = Some {| code := CLICK_FAILED;
                          message := click_failure_message r |}.
Proof.
  intros Hhtml Hne Hup Hsel Hsne Hclick Hfail.
  set (w4 := log (EvExecuteScriptClick tabId sel) w3).
  assert (Hrun : executeScan h tabId tabUrl w
    = scanFailed h tabId tabUrl (Some html)
        (AppErr CLICK_FAILED (click_failure_message r)) w4).
  { unfold executeScan, executeScript_outerHTML. rewrite Hhtml.
    unfold try_catch, scanSteps. simpl. rewrite Hne. simpl.
    unfold bind at 1. rewrite Hup. unfold bind at 1. rewrite Hsel.
    simpl. rewrite Hsne. unfold bind at 1, executeScript_click.
    rewrite Hclick. fold w4.
    destruct r as [c |]; simpl in *; [| reflexivity].
    destruct (success c); [discriminate | reflexivity]. }
  rewrite Hrun. eexists. split; [apply scanFailed_tabStates |].
  split; reflexivity.
Qed.

(** ** The options page *)

(** X15. The Test Key handler of the options page never rejects.  For an
    empty key it reports a failure without any call.  For a non-empty key
    it makes exactly one call, to the remote model with the candidate key
    and the text test, and reports success when that call succeeds and
    otherwise one fixed failure message, whatever the call threw: the text
    of the original error and the fallback for an unknown error are never
    shown. *)
Theorem handleTestKey_reports_the_test
    (h : Host) (apiKey : jsstring) (w : World) :
  (nonempty apiKey = false ->
   OptionsContext.handleTestKey h apiKey w
   = (Ok {| OptionsContext.success := false;
            OptionsContext.message := js "API Key cannot be empty." |}, w))
  /\ (nonempty apiKey = true ->
      OptionsContext.handleTestKey h apiKey w
      = (Ok (match models_generateContent h (trace w) apiKey (js "test") with
             | inr _ =>
                 {| OptionsContext.success := true;
                    OptionsContext.message :=
                      js "Success! This API key is valid." |}
             | inl _ =>
                 {| OptionsContext.success := false;
                    OptionsContext.message :=
                      js "This API Key appears to be invalid or lacks permissions." |}
             end),
         log (EvGenerateContent apiKey (js "test")) w)).
Proof.
  destruct (testApiKey_outcome h apiKey w) as [Hempty Hcall].
  unfold OptionsContext.handleTestKey, try_catch, bind.
  split; intros Hk.
  - rewrite (Hempty Hk). reflexivity.
  - destruct (Hcall Hk) as [Hw Hr].
    destruct (testApiKey h apiKey w) as [r w']. simpl in Hw, Hr. subst w' r.
    destruct (models_generateContent h (trace w) apiKey (js "test"));
      reflexivity.
Qed.

Lemma storage_changed_syncStore old new :
  syncStore (storage_changed old new) = syncStore new.
Proof.
  unfold storage_changed, onStorageChanged, resetAiInstanceCache, effect, ret.
  destruct (changed_keys (syncStore old) (syncStore new)); [reflexivity |].
  destruct (bool_decide _); [| reflexivity].
  destruct (existsb _ _); reflexivity.
Qed.

Lemma page_handler_mode h e st w r w1 :
  rendered e st = true ->
  page_handler h e st w = (r, w1) ->
  (operatingMode (syncStore w1) = operatingMode (syncStore w)
   \/ (operatingMode (syncStore w1) = Some PRO /\ no_purchase e = false)
   \/ (exists m s, e = ModeChosen m /\ m <> PRO
                   /\ operatingMode (syncStore w1) = Some m
                   /\ OptionsContext.settings st = Some s /\ mode s <> PRO))
  /\ match r with
     | Ok st' =>
         OptionsContext.settings st' = OptionsContext.settings st
         \/ OptionsContext.settings st' = Some (readSettings h (syncStore w1))
     | Throw _ => True
     end.
Proof.
  intros Hshown.
  destruct e as [| newMode | apiKey | isEnabled | purchase |]; simpl;
    unfold OptionsContext.mount, OptionsContext.handleModeChange,
      OptionsContext.handleSaveKey, OptionsContext.handleConsentChange,
      OptionsContext.handleUpgradeToPro,
      saveOperatingMode, saveUserApiKey, saveConsent, sync_set, getSettings,
      bind, try_catch, ret.
  - destruct (sync_lastError h (trace w)); intros [= <- <-]; simpl; auto.
  - destruct (bool_decide (newMode = PRO)) eqn:Hn; simpl.
    { intros [= <- <-]. auto. }
    destruct (bool_decide (mode <$> OptionsContext.settings st = Some PRO))
      eqn:Hp; simpl.
    { intros [= <- <-]. auto. }
    apply bool_decide_eq_false in Hn, Hp.
    simpl in Hshown. apply bool_decide_eq_true in Hshown.
    destruct (OptionsContext.settings st) as [s |] eqn:Hs; [| congruence].
    assert (Hs' : mode s <> PRO) by (intros Hm; apply Hp; simpl; congruence).
    destruct (sync_lastError h (trace w)); simpl.
    { intros [= <- <-]. simpl. auto. }
    destruct (sync_lastError h _); intros [= <- <-]; simpl;
      (split; [right; right; exists newMode, s; repeat split; auto | auto]).
  - destruct (nonempty apiKey); simpl.
    + destruct (sync_lastError h (trace w)); simpl.
      { intros [= <- <-]. simpl. auto. }
      destruct (sync_lastError h _); intros [= <- <-]; simpl; auto.
    + intros [= <- <-]. simpl. auto.
  - destruct (sync_lastError h (trace w)); simpl.
    { intros [= <- <-]. simpl. auto. }
    destruct (sync_lastError h _); intros [= <- <-]; simpl; auto.
  - destruct purchase as [| | msg]; simpl.
    + destruct (sync_lastError h (trace w)); simpl.
      { intros [= <- <-]. simpl. auto. }
      destruct (sync_lastError h _); intros [= <- <-]; simpl; auto.
    + destruct (sync_lastError h (trace w)); simpl.
      { intros [= <- <-]. simpl. auto. }
      destruct (sync_lastError h _); intros [= <- <-]; simpl; auto.
    + intros [= <- <-]. simpl. auto.
  - intros [= <- <-]. simpl. auto.
Qed.

Lemma page_step_mode h e st w :
  mode_step h e st w (fst (page_step h e (st, w))) (snd (page_step h e (st, w))).
Proof.
  unfold page_step.
  destruct (rendered e st) eqn:Hshown; [| split; left; reflexivity].
  destruct (page_handler h e st w) as [r w1] eqn:Hrun.
  destruct (page_handler_mode h e st w r w1 Hshown Hrun) as [Hmode Hpage].
  unfold mode_step, settings_of.
  destruct r as [st' | t]; simpl; rewrite storage_changed_syncStore;
    (split; [exact Hmode | auto]).
Qed.

Lemma readSettings_pro h s :
  mode (readSettings h s) = PRO <-> operatingMode s = Some PRO.
Proof.
  unfold readSettings. simpl. destruct (operatingMode s) as [m |]; simpl.
  - split; congruence.
  - split; discriminate.
Qed.

Lemma page_step_pro_shown h e pw : pro_shown pw -> pro_shown (page_step h e pw).
Proof.
  destruct pw as [st w]. intros [Hw Hst]. simpl in Hw, Hst.
  destruct (page_step_mode h e st w) as [Hmode Hpage].
  assert (Hw' : operatingMode (syncStore (snd (page_step h e (st, w)))) = Some PRO).
  { destruct Hmode as [-> | [[H _] | (m & s & _ & _ & _ & Hs & Hm)]]; auto.
    exfalso. exact (Hm (Hst s Hs)). }
  split; [exact Hw' |].
  intros s Hs. destruct Hpage as [Hp | Hp].
  - apply Hst. rewrite <- Hp. exact Hs.
  - rewrite Hs in Hp. injection Hp as ->. apply readSettings_pro, Hw'.
Qed.

Lemma run_page_pro_shown h es pw : pro_shown pw -> pro_shown (run_page h es pw).
Proof.
  revert pw. induction es as [| e es IH]; intros pw Hpw; [exact Hpw |].
  simpl. apply IH, page_step_pro_shown, Hpw.
Qed.

Lemma page_step_not_pro h e pw :
  no_purchase e = true ->
  operatingMode (syncStore (snd pw)) <> Some PRO ->
  operatingMode (syncStore (snd (page_step h e pw))) <> Some PRO.
Proof.
  destruct pw as [st w]. intros He Hw. simpl in Hw.
  destruct (page_step_mode h e st w) as [Hmode _].
  destruct Hmode as [-> | [[_ H] | (m & s & _ & Hm & -> & _)]].
  - exact Hw.
  - congruence.
  - congruence.
Qed.

Lemma run_page_not_pro h es pw :
  forallb no_purchase es = true ->
  operatingMode (syncStore (snd pw)) <> Some PRO ->
  operatingMode (syncStore (snd (run_page h es pw))) <> Some PRO.
Proof.
  revert pw. induction es as [| e es IH]; intros pw Hes Hpw; [exact Hpw |].
  simpl in Hes. apply andb_prop in Hes as [He Hes].
  simpl. apply IH; [exact Hes | apply page_step_not_pro; assumption].
Qed.

(** X23. The options page and the mode it finds stored when it is opened,
    whatever the user does on the page and whichever reads and writes of
    the settings fail.  When the page is opened on PRO, PRO is still stored
    after any sequence of events.  When it is opened on another mode, PRO
    is not stored after any sequence without an upgrade click whose
    purchase succeeds or finds chrome.payments missing.  A PRO stored by
    an upgrade on the page itself is not protected in this way: when the
    read that follows the save fails, the page keeps showing the old mode,
    and the next choice of a mode replaces PRO. *)
Theorem options_page_keeps_pro_found_at_opening
    (h : Host) (es : list PageEvent) (w : World) :
  (mode (settings_of h w) = PRO ->
   mode (settings_of h
           (snd (run_page h es (OptionsContext.initialState, w)))) = PRO)
  /\ (mode (settings_of h w) <> PRO ->
      forallb no_purchase es = true ->
      mode (settings_of h
              (snd (run_page h es (OptionsContext.initialState, w)))) <> PRO)
  /\ (mode (settings_of unread_upgrade_host
              (snd (run_page unread_upgrade_host
                      [Mounted; UpgradeClicked OptionsContext.PurchaseSucceeded]
                      (OptionsContext.initialState, initial)))) = PRO
      /\ OptionsContext.settings
           (fst (run_page unread_upgrade_host
                   [Mounted; UpgradeClicked OptionsContext.PurchaseSucceeded]
                   (OptionsContext.initialState, initial)))
         = Some {| mode := FREE_AD_SUPPORTED; consent := false;
                   userKey := None |}
      /\ mode (settings_of unread_upgrade_host
                 (snd (run_page unread_upgrade_host
                         [Mounted;
                          UpgradeClicked OptionsContext.PurchaseSucceeded;
                          ModeChosen BYOK]
                         (OptionsContext.initialState, initial)))) = BYOK).
Proof.
  unfold settings_of. split; [| split].
  - intros Hw. apply readSettings_pro.
    refine (proj1 (run_page_pro_shown h es (OptionsContext.initialState, w) _)).
    split; [exact (proj1 (readSettings_pro h _) Hw) | discriminate].
  - intros Hw Hes Hpro. apply readSettings_pro in Hpro. revert Hpro.
    apply (run_page_not_pro h es (OptionsContext.initialState, w) Hes).
    simpl. intros H. exact (Hw (proj2 (readSettings_pro h _) H)).
  - vm_compute. repeat split; reflexivity.
Qed.

(** ** A click and its scan among other handlers *)

#[local] Instance same_tab_preorder tabId : PreOrder (same_tab tabId).
Proof.
  split.
  - intros w. reflexivity.
  - intros a b c H1 H2. unfold same_tab in *. congruence.
Qed.

Lemma respects_awaiting {A} (R : World -> World -> Prop) `{!PreOrder R}
    (others : nat -> World -> World) (n : nat) (m : M A) :
  respects R m -> (forall w, R w (others n w)) ->
  respects R (awaiting others n m).
Proof.
  intros Hm Ho w. unfold awaiting. specialize (Hm w).
  destruct (m w) as [o w']. simpl in *.
  etransitivity; [exact Hm | apply Ho].
Qed.

Lemma awaiting_alone {A} (n : nat) (m : M A) (w : World) :
  awaiting (fun _ w => w) n m w = m w.
Proof. unfold awaiting. destruct (m w); reflexivity. Qed.

Lemma same_tabs_same_tab tabId w w' : same_tabs w w' -> same_tab tabId w w'.
Proof. unfold same_tabs, same_tab. intros ->. reflexivity. Qed.

Lemma same_tab_keeps_clean tabId w w' :
  same_tab tabId w w' -> keeps_clean tabId w w'.
Proof. unfold same_tab, keeps_clean, clean_tab. intros ->. auto. Qed.

Section Among.
Context (others : nat -> World -> World) (h : Host) (tabId : Z).
Hypothesis others_leave_tab : leave_tab tabId others.

Lemma others_keep_clean n w : keeps_clean tabId w (others n w).
Proof. apply same_tab_keeps_clean, others_leave_tab. Qed.

Ltac among_leaf :=
  apply (respects_awaiting _); [| intros ?; apply others_keep_clean];
  first
    [ apply updateStatus_keeps_clean; discriminate
    | apply (respects_weaken same_tabs (keeps_clean _) (same_tabs_keeps_clean _));
      first [ apply findAcceptButtonSelector_tabs | apply sendEvent_tabs
            | apply executeScript_click_tabs ] ].

Lemma scanSteps_among_keeps_clean tabUrl html :
  respects (keeps_clean tabId) (scanSteps_among others h tabId tabUrl html).
Proof.
  unfold scanSteps_among, trackScanSuccess, trackScanNotFound.
  respects_walk; among_leaf.
Qed.

Lemma scanFailed_among_wf tabUrl html err w :
  wf_tab tabId (snd (scanFailed_among others h tabId tabUrl html err w)).
Proof.
  unfold scanFailed_among, bind, awaiting.
  match goal with
  | |- context [updateStatus h tabId ?patch w] =>
      pose proof (updateStatus_tabStates h tabId patch w) as Hu;
      destruct (updateStatus h tabId patch w) as [[[] | t] w1]
  end; simpl in Hu |- *.
  - match goal with
    | |- context [trackScanError h ?u ?why ?ctx ?w2] =>
        pose proof (sendEvent_tabs h (js "scan_result")
                      {| pl_url := u; pl_banner_html_context := ctx;
                         pl_selector := None; pl_reason := Some why;
                         pl_status := js "error" |} w2) as Hs;
        unfold trackScanError;
        destruct (sendEvent h (js "scan_result")
                    {| pl_url := u; pl_banner_html_context := ctx;
                       pl_selector := None; pl_reason := Some why;
                       pl_status := js "error" |} w2) as [o w3]
    end.
    simpl in Hs |- *. intros st.
    rewrite (others_leave_tab 8%nat w3), Hs, (others_leave_tab 7%nat w1), Hu,
      lookup_insert_eq.
    intros [= <-]. simpl. split; [reflexivity | eauto].
  - intros st. rewrite (others_leave_tab 7%nat w1), Hu, lookup_insert_eq.
    intros [= <-]. simpl. split; [reflexivity | eauto].
Qed.

Lemma executeScan_among_wf tabUrl w :
  clean_tab tabId w ->
  wf_tab tabId (snd (executeScan_among others h tabId tabUrl w)).
Proof.
  intros Hclean. unfold executeScan_among, awaiting.
  pose proof (executeScript_outerHTML_tabs h tabId w) as H0.
  destruct (executeScript_outerHTML h tabId w) as [[html | t] w1]; simpl in H0.
  - assert (H1 : clean_tab tabId (others 1%nat w1)).
    { apply others_keep_clean. eapply same_tabs_keeps_clean; eauto. }
    unfold try_catch.
    pose proof (scanSteps_among_keeps_clean tabUrl html _ H1) as H2.
    destruct (scanSteps_among others h tabId tabUrl html (others 1%nat w1))
      as [[[] | t] w2]; simpl in H2.
    + apply clean_tab_wf, H2.
    + apply scanFailed_among_wf.
  - apply scanFailed_among_wf.
Qed.

Lemma onActionClicked_among_wf tab w :
  tab_id tab = Some tabId ->
  truthy_id (tab_id tab) = true ->
  truthy_str (tab_url tab) = true ->
  wf_tab tabId (snd (onActionClicked_among others h tab w)).
Proof.
  intros Hid Hid' Hurl. unfold onActionClicked_among. rewrite Hid', Hurl, Hid.
  simpl. unfold bind, awaiting.
  match goal with
  | |- context [updateStatus h tabId ?patch w] =>
      pose proof (updateStatus_tabStates h tabId patch w) as Hu;
      destruct (updateStatus h tabId patch w) as [[[] | t] w1]
  end; simpl in Hu.
  - assert (H1 : clean_tab tabId (others 0%nat w1)).
    { intros st. rewrite (others_leave_tab 0%nat w1), Hu, lookup_insert_eq.
      intros [= <-]. split; [reflexivity | discriminate]. }
    unfold fire_and_forget, try_catch.
    pose proof (executeScan_among_wf (render_opt (tab_url tab)) _ H1) as H2.
    destruct (executeScan_among others h tabId (render_opt (tab_url tab))
                (others 0%nat w1)) as [[[] | t] w2]; exact H2.
  - apply clean_tab_wf. intros st. simpl.
    rewrite (others_leave_tab 0%nat w1), Hu, lookup_insert_eq.
    intros [= <-]. split; [reflexivity | discriminate].
Qed.

End Among.

Lemma scanSteps_alone h tabId tabUrl html w :
  scanSteps_among (fun _ w => w) h tabId tabUrl html w
  = scanSteps h tabId tabUrl html w.
Proof.
  unfold scanSteps_among, scanSteps.
  destruct (negb (truthy_str html)); [reflexivity |].
  cbv zeta. unfold bind. rewrite awaiting_alone.
  destruct (updateStatus h tabId (patch_status ANALYZING) w) as [[[] | t] w1];
    [| reflexivity].
  rewrite awaiting_alone.
  destruct (findAcceptButtonSelector h (render_opt html) w1)
    as [[selector | t] w2]; [| reflexivity].
  destruct (truthy_str selector).
  - rewrite awaiting_alone.
    destruct (executeScript_click h tabId (render_opt selector) w2)
      as [[[r |] | t] w3]; try reflexivity.
    destruct (success r); [| reflexivity].
    rewrite awaiting_alone.
    destruct (updateStatus h tabId (patch_status SUCCESS) w3)
      as [[[] | t] w4]; [| reflexivity].
    apply awaiting_alone.
  - rewrite awaiting_alone.
    destruct (updateStatus h tabId (patch_status NOT_FOUND) w2)
      as [[[] | t] w3]; [| reflexivity].
    apply awaiting_alone.
Qed.

Lemma scanFailed_alone h tabId tabUrl html err w :
  scanFailed_among (fun _ w => w) h tabId tabUrl html err w
  = scanFailed h tabId tabUrl html err w.
Proof.
  unfold scanFailed_among, scanFailed. cbv zeta. unfold bind.
  rewrite awaiting_alone.
  match goal with
  | |- context [updateStatus h tabId ?patch w] =>
      destruct (updateStatus h tabId patch w) as [[[] | t] w1]
  end; [| reflexivity].
  apply awaiting_alone.
Qed.

Lemma executeScan_alone h tabId tabUrl w :
  executeScan_among (fun _ w => w) h tabId tabUrl w
  = executeScan h tabId tabUrl w.
Proof.
  unfold executeScan_among, executeScan. rewrite awaiting_alone.
  destruct (executeScript_outerHTML h tabId w) as [[html | t] w1].
  - unfold try_catch. rewrite scanSteps_alone.
    destruct (scanSteps h tabId tabUrl html w1) as [[[] | t] w2];
      [reflexivity | apply scanFailed_alone].
  - apply scanFailed_alone.
Qed.

Lemma onActionClicked_alone h tab w :
  onActionClicked_among (fun _ w => w) h tab w = onActionClicked h tab w.
Proof.
  unfold onActionClicked_among, onActionClicked.
  destruct (truthy_id (tab_id tab) && truthy_str (tab_url tab)); [| reflexivity].
  cbv zeta. unfold bind. rewrite awaiting_alone.
  match goal with
  | |- context [updateStatus h ?i ?patch w] =>
      destruct (updateStatus h i patch w) as [[[] | t] w1]
  end; [| reflexivity].
  unfold fire_and_forget, try_catch. rewrite executeScan_alone. reflexivity.
Qed.

(** X30. A click on the action of a tab, with the scan it starts, among
    the other handlers of the service worker.  If none of them writes the
    in-memory state of the tab while the click handler and the scan wait,
    then, whatever the state of the tab before the click, the state after
    the scan carries an error exactly when its status is Error.  The
    condition is needed: when an earlier scan of the same tab fails while
    the later one waits for its click, the tab ends in Success with the
    error of the earlier scan.  With no other handler in between, the click
    and its scan are onActionClicked. *)
Theorem click_scan_is_well_formed_unless_overlapped
    (h : Host) (tab : Tab) (tabId : Z) (others : nat -> World -> World)
    (w : World) :
  (tab_id tab = Some tabId ->
   truthy_id (tab_id tab) = true ->
   truthy_str (tab_url tab) = true ->
   leave_tab tabId others ->
   wf_tab tabId (snd (onActionClicked_among others h tab w)))
  /\ tabStates
       (snd (onActionClicked_among
               (earlier_scan_fails happy_host 7 (js "https://example.com/"))
               happy_host example_tab (keyed_byok happy_host))) !! 7%Z
     = Some {| status := SUCCESS; url := Some (js "https://example.com/");
               error := Some {| code := CLICK_FAILED;
                                message := js "Element is not visible" |} |}
  /\ onActionClicked_among (fun _ w => w) h tab w = onActionClicked h tab w.
Proof.
  split; [| split].
  - intros Hid Hid' Hurl Hothers.
    exact (onActionClicked_among_wf others h tabId Hothers tab w Hid Hid' Hurl).
  - vm_compute. reflexivity.
  - apply onActionClicked_alone.
Qed.

(** ** Concrete runs *)

(** A rejected candidate key leaves a warm cache as it was. *)
Example testApiKey_rejected_key_keeps_cache :
  let h := example_host None [] None in
  let w := snd (getAiInstance h (keyed_byok h)) in
  cachedAiInstance w = Some {| client_apiKey := js "user-key" |}
  /\ cachedAiInstance (snd (testApiKey h [] w)) = cachedAiInstance w.
Proof. vm_compute. split; reflexivity. Qed.

Lemma getSettings_default_mode_witness :
  exists s,
    fst (getSettings happy_host initial) = Ok s
    /\ mode s = FREE_AD_SUPPORTED
    /\ consent s = false.
Proof.
  destruct (getSettings_default_mode happy_host initial eq_refl eq_refl)
    as (s & H1 & H2 & H3 & _).
  exists s. auto.
Defined.

Lemma analytics_never_posted_without_consent_witness :
  snd (trackScanSuccess happy_host (js "https://example.com/") (js "#ok")
         (Some page_html) initial)
  = log EvSyncGet initial.
Proof.
  refine (proj1 (analytics_never_posted_without_consent happy_host initial
                   (js "https://example.com/") (js "#ok") [] (Some page_html)
                   7%Z _)).
  right. reflexivity.
Defined.

Lemma scan_without_markup_fails_before_analysis_witness :
  forallb not_gateway_call
    (calls_between initial
       (snd (executeScan blank_host 7%Z (js "https://example.com/") initial)))
  = true.
Proof.
  refine (proj2 (scan_without_markup_fails_before_analysis blank_host initial
                   7%Z (js "https://example.com/") None _ _));
    reflexivity.
Defined.

Lemma byok_without_key_is_rejected_locally_witness :
  calls_between (fresh_byok happy_host)
    (snd (getAiInstance happy_host (fresh_byok happy_host)))
  = [EvSyncGet].
Proof.
  refine (proj1 (proj2 (byok_without_key_is_rejected_locally happy_host
                          (fresh_byok happy_host) _ _ _ _)));
    [apply reachable_step, reachable_initial | reflexivity ..].
Defined.

Lemma free_tier_without_consent_yields_no_client_witness :
  cachedAiInstance (snd (getAiInstance happy_host initial)) = None.
Proof.
  refine (proj1 (proj2 (proj2
    (free_tier_without_consent_yields_no_client happy_host initial _ _ _ _))));
    [apply reachable_initial | reflexivity ..].
Defined.

Lemma findAcceptButtonSelector_soft_negative_witness :
  fst (findAcceptButtonSelector
         (example_host (Some page_html) selector_null_text None) page_html
         (keyed_byok happy_host))
  = Ok None.
Proof.
  set (h := example_host (Some page_html) selector_null_text None).
  set (w := keyed_byok happy_host).
  refine (proj2 (proj2
    (findAcceptButtonSelector_soft_negative h w page_html
       {| client_apiKey := js "user-key" |}
       (snd (getAiInstance h (log EvAnalysisGateway w)))
       selector_null_text _ _)) _);
    reflexivity.
Defined.

Lemma findAcceptButtonSelector_strips_fence_witness :
  fst (findAcceptButtonSelector
         (example_host (Some page_html) fenced_selector_text None) page_html
         (keyed_byok happy_host))
  = Ok (Some (js "#x")).
Proof.
  set (h := example_host (Some page_html) fenced_selector_text None).
  set (w := keyed_byok happy_host).
  refine (proj2 (proj2
    (findAcceptButtonSelector_strips_fence h w page_html
       {| client_apiKey := js "user-key" |}
       (snd (getAiInstance h (log EvAnalysisGateway w)))
       (js "json") selector_x_text _ _ _ _)) _ _);
    try reflexivity.
  discriminate.
Defined.

(** C1 as stated fails. On a fresh install (free tier, no consent flag)
    with a cold session cache, getAiInstance fetches the remote
    configuration and caches the shared key before it fails with
    ConsentRequired. *)
Lemma free_tier_without_consent_fetches_config :
  mode (settings_of happy_host initial) = FREE_AD_SUPPORTED
  /\ consent (settings_of happy_host initial) = false
  /\ fst (getAiInstance happy_host initial)
     = Throw (AppErr CONSENT_REQUIRED
         (js "For the free service, consent is required. Please enable it in the extension's options."))
  /\ calls_between initial (snd (getAiInstance happy_host initial))
     = [EvSyncGet; EvSessionGetCentral; EvFetchConfig;
        EvSessionSetCentral {| key := js "shared-key"; timestamp := 0 |}].
Proof. vm_compute. repeat split; reflexivity. Qed.

(** C4 at a failing input. The remote model answers with an object that
    has no selector field, or with one whose selector is a number:
    findAcceptButtonSelector returns null and raises no error, which is
    what it does for an explicit null. *)
Theorem malformed_response_is_a_soft_negative :
  fst (findAcceptButtonSelector
         (example_host (Some page_html) empty_object_text None) page_html
         (keyed_byok happy_host))
  = Ok None
  /\ fst (findAcceptButtonSelector
            (example_host (Some page_html) selector_number_text None) page_html
            (keyed_byok happy_host))
     = Ok None
  /\ fst (findAcceptButtonSelector
            (example_host (Some page_html) selector_null_text None) page_html
            (keyed_byok happy_host))
     = Ok None.
Proof. vm_compute. repeat split; reflexivity. Qed.

(** C2 at a failing input. A start-scan request on a fresh service worker,
    for tab 7: the first state written for the tab is Analyzing, after the
    active-tab query and the page-extraction call; a Scanning state is
    never written.  The action click on the same tab writes Scanning
    first, before any other call. *)
Theorem router_scan_skips_scanning :
  let routed :=
    dispatch happy_host (MessageReceived MANUAL_SCAN_REQUEST None) initial in
  let clicked := dispatch happy_host (ActionClicked example_tab) initial in
  first_status_update 7 (trace routed)
  = Some ([EvTabsQuery; EvExecuteScriptOuterHTML 7],
          {| status := ANALYZING; url := Some []; error := None |})
  /\ forallb not_writes_scanning (trace routed) = true
  /\ first_status_update 7 (trace clicked)
     = Some ([], {| status := SCANNING;
                    url := Some (js "https://example.com/");
                    error := None |}).
Proof. vm_compute. repeat split; reflexivity. Qed.

(** C3 at a failing input. On a fresh install a start-scan request for
    tab 7 ends in Error (ConsentRequired); the user then gives consent and
    requests a second scan of the same page.  The second scan ends in
    Success, and the stored state still carries the error of the first
    one.  With an action click in place of the second request the error
    is cleared. *)
Theorem router_scan_keeps_stale_error :
  let consent_error :=
    {| code := CONSENT_REQUIRED;
       message := js "For the free service, consent is required. Please enable it in the extension's options." |} in
  let routed :=
    run_triggers happy_host
      [MessageReceived MANUAL_SCAN_REQUEST None;
       SettingsSaved (SaveConsent true);
       MessageReceived MANUAL_SCAN_REQUEST None] initial in
  let clicked :=
    run_triggers happy_host
      [MessageReceived MANUAL_SCAN_REQUEST None;
       SettingsSaved (SaveConsent true);
       ActionClicked example_tab] initial in
  reachable happy_host routed
  /\ tabStates routed !! 7%Z
     = Some {| status := SUCCESS; url := Some [];
               error := Some consent_error |}
  /\ tabStates clicked !! 7%Z
     = Some {| status := SUCCESS; url := Some (js "https://example.com/");
               error := None |}.
Proof.
  split; [| vm_compute; split; reflexivity].
  apply reachable_run_triggers, reachable_initial.
Qed.

(** ** Concrete runs of the services *)

Lemma saved_settings_are_read_back_witness :
  fst (getSettings happy_host (snd (saveOperatingMode happy_host BYOK initial)))
  = Ok {| mode := BYOK; consent := false; userKey := None |}
  /\ fst (getSettings happy_host (snd (saveConsent happy_host true initial)))
     = Ok {| mode := FREE_AD_SUPPORTED; consent := true; userKey := None |}
  /\ fst (getSettings happy_host
            (snd (saveUserApiKey happy_host (js "user-key") initial)))
     = Ok {| mode := FREE_AD_SUPPORTED; consent := false;
             userKey := Some (js "user-key") |}.
Proof.
  apply (saved_settings_are_read_back happy_host initial BYOK true
           (js "user-key")); reflexivity.
Defined.

Lemma getCentralApiKey_fails_with_config_error_witness :
  (exists msg,
      AppErr CONFIG_FETCH_FAILED
        (js "Could not retrieve the central API key for the service.")
      = AppErr CONFIG_FETCH_FAILED msg)
  /\ sessionCentral (snd (getCentralApiKey offline_host initial))
     = sessionCentral initial.
Proof.
  apply (getCentralApiKey_fails_with_config_error offline_host initial).
  reflexivity.
Defined.

Lemma getCentralApiKey_uses_fresh_session_entry_witness :
  calls_between (snd (getCentralApiKey happy_host initial))
    (snd (getCentralApiKey happy_host (snd (getCentralApiKey happy_host initial))))
  = [EvSessionGetCentral].
Proof.
  refine (proj2 (getCentralApiKey_uses_fresh_session_entry happy_host
                   (snd (getCentralApiKey happy_host initial))
                   {| key := js "shared-key"; timestamp := 0 |} _ _ _ _));
    reflexivity.
Defined.

Lemma getCentralApiKey_refreshes_stale_entry_witness :
  fst (getCentralApiKey happy_host initial) = Ok (js "shared-key").
Proof.
  refine (proj1 (getCentralApiKey_refreshes_stale_entry happy_host initial 200
                   [(js "apiKey", JString (js "shared-key"))]
                   (js "shared-key") _ _ _ _ _ _));
    try reflexivity.
  right. intros e He. discriminate He.
Defined.

Lemma getCentralApiKey_result_is_cached_witness :
  exists e,
    sessionCentral (snd (getCentralApiKey happy_host initial)) = Some e
    /\ key e = js "shared-key".
Proof.
  destruct (getCentralApiKey_result_is_cached happy_host initial
              (js "shared-key") (snd (getCentralApiKey happy_host initial))
              eq_refl eq_refl) as (e & He & Hk & _).
  exists e. split; assumption.
Defined.

Lemma shared_key_is_never_empty_witness :
  fst (getCentralApiKey happy_host initial) = Ok (js "shared-key")
  /\ nonempty (js "shared-key") = true.
Proof.
  split; [reflexivity |].
  exact (proj2 (shared_key_is_never_empty happy_host initial
                  (reachable_initial happy_host))
           (js "shared-key") eq_refl).
Defined.

Lemma getAiInstance_client_matches_settings_witness :
  fst (getAiInstance happy_host (consenting happy_host))
  = Ok {| client_apiKey := js "shared-key" |}
  /\ nonempty (js "shared-key") = true
  /\ consent (settings_of happy_host (consenting happy_host)) = true.
Proof.
  destruct (getAiInstance_client_matches_settings happy_host
              (consenting happy_host) {| client_apiKey := js "shared-key" |}
              (snd (getAiInstance happy_host (consenting happy_host)))
              (reachable_step _ _ _ (reachable_initial _)) eq_refl)
    as (H1 & _ & H3 & _).
  split; [reflexivity |]. split; [exact H1 | apply H3; reflexivity].
Defined.

Lemma byok_client_is_reused_witness :
  fst (getAiInstance happy_host
         (snd (getAiInstance happy_host (keyed_byok happy_host))))
  = Ok {| client_apiKey := js "user-key" |}.
Proof.
  rewrite (byok_client_is_reused happy_host (keyed_byok happy_host)
             {| client_apiKey := js "user-key" |}
             (snd (getAiInstance happy_host (keyed_byok happy_host)))
             eq_refl eq_refl eq_refl).
  reflexivity.
Defined.

Lemma central_tiers_resolve_key_on_every_call_witness :
  exists l,
    calls_between (consenting happy_host)
      (snd (getAiInstance happy_host (consenting happy_host)))
    = EvSyncGet :: EvSessionGetCentral :: l.
Proof.
  apply central_tiers_resolve_key_on_every_call.
  - apply reachable_step, reachable_initial.
  - reflexivity.
  - discriminate.
  - reflexivity.
  - intros inst H. discriminate H.
Defined.

Lemma byok_with_key_builds_client_locally_witness :
  fst (getAiInstance happy_host (keyed_byok happy_host))
  = Ok {| client_apiKey := js "user-key" |}
  /\ calls_between (keyed_byok happy_host)
       (snd (getAiInstance happy_host (keyed_byok happy_host)))
     = [EvSyncGet].
Proof.
  apply byok_with_key_builds_client_locally; try reflexivity.
  apply reachable_step, reachable_step, reachable_initial.
Defined.

Lemma central_tier_client_follows_resolved_key_witness :
  fst (getAiInstance happy_host (consenting happy_host))
  = match fst (getCentralApiKey happy_host
                 (log EvSyncGet (consenting happy_host))) with
    | Ok k => Ok {| client_apiKey := k |}
    | Throw t => Throw t
    end.
Proof.
  apply central_tier_client_follows_resolved_key.
  - apply reachable_step, reachable_initial.
  - reflexivity.
  - discriminate.
  - reflexivity.
  - intros inst H. discriminate H.
Defined.

Lemma findAcceptButtonSelector_fails_with_app_error_witness :
  exists c msg,
    AppErr CONSENT_REQUIRED
      (js "For the free service, consent is required. Please enable it in the extension's options.")
    = AppErr c msg
    /\ (c = GENERIC_ANALYSIS_ERROR \/ c = API_KEY_INVALID
        \/ c = CONSENT_REQUIRED \/ c = CONFIG_FETCH_FAILED).
Proof.
  apply (findAcceptButtonSelector_fails_with_app_error happy_host page_html
           initial).
  reflexivity.
Defined.

Lemma sendEvent_posts_once_with_consent_witness :
  fst (sendEvent happy_host (js "scan_result")
         {| pl_url := js "https://example.com/";
            pl_banner_html_context := None; pl_selector := None;
            pl_reason := None; pl_status := js "not_found" |}
         (consenting happy_host))
  = Ok tt.
Proof.
  rewrite sendEvent_posts_once_with_consent; reflexivity.
Defined.

Lemma session_store_mirrors_tab_states_witness :
  sessionTabs (after_click happy_host) !! 7%Z = Some consent_error_state.
Proof.
  apply (session_store_mirrors_tab_states happy_host).
  - intros tr. reflexivity.
  - apply reachable_step, reachable_initial.
  - vm_compute. reflexivity.
Defined.

Lemma status_request_reads_the_stored_state_witness :
  fst (onMessage happy_host GET_STATUS (Some example_tab)
         (snd (updateStatus happy_host 7 (patch_status ANALYZING) initial)))
  = Ok (Some (merged 7 (patch_status ANALYZING) initial)).
Proof.
  refine (proj1 (status_request_reads_the_stored_state happy_host example_tab
                   7 (patch_status ANALYZING) initial _ _));
    [reflexivity | discriminate].
Defined.

Lemma executeScan_contains_failures_witness :
  fst (executeScan blank_host 7 (js "https://example.com/") initial) = Ok tt.
Proof.
  apply executeScan_contains_failures; intros tr; reflexivity.
Defined.

Lemma failed_click_is_reported_witness :
  exists st,
    tabStates (snd (executeScan hidden_button_host 7 (js "https://example.com/")
                      (keyed_byok hidden_button_host))) !! 7%Z = Some st
    /\ status st = ERROR
    /\ error st = Some {| code := CLICK_FAILED;
                          message := js "Element is not visible" |}.
Proof.
  set (h := hidden_button_host). set (w := keyed_byok h).
  set (w2 := snd (updateStatus h 7 (patch_status ANALYZING)
                    (log (EvExecuteScriptOuterHTML 7) w))).
  refine (failed_click_is_reported h w 7 (js "https://example.com/")
            page_html (js "#ok") w2
            (snd (findAcceptButtonSelector h page_html w2))
            (Some {| success := false; reason := js "Element is not visible" |})
            _ _ _ _ _ _ _);
    reflexivity.
Defined.

Lemma onActionClicked_first_stores_scanning_witness :
  exists rest,
    calls_between initial (snd (onActionClicked happy_host example_tab initial))
    = EvSessionSetTab 7
        {| status := SCANNING; url := Some (js "https://example.com/");
           error := None |} :: rest.
Proof.
  apply (onActionClicked_first_stores_scanning happy_host example_tab 7 initial);
    [reflexivity | discriminate | reflexivity].
Defined.

Lemma stripFence_keeps_unfenced_text_witness :
  stripFence selector_x_text = trim selector_x_text.
Proof.
  apply stripFence_keeps_unfenced_text. vm_compute. discriminate.
Defined.

Lemma handleTestKey_reports_the_test_witness :
  OptionsContext.handleTestKey happy_host [] initial
  = (Ok {| OptionsContext.success := false;
           OptionsContext.message := js "API Key cannot be empty." |},
     initial).
Proof.
  refine (proj1 (handleTestKey_reports_the_test happy_host [] initial) _).
  reflexivity.
Defined.

Lemma options_page_keeps_pro_found_at_opening_witness :
  mode (settings_of happy_host
          (snd (run_page happy_host
                  [Mounted; ModeChosen BYOK; SaveKeyClicked (js "user-key");
                   ConsentToggled true; ModeChosen FREE_AD_SUPPORTED]
                  (OptionsContext.initialState, upgraded happy_host))))
  = PRO.
Proof.
  refine (proj1 (options_page_keeps_pro_found_at_opening happy_host _
                   (upgraded happy_host)) _).
  reflexivity.
Defined.

Lemma click_scan_is_well_formed_unless_overlapped_witness :
  tabStates routed_twice !! 7%Z
  = Some {| status := SUCCESS; url := Some [];
            error := error consent_error_state |}
  /\ tabStates (snd (onActionClicked_among (other_tab_loads 8) happy_host
                       example_tab routed_twice)) !! 7%Z
     = Some skipped_state
  /\ (is_Some (error skipped_state) <-> status skipped_state = ERROR).
Proof.
  split; [vm_compute; reflexivity |].
  split; [vm_compute; reflexivity |].
  refine (proj1 (click_scan_is_well_formed_unless_overlapped happy_host
                   example_tab 7 (other_tab_loads 8) routed_twice)
            _ _ _ _ skipped_state _).
  - reflexivity.
  - reflexivity.
  - reflexivity.
  - intros n w. unfold same_tab, other_tab_loads. simpl.
    apply lookup_delete_ne. discriminate.
  - vm_compute. reflexivity.
Defined.
